(** * ExpenseTracker: the REST server of the personal finance tracker

    A shallow embedding of [server/index.js] (authentication and role
    middleware, cache helpers, transaction and analytics handlers) and of
    [contexts/AuthContext.tsx] ([hasPermission]), followed by the properties
    of the written specification that concern them.

    Conventions of the embedding.
    - Money is [DECIMAL(12,2)] in the store: an amount is an integer number
      of cents ([Z]).  Aggregates are exact; the rounding of IEEE doubles
      after [Number.parseFloat] is not modelled, a percentage is a rational.
    - [Date.now()] is a parameter [now : Z] (milliseconds); [CURRENT_DATE]
      is a parameter [today].
    - A thrown exception is the constructor [Throw] of [Outcome]; a
      [try ... catch] is a match on it.
    - The relational store is a list of rows; each SQL statement of the
      source is a list function written after its clauses.
    - Redis, [jsonwebtoken], [express-rate-limit] and [express-validator]
      are libraries: Redis is modelled from its commands ([GET], [SETEX],
      [KEYS], [DEL]), the verdicts of the token library and of the rate
      limiters are inputs of a request, the validation chain is written out.
    - Registration and login neither read nor write transactions or the
      cache: they are modelled on their own (module [Accounts]) over the
      rows of [users] with their [password] column, with the e-mail
      validators, [bcrypt] and [jwt.sign] as inputs.  The health check is
      left out.
    - Of the client, the session of [AuthProvider], the sidebar, the users
      tab and the transaction tab with its form are functions of the state
      and of what the user clicks (module [Client]). *)

From Stdlib Require Import ZArith QArith Lia Ascii.
From stdpp Require Import gmap strings list fin_maps sorting.

Local Open Scope Z_scope.

(** ** Strings as JavaScript uses them *)

Module JsString.

(** [s.startsWith(p)] *)
Fixpoint startsWith (s p : string) {struct p} : bool :=
  match p, s with
  | EmptyString, _ => true
  | String _ _, EmptyString => false
  | String a p', String b s' => if Ascii.eqb a b then startsWith s' p' else false
  end.

(** [s.includes(sub)] *)
Fixpoint includes (s sub : string) : bool :=
  startsWith s sub ||
  match s with
  | EmptyString => false
  | String _ s' => includes s' sub
  end.

(** [s.replace("*", "")]: only the first occurrence is replaced. *)
Fixpoint replace_star (s : string) : string :=
  match s with
  | EmptyString => EmptyString
  | String c s' => if Ascii.eqb c "*" then s' else String c (replace_star s')
  end.

(** No [*] occurs in the string. *)
Fixpoint starless (s : string) : bool :=
  match s with
  | EmptyString => true
  | String c s' => negb (Ascii.eqb c "*") && starless s'
  end.

(** [s.split(" ")], with the piece under construction in [cur]. *)
Fixpoint split_space_aux (cur : string) (s : string) : list string :=
  match s with
  | EmptyString => [String.rev cur]
  | String c s' =>
      if Ascii.eqb c " " then String.rev cur :: split_space_aux EmptyString s'
      else split_space_aux (String c cur) s'
  end.

Definition split_space (s : string) : list string := split_space_aux EmptyString s.

(** A string is truthy when it is not empty. *)
Definition truthy (s : string) : bool :=
  match s with EmptyString => false | String _ _ => true end.

(** ASCII lower-casing of one character and of a string. *)
Definition lower (c : ascii) : ascii :=
  let n := nat_of_ascii c in
  if ((65 <=? n)%nat && (n <=? 90)%nat)%bool then ascii_of_nat (n + 32) else c.

Fixpoint toLowerCase (s : string) : string :=
  match s with
  | EmptyString => EmptyString
  | String c s' => String (lower c) (toLowerCase s')
  end.

End JsString.

(** ** Exceptions *)

Inductive Outcome (A : Type) : Type :=
| Ok (a : A)
| Throw.
Arguments Ok {A} a.
Arguments Throw {A}.

(** ** The cache helpers ([getCacheKey], [getFromCache], [setCache],
       [invalidateCache]) *)

Module Cache.

(** Redis [KEYS] takes a glob-style pattern: [*], [?], a class
    [[...]] (with [^] and ranges) and [\] as escape. *)
Inductive GlobTok : Type :=
| GStar
| GAny
| GLit (c : ascii)
| GClass (neg : bool) (ranges : list (ascii * ascii)).

(** One pass over the pattern; [cls] is the class being read, if any. *)
Fixpoint glob_tokens (cls : option (bool * list (ascii * ascii))) (p : string)
  : list GlobTok :=
  match cls with
  | None =>
      match p with
      | EmptyString => []
      | String "*" p' => GStar :: glob_tokens None p'
      | String "?" p' => GAny :: glob_tokens None p'
      | String "\" (String c p') => GLit c :: glob_tokens None p'
      | String "[" (String "^" p') => glob_tokens (Some (true, [])) p'
      | String "[" p' => glob_tokens (Some (false, [])) p'
      | String c p' => GLit c :: glob_tokens None p'
      end
  | Some (neg, acc) =>
      match p with
      | EmptyString => [GClass neg acc]
      | String "\" (String c p') => glob_tokens (Some (neg, acc ++ [(c, c)])) p'
      | String "]" p' => GClass neg acc :: glob_tokens None p'
      | String a (String "-" (String b p')) =>
          glob_tokens (Some (neg, acc ++ [(a, b)])) p'
      | String c p' => glob_tokens (Some (neg, acc ++ [(c, c)])) p'
      end
  end.

Definition in_range (c : ascii) (r : ascii * ascii) : bool :=
  let n := nat_of_ascii c in
  let a := nat_of_ascii (fst r) in
  let b := nat_of_ascii (snd r) in
  (((a <=? n)%nat && (n <=? b)%nat) || ((b <=? n)%nat && (n <=? a)%nat))%bool.

Fixpoint glob_run (ts : list GlobTok) (s : string) : bool :=
  match ts with
  | [] => negb (JsString.truthy s)
  | GStar :: ts' =>
      (fix skip (s : string) : bool :=
         glob_run ts' s ||
         match s with
         | EmptyString => false
         | String _ s' => skip s'
         end) s
  | GAny :: ts' =>
      match s with
      | EmptyString => false
      | String _ s' => glob_run ts' s'
      end
  | GLit c :: ts' =>
      match s with
      | EmptyString => false
      | String d s' => Ascii.eqb c d && glob_run ts' s'
      end
  | GClass neg rs :: ts' =>
      match s with
      | EmptyString => false
      | String d s' => xorb neg (existsb (in_range d) rs) && glob_run ts' s'
      end
  end.

Definition glob_match (pattern key : string) : bool :=
  glob_run (glob_tokens None pattern) key.

(** [`${prefix}:${userId}${params ? ":" + params : ""}`] *)
Definition getCacheKey (prefix userId params : string) : string :=
  prefix +:+ ":" +:+ userId +:+
  (if JsString.truthy params then ":" +:+ params else "").

Section WithValue.
Context {V : Type}.

(** An entry of [memoryCache]: [{ data, expires }]. *)
Record Entry : Type := mkEntry { data : V; expires : Z }.

(** The cache state the helpers read and write.
    - [redis_ready]: [redis && redis.status === "ready"];
    - [redis_faulty]: the commands sent to the Redis client reject;
    - [redis_db]: the keys held by the Redis server with the instant
      their TTL runs out.  [JSON.stringify] followed by [JSON.parse]
      gives the payload back and the serialised text is never empty,
      so the server is modelled as holding the payload itself;
    - [memoryCache]: the in-process [Map]. *)
Record t : Type := mkCache {
  redis_ready : bool;
  redis_faulty : bool;
  redis_db : gmap string Entry;
  memoryCache : gmap string Entry
}.

Definition with_memory (c : t) (m : gmap string Entry) : t :=
  {| redis_ready := redis_ready c; redis_faulty := redis_faulty c;
     redis_db := redis_db c; memoryCache := m |}.

Definition with_redis (c : t) (m : gmap string Entry) : t :=
  {| redis_ready := redis_ready c; redis_faulty := redis_faulty c;
     redis_db := m; memoryCache := memoryCache c |}.

(** [redis.get(key)] *)
Definition redis_get (c : t) (now : Z) (key : string) : Outcome (option V) :=
  if redis_faulty c then Throw
  else Ok (match redis_db c !! key with
           | Some e => if now <? expires e then Some (data e) else None
           | None => None
           end).

(** [redis.setex(key, ttl, value)]; a TTL that is not positive is refused. *)
Definition redis_setex (c : t) (now : Z) (key : string) (ttl : Z) (v : V)
  : Outcome t :=
  if redis_faulty c then Throw
  else if ttl <=? 0 then Throw
  else Ok (with_redis c (<[key := mkEntry v (now + ttl * 1000)]> (redis_db c))).

(** [redis.keys(pattern)]: the live keys the pattern matches. *)
Definition redis_keys (c : t) (now : Z) (pattern : string)
  : Outcome (gmap string Entry) :=
  if redis_faulty c then Throw
  else Ok (filter (λ kv, glob_match pattern kv.1 = true ∧ now < expires kv.2)
                  (redis_db c)).

(** [redis.del(keys)] *)
Definition redis_del (c : t) (keys : gmap string Entry) : Outcome t :=
  if redis_faulty c then Throw
  else Ok (with_redis c (filter (λ kv, keys !! kv.1 = None) (redis_db c))).

Definition getFromCache (c : t) (now : Z) (key : string) : option V * t :=
  let body : Outcome (option V * t) :=
    if redis_ready c then
      match redis_get c now key with
      | Ok cached => Ok (cached, c)
      | Throw => Throw
      end
    else
      match memoryCache c !! key with
      | Some cached =>
          if now <? expires cached then Ok (Some (data cached), c)
          else Ok (None, with_memory c (delete key (memoryCache c)))
      | None => Ok (None, with_memory c (delete key (memoryCache c)))
      end in
  match body with
  | Ok r => r
  | Throw => (None, c)
  end.

Definition setCache (c : t) (now : Z) (key : string) (v : V) (ttl : Z) : t :=
  let body : Outcome t :=
    if redis_ready c then redis_setex c now key ttl v
    else Ok (with_memory c (<[key := mkEntry v (now + ttl * 1000)]> (memoryCache c))) in
  match body with
  | Ok c' => c'
  | Throw => c
  end.

Definition invalidateCache (c : t) (now : Z) (pattern : string) : t :=
  let body : Outcome t :=
    if redis_ready c then
      match redis_keys c now pattern with
      | Ok keys => if bool_decide (keys = ∅) then Ok c else redis_del c keys
      | Throw => Throw
      end
    else
      Ok (with_memory c
            (filter (λ kv, JsString.includes kv.1 (JsString.replace_star pattern) = false)
                    (memoryCache c))) in
  match body with
  | Ok c' => c'
  | Throw => c
  end.

(** The keys an invalidation with [pattern] removes, per backend. *)
Definition covers (c : t) (pattern key : string) : bool :=
  if redis_ready c then glob_match pattern key
  else JsString.includes key (JsString.replace_star pattern).

(** The backend answers: either the fallback is in use or Redis works. *)
Definition backend_ok (c : t) : bool := negb (redis_ready c && redis_faulty c).

(** Cache traffic as a trace of timed operations. *)
Inductive Op : Type :=
| OpGet (key : string)
| OpSet (key : string) (v : V) (ttl : Z)
| OpInvalidate (pattern : string).

Definition step (c : t) (ev : Z * Op) : t :=
  match ev.2 with
  | OpGet key => (getFromCache c ev.1 key).2
  | OpSet key v ttl => setCache c ev.1 key v ttl
  | OpInvalidate pattern => invalidateCache c ev.1 pattern
  end.

Definition run (c : t) (tr : list (Z * Op)) : t := foldl step c tr.

(** An operation that leaves alone an entry of [key] that expires at
    [deadline]: a read of [key] before the deadline or of another key,
    a write of another key, an invalidation that does not cover [key]. *)
Definition spares (c : t) (key : string) (deadline : Z) (ev : Z * Op) : bool :=
  match ev.2 with
  | OpGet key' => negb (String.eqb key' key) || (ev.1 <? deadline)
  | OpSet key' _ _ => negb (String.eqb key' key)
  | OpInvalidate pattern => negb (covers c pattern key)
  end.

(** An operation that does not write [key]. *)
Definition not_set (key : string) (ev : Z * Op) : bool :=
  match ev.2 with
  | OpSet key' _ _ => negb (String.eqb key' key)
  | _ => true
  end.

(** The entry of [key] in the backend in use. *)
Definition live (c : t) (key : string) : option Entry :=
  if redis_ready c then redis_db c !! key else memoryCache c !! key.

(** From [instant] on, nothing can be read under [key]. *)
Definition dead_by (c : t) (key : string) (instant : Z) : Prop :=
  match live c key with
  | Some e => expires e <= instant
  | None => True
  end.

End WithValue.

Arguments Entry : clear implicits.
Arguments t : clear implicits.
Arguments Op : clear implicits.

End Cache.

(** ** The data model: the rows of [users] and [transactions] *)

Module Model.

(** [type VARCHAR(10) CHECK (type IN ('income', 'expense'))] *)
Inductive TxType : Type := income | expense.

Definition TxType_eqb (a b : TxType) : bool :=
  match a, b with
  | income, income | expense, expense => true
  | _, _ => false
  end.

(** A calendar [DATE]. *)
Record Date : Type := mkDate { year : Z; month : Z; day : Z }.

(** [d1 <= d2] on calendar dates. *)
Definition date_leb (d1 d2 : Date) : bool :=
  (year d1 <? year d2) ||
  ((year d1 =? year d2) &&
   ((month d1 <? month d2) ||
    ((month d1 =? month d2) && (day d1 <=? day d2)))).

Definition date_eqb (d1 d2 : Date) : bool :=
  (year d1 =? year d2) && (month d1 =? month d2) && (day d1 =? day d2).

Definition leap (y : Z) : bool :=
  ((y mod 4 =? 0) && negb (y mod 100 =? 0)) || (y mod 400 =? 0).

Definition days_in_month (y m : Z) : Z :=
  if m =? 2 then (if leap y then 29 else 28)
  else if (m =? 4) || (m =? 6) || (m =? 9) || (m =? 11) then 30
  else 31.

(** [d - INTERVAL 'n months']: the month moves back, the day is clamped
    to the length of the month reached. *)
Definition minus_months (d : Date) (n : Z) : Date :=
  let m0 := year d * 12 + (month d - 1) - n in
  let y := m0 / 12 in
  let m := m0 mod 12 + 1 in
  mkDate y m (Z.min (day d) (days_in_month y m)).

(** A row of [users]; the password hash plays no part here. *)
Record User : Type := mkUser {
  u_id : string;
  u_email : string;
  u_name : string;
  u_role : string;
  u_created_at : Z
}.

(** A row of [transactions]; [amount] in cents, [created_at] and
    [updated_at] instants. *)
Record Transaction : Type := mkTx {
  tx_id : string;
  user_id : string;
  type : TxType;
  amount : Z;
  description : string;
  category : string;
  date : Date;
  created_at : Z;
  updated_at : Z
}.

End Model.

(** ** The SQL the handlers send, clause by clause *)

Module Sql.
Import Model.

(** *** [ILIKE]: [%] any sequence, [_] any character, [\] escapes *)

Inductive LikeTok : Type :=
| LAnySeq
| LAnyChar
| LLit (c : ascii).

(** [None]: the pattern ends with the escape character, which the
    database refuses. *)
Fixpoint like_tokens (p : string) : option (list LikeTok) :=
  match p with
  | EmptyString => Some []
  | String "\" EmptyString => None
  | String "\" (String c p') => cons (LLit c) <$> like_tokens p'
  | String "%" p' => cons LAnySeq <$> like_tokens p'
  | String "_" p' => cons LAnyChar <$> like_tokens p'
  | String c p' => cons (LLit c) <$> like_tokens p'
  end.

(** The pattern that matches exactly the text [s]. *)
Fixpoint literal (s : string) : list LikeTok :=
  match s with
  | EmptyString => []
  | String c s' => LLit c :: literal s'
  end.

Fixpoint ilike_run (ts : list LikeTok) (s : string) : bool :=
  match ts with
  | [] => negb (JsString.truthy s)
  | LAnySeq :: ts' =>
      (fix skip (s : string) : bool :=
         ilike_run ts' s ||
         match s with
         | EmptyString => false
         | String _ s' => skip s'
         end) s
  | LAnyChar :: ts' =>
      match s with
      | EmptyString => false
      | String _ s' => ilike_run ts' s'
      end
  | LLit c :: ts' =>
      match s with
      | EmptyString => false
      | String d s' =>
          Ascii.eqb (JsString.lower c) (JsString.lower d) && ilike_run ts' s'
      end
  end.

(** *** Aggregates *)

(** [SUM(...)]: [NULL] over no row. *)
Definition sum (xs : list Z) : option Z :=
  match xs with
  | [] => None
  | _ => Some (foldr Z.add 0 xs)
  end.

(** [COUNT( * )] *)
Definition count {A} (rows : list A) : Z := Z.of_nat (length rows).

(** [GROUP BY key] with two running sums per group: a row joins the
    group of its key or opens a new one. *)
Section GroupBy.
Context {K : Type} (eqb : K → K → bool).

Fixpoint bump (k : K) (v : Z * Z) (groups : list (K * (Z * Z)))
  : list (K * (Z * Z)) :=
  match groups with
  | [] => [(k, v)]
  | (k', (a, b)) :: rest =>
      if eqb k k' then (k', (a + v.1, b + v.2)) :: rest
      else (k', (a, b)) :: bump k v rest
  end.

Definition group_by (rows : list (K * (Z * Z))) : list (K * (Z * Z)) :=
  foldl (λ groups r, bump r.1 r.2 groups) [] rows.

(** The sums of the group of [k], if there is one. *)
Fixpoint group_of (k : K) (groups : list (K * (Z * Z))) : option (Z * Z) :=
  match groups with
  | [] => None
  | (k', v) :: rest => if eqb k k' then Some v else group_of k rest
  end.

(** The values of the rows of key [k]. *)
Definition rows_of (k : K) (rows : list (K * (Z * Z))) : list (Z * Z) :=
  map snd (List.filter (λ r, eqb k r.1) rows).
End GroupBy.

(** *** [ORDER BY] *)

(** [ORDER BY date DESC, created_at DESC]: [a] may precede [b]. *)
Definition newest_first (a b : Transaction) : bool :=
  if date_eqb (date a) (date b) then created_at b <=? created_at a
  else date_leb (date b) (date a).

(** Rows that tie on the sort key come in the order of the table.
    PostgreSQL leaves the order of ties open, query by query: what is
    proved of the order of a result is stated up to ties (a permutation
    that is sorted) or for rows without ties. *)
Definition order_by {A} (leb : A → A → bool) (rows : list A) : list A :=
  merge_sort (λ a b, Is_true (leb a b)) rows.

(** *** [LIMIT n OFFSET m]: both are [bigint]; a negative count and a
    count beyond the type (from 2^63 on) are errors *)
Definition bigint_max : Z := 9223372036854775807.

Definition limit_offset {A} (n m : Z) (rows : list A) : Outcome (list A) :=
  if (n <? 0) || (m <? 0) || (bigint_max <? n) || (bigint_max <? m) then Throw
  else Ok (take (Z.to_nat n) (drop (Z.to_nat m) rows)).

(** *** The time window [date >= CURRENT_DATE - INTERVAL '...'] *)
Definition since (today : Date) (months : Z) (t : Transaction) : bool :=
  date_leb (minus_months today months) (date t).

End Sql.

(** ** JavaScript numbers where the handlers coerce them *)

Module JsNum.

(** The value of [Math.ceil(totalCount / limit)]. *)
Inductive t : Type :=
| Num (z : Z)
| Infinity
| NaN.

(** [Number.parseFloat(x)] of a column that may be [NULL]: [None] is [NaN]. *)
Definition parseFloat (x : option Z) : option Z := x.

(** [x || 0]: [NaN] and [0] are falsy. *)
Definition or_zero (x : option Z) : Z :=
  match x with
  | Some z => if z =? 0 then 0 else z
  | None => 0
  end.

(** [Math.ceil(a / b)] for a count [a] (never negative). *)
Definition ceil_div (a b : Z) : t :=
  if b =? 0 then (if a =? 0 then NaN else Infinity)
  else Num (- ((- a) / b)).

(** [a / b]: [None] is the [Infinity] or [NaN] of a division by zero. *)
Definition div (a b : Z) : option Q :=
  if b =? 0 then None else Some (inject_Z a / inject_Z b)%Q.

(** [page < totalPages] *)
Definition lt (page : Z) (n : t) : bool :=
  match n with
  | Num z => page <? z
  | Infinity => true
  | NaN => false
  end.

End JsNum.

(** ** Requests, responses and the server state *)

Module Api.
Import Model.

(** *** Report payloads *)

(** [month] is [TO_CHAR(date, 'YYYY-MM')], kept as the pair (year, month).
    In [CategoryRow], a [percentage] that is not a finite number is [None]. *)
Record MonthRow : Type := mkMonthRow {
  mr_month : Z * Z;
  mr_income : Z;
  mr_expenses : Z
}.

Record Overview : Type := mkOverview {
  totalIncome : Z;
  totalExpenses : Z;
  balance : Z;
  transactionCount : Z;
  monthlyTrend : list MonthRow
}.

Record CategoryRow : Type := mkCategoryRow {
  cr_category : string;
  cr_amount : Z;
  cr_percentage : option Q;
  cr_count : Z
}.

Record YearRow : Type := mkYearRow {
  yr_year : Z;
  yr_income : Z;
  yr_expenses : Z
}.

Record Detailed : Type := mkDetailed {
  monthlyTrends : list MonthRow;
  categoryBreakdown : list CategoryRow;
  yearlyComparison : list YearRow
}.

(** What the analytics handlers put in the cache. *)
Inductive Payload : Type :=
| POverview (o : Overview)
| PDetailed (d : Detailed).

(** *** Requests *)

(** The JSON body of a transaction write, as received. [b_amount] is
    [None] when the text is not a number, [b_date] is [None] when it is
    not an ISO 8601 date. *)
Record TxBody : Type := mkBody {
  b_type : string;
  b_amount : option Z;
  b_description : string;
  b_category : string;
  b_date : option Date
}.

(** The body after validation and sanitisation. *)
Record Fields : Type := mkFields {
  f_type : TxType;
  f_amount : Z;
  f_description : string;
  f_category : string;
  f_date : Date
}.

Inductive Route : Type :=
| GetMe
| GetTransactions (page limit : option Z) (search : option string)
| PostTransaction (body : TxBody)
| PutTransaction (id : string) (body : TxBody)
| DeleteTransaction (id : string)
| GetOverview
| GetDetailed (timeRange : option string)
| GetUsers.

Record Request : Type := mkRequest {
  authorization : option string;
  route : Route
}.

(** What [jwt.verify(token, secret)] does with a token. *)
Inductive JwtResult : Type :=
| Decoded (userId : string)
| JsonWebTokenError
| TokenExpiredError.

(** What a request meets outside the server state: the token library,
    the clocks, the verdict of the rate limiters, the next UUID. *)
Record Env : Type := mkEnv {
  jwt_verify : string → JwtResult;
  now : Z;
  today : Date;
  api_limit_ok : bool;
  analytics_limit_ok : bool;
  fresh_id : string
}.

(** *** Responses *)

Record Pagination : Type := mkPagination {
  currentPage : Z;
  totalPages : JsNum.t;
  totalCount : Z;
  hasNext : bool;
  hasPrev : bool
}.

Inductive Body : Type :=
| BError (error : string)
| BMe (u : User)
| BTransactions (transactions : list Transaction) (pagination : Pagination)
| BTransaction (message : string) (transaction : option Transaction)
| BMessage (message : string)
| BPayload (p : Payload)
| BUsers (users : list (User * Z)).

Record Response : Type := mkResponse { status : Z; body : Body }.

Definition json (b : Body) : Response := mkResponse 200 b.
Definition fail (code : Z) (msg : string) : Response := mkResponse code (BError msg).

(** A middleware either hands over to the next one or answers. *)
Inductive Mw (A : Type) : Type :=
| Next (a : A)
| Respond (r : Response).
Arguments Next {A} a.
Arguments Respond {A} r.

(** *** The server state *)

Record Server : Type := mkServer {
  users : list User;
  transactions : list Transaction;
  cache : Cache.t Payload
}.

Definition with_cache (s : Server) (c : Cache.t Payload) : Server :=
  mkServer (users s) (transactions s) c.

Definition with_transactions (s : Server) (txs : list Transaction) : Server :=
  mkServer (users s) txs (cache s).

End Api.

(** ** Authentication and access control *)

Module Auth.
Import Model Api.

(** [authHeader && authHeader.split(" ")[1]] *)
Definition bearer (authHeader : option string) : option string :=
  match authHeader with
  | None => None
  | Some h => if JsString.truthy h then JsString.split_space h !! 1%nat else Some h
  end.

Definition falsy (token : option string) : bool :=
  match token with
  | None => true
  | Some s => negb (JsString.truthy s)
  end.

Definition authenticateToken (env : Env) (us : list User) (authHeader : option string)
  : Mw User :=
  let token := bearer authHeader in
  if falsy token then Respond (fail 401 "Access token required")
  else
    let body : Outcome (Mw User) :=
      match jwt_verify env (default "" token) with
      | Decoded userId =>
          match List.filter (λ u, String.eqb (u_id u) userId) us with
          | [] => Ok (Respond (fail 401 "Invalid token"))
          | u :: _ => Ok (Next u)
          end
      | JsonWebTokenError | TokenExpiredError => Throw
      end in
    match body with
    | Ok r => r
    | Throw => Respond (fail 403 "Invalid or expired token")
    end.

(** [roles.includes(req.user.role)] *)
Definition role_in (roles : list string) (role : string) : bool :=
  existsb (String.eqb role) roles.

Definition requireRole (roles : list string) (user : option User) : Mw User :=
  match user with
  | None => Respond (fail 401 "Authentication required")
  | Some u =>
      if role_in roles (u_role u) then Next u
      else Respond (fail 403 "Insufficient permissions")
  end.

(** [hasPermission] of the client's [AuthContext]; [user] is the state
    variable, [None] while nobody is logged in. *)
Definition hasPermission (user : option User) (action : string) : bool :=
  match user with
  | None => false
  | Some u =>
      if String.eqb action "admin" then String.eqb (u_role u) "admin"
      else if String.eqb action "write" then
        String.eqb (u_role u) "admin" || String.eqb (u_role u) "user"
      else if String.eqb action "read" then true
      else false
  end.

(** The role lists the server's routes pass to [requireRole]: none on the
    reading routes, [["admin", "user"]] on the writing ones, [["admin"]]
    on user management. *)
Definition route_roles (action : string) : option (list string) :=
  if String.eqb action "read" then None
  else if String.eqb action "write" then Some ["admin"; "user"]
  else Some ["admin"].

Definition server_permits (u : User) (action : string) : bool :=
  match route_roles action with
  | None => true
  | Some roles =>
      match requireRole roles (Some u) with
      | Next _ => true
      | Respond _ => false
      end
  end.

End Auth.

(** ** The validation chain of the transaction writes *)

Module Validate.
Import Model Api.

Definition is_space (c : ascii) : bool :=
  let n := nat_of_ascii c in
  ((n =? 32) || ((9 <=? n) && (n <=? 13)))%nat.

Fixpoint trim_start (s : string) : string :=
  match s with
  | EmptyString => EmptyString
  | String c s' => if is_space c then trim_start s' else s
  end.

(** [.trim()] *)
Definition trim (s : string) : string :=
  String.rev (trim_start (String.rev (trim_start s))).

(** [.escape()]: the ampersand, the two quotes, the angle brackets, the
    slash, the backslash and the backquote become HTML entities. *)
Fixpoint escape (s : string) : string :=
  match s with
  | EmptyString => EmptyString
  | String c s' =>
      let n := nat_of_ascii c in
      (if (n =? 38)%nat then "&amp;"
       else if (n =? 34)%nat then "&quot;"
       else if (n =? 39)%nat then "&#x27;"
       else if (n =? 60)%nat then "&lt;"
       else if (n =? 62)%nat then "&gt;"
       else if (n =? 47)%nat then "&#x2F;"
       else if (n =? 92)%nat then "&#x5C;"
       else if (n =? 96)%nat then "&#96;"
       else String c EmptyString) +:+ escape s'
  end.

(** [.isLength({ min, max })] *)
Definition isLength (lo hi : nat) (s : string) : bool :=
  ((lo <=? String.length s) && (String.length s <=? hi))%nat.

(** [body("type").isIn(["income", "expense"])] *)
Definition parse_type (s : string) : option TxType :=
  if String.eqb s "income" then Some income
  else if String.eqb s "expense" then Some expense
  else None.

(** The five checks, then the sanitised fields; [None] is the 400 of
    [handleValidationErrors]. [isFloat({ min: 0.01 })] is one cent. *)
Definition validate (b : TxBody) : option Fields :=
  match parse_type (b_type b), b_amount b, b_date b with
  | Some ty, Some a, Some d =>
      let desc := trim (b_description b) in
      let cat := trim (b_category b) in
      if (1 <=? a) && isLength 1 255 desc && isLength 1 100 cat
      then Some (mkFields ty a (escape desc) (escape cat) d)
      else None
  | _, _, _ => None
  end.

End Validate.

(** ** The columns of [transactions] *)

Module Schema.
Import Model Api.

(** [date DATE]: a day of the calendar, in a year of four digits from
    0001 on (PostgreSQL has no year 0). [isISO8601] lets 2024-02-30
    through; the column does not. *)
Definition valid_date (d : Date) : bool :=
  (1 <=? year d) && (year d <=? 9999) &&
  (1 <=? month d) && (month d <=? 12) &&
  (1 <=? day d) && (day d <=? days_in_month (year d) (month d)).

(** What an INSERT or an UPDATE can store: [description VARCHAR(255)],
    [category VARCHAR(100)], [amount DECIMAL(12, 2) CHECK (amount > 0)]
    (in cents) and [date DATE].  The statement fails on a row the columns
    refuse. *)
Definition accepts (f : Fields) : bool :=
  (String.length (f_description f) <=? 255)%nat &&
  (String.length (f_category f) <=? 100)%nat &&
  (0 <? f_amount f) && (f_amount f <? 10 ^ 12) &&
  valid_date (f_date f).

End Schema.

(** ** The route handlers *)

Module Handlers.
Import Model Api Auth.

Definition owned_by (userId : string) (t : Transaction) : bool :=
  String.eqb (user_id t) userId.

(** *** GET /api/transactions
    [page], [limit] and [search] are the query parameters after their
    defaults ([1], [10] and the empty string). *)

(** [WHERE user_id = $1 [AND (description ILIKE $2 OR category ILIKE $2)]]
    with [$2 = `%${search}%`]. *)
Definition list_where (userId search : string) : Outcome (Transaction → bool) :=
  if JsString.truthy search then
    match Sql.like_tokens ("%" +:+ search +:+ "%") with
    | Some ts =>
        Ok (λ t, owned_by userId t &&
                 (Sql.ilike_run ts (description t) || Sql.ilike_run ts (category t)))
    | None => Throw
    end
  else Ok (owned_by userId).

Definition getTransactions (s : Server) (user : User) (page limit : Z) (search : string)
  : Response :=
  let offset := (page - 1) * limit in
  let userId := u_id user in
  let body : Outcome Response :=
    match list_where userId search with
    | Throw => Throw
    | Ok w =>
        let matching := List.filter w (transactions s) in
        match Sql.limit_offset limit offset (Sql.order_by Sql.newest_first matching) with
        | Throw => Throw
        | Ok rows =>
            let totalCount := Sql.count matching in
            let totalPages := JsNum.ceil_div totalCount limit in
            Ok (json (BTransactions rows
                        {| currentPage := page;
                           totalPages := totalPages;
                           totalCount := totalCount;
                           hasNext := JsNum.lt page totalPages;
                           hasPrev := 1 <? page |}))
        end
    end in
  match body with
  | Ok r => r
  | Throw => fail 500 "Internal server error"
  end.

(** *** The cache invalidation every write ends with *)
Definition invalidate_for (c : Cache.t Payload) (now : Z) (userId : string)
  : Cache.t Payload :=
  Cache.invalidateCache
    (Cache.invalidateCache c now ("analytics:" +:+ userId))
    now ("overview:" +:+ userId).

(** *** POST /api/transactions *)
Definition createTransaction (env : Env) (s : Server) (user : User) (f : Fields)
  : Response * Server :=
  let userId := u_id user in
  let body : Outcome (Response * Server) :=
    if Schema.accepts f then
      let row := mkTx (fresh_id env) userId (f_type f) (f_amount f)
                      (f_description f) (f_category f) (f_date f)
                      (now env) (now env) in
      let s1 := with_transactions s (transactions s ++ [row]) in
      let s2 := with_cache s1 (invalidate_for (cache s1) (now env) userId) in
      Ok (mkResponse 201 (BTransaction "Transaction created successfully" (Some row)),
          s2)
    else Throw in
  match body with
  | Ok r => r
  | Throw => (fail 500 "Internal server error", s)
  end.

(** [SELECT id FROM transactions WHERE id = $1 [AND user_id = $2]]:
    the second condition is added unless the caller is an admin. *)
Definition check_rows (s : Server) (user : User) (id : string) : list Transaction :=
  List.filter
    (λ t, String.eqb (tx_id t) id &&
          (if negb (String.eqb (u_role user) "admin") then owned_by (u_id user) t
           else true))
    (transactions s).

(** [UPDATE transactions SET ..., updated_at = CURRENT_TIMESTAMP
    WHERE id = $6] *)
Definition set_fields (f : Fields) (now : Z) (t : Transaction) : Transaction :=
  mkTx (tx_id t) (user_id t) (f_type f) (f_amount f) (f_description f)
       (f_category f) (f_date f) (created_at t) now.

Definition update_rows (id : string) (f : Fields) (now : Z) (txs : list Transaction)
  : list Transaction :=
  map (λ t, if String.eqb (tx_id t) id then set_fields f now t else t) txs.

(** *** PUT /api/transactions/:id *)
Definition updateTransaction (env : Env) (s : Server) (user : User) (id : string)
  (f : Fields) : Response * Server :=
  let userId := u_id user in
  let body : Outcome (Response * Server) :=
    match check_rows s user id with
    | [] => Ok (fail 404 "Transaction not found", s)
    | _ :: _ =>
        if Schema.accepts f then
          let txs := update_rows id f (now env) (transactions s) in
          let returning := List.filter (λ t, String.eqb (tx_id t) id) txs in
          let s1 := with_transactions s txs in
          let s2 := with_cache s1 (invalidate_for (cache s1) (now env) userId) in
          Ok (json (BTransaction "Transaction updated successfully" (head returning)),
              s2)
        else Throw
    end in
  match body with
  | Ok r => r
  | Throw => (fail 500 "Internal server error", s)
  end.

(** *** DELETE /api/transactions/:id *)
Definition deleteTransaction (env : Env) (s : Server) (user : User) (id : string)
  : Response * Server :=
  let userId := u_id user in
  match check_rows s user id with
  | [] => (fail 404 "Transaction not found", s)
  | _ :: _ =>
      let txs := List.filter (λ t, negb (String.eqb (tx_id t) id)) (transactions s) in
      let s1 := with_transactions s txs in
      let s2 := with_cache s1 (invalidate_for (cache s1) (now env) userId) in
      (json (BMessage "Transaction deleted successfully"), s2)
  end.

End Handlers.

(** ** The analytics handlers *)

Module Analytics.
Import Model Api Handlers.

(** The key and the order of the monthly buckets. *)
Definition month_key (t : Transaction) : Z * Z := (year (date t), month (date t)).

Definition key_eqb (a b : Z * Z) : bool := (a.1 =? b.1) && (a.2 =? b.2).

Definition key_leb (a b : Z * Z) : bool :=
  (a.1 <? b.1) || ((a.1 =? b.1) && (a.2 <=? b.2)).

(** [CASE WHEN type = 'income' THEN amount ELSE 0 END] and its twin. *)
Definition income_of (t : Transaction) : Z :=
  if TxType_eqb (type t) income then amount t else 0.

Definition expense_of (t : Transaction) : Z :=
  if TxType_eqb (type t) expense then amount t else 0.

(** [SELECT TO_CHAR(date, 'YYYY-MM') as month, SUM(...) as income,
    SUM(...) as expenses ... GROUP BY ... ORDER BY month], then the
    [map] of the handler over the rows. *)
Definition monthly (rows : list Transaction) : list MonthRow :=
  map (λ g : (Z * Z) * (Z * Z),
         mkMonthRow g.1
           (JsNum.or_zero (JsNum.parseFloat (Some g.2.1)))
           (JsNum.or_zero (JsNum.parseFloat (Some g.2.2))))
      (Sql.order_by (λ a b : (Z * Z) * (Z * Z), key_leb a.1 b.1)
         (Sql.group_by key_eqb
            (map (λ t, (month_key t, (income_of t, expense_of t))) rows))).

(** The data of GET /api/analytics/overview, computed from the store. *)
Definition overviewData (today : Date) (txs : list Transaction) (userId : string)
  : Overview :=
  let rows := List.filter (owned_by userId) txs in
  let total_income := Sql.sum (map income_of rows) in
  let total_expenses := Sql.sum (map expense_of rows) in
  let transaction_count := Sql.count rows in
  let totalIncome := JsNum.or_zero (JsNum.parseFloat total_income) in
  let totalExpenses := JsNum.or_zero (JsNum.parseFloat total_expenses) in
  let balance := totalIncome - totalExpenses in
  let trend :=
    List.filter (λ t, owned_by userId t && Sql.since today 6 t) txs in
  mkOverview totalIncome totalExpenses balance transaction_count (monthly trend).

Definition getOverview (env : Env) (s : Server) (user : User) : Response * Server :=
  let userId := u_id user in
  let cacheKey := Cache.getCacheKey "overview" userId "" in
  let '(cached, c1) := Cache.getFromCache (cache s) (now env) cacheKey in
  match cached with
  | Some p => (json (BPayload p), with_cache s c1)
  | None =>
      let data := POverview (overviewData (today env) (transactions s) userId) in
      let c2 := Cache.setCache c1 (now env) cacheKey data 900 in
      (json (BPayload data), with_cache s c2)
  end.

(** The [switch (timeRange)]: the length of the window in months. *)
Definition window_months (timeRange : string) : Z :=
  if String.eqb timeRange "3months" then 3
  else if String.eqb timeRange "6months" then 6
  else if String.eqb timeRange "12months" then 12
  else if String.eqb timeRange "2years" then 24
  else 12.

(** [WHERE user_id = $1 AND type = 'expense' AND date >= ...] *)
Definition expense_in_window (today : Date) (months : Z) (userId : string)
  (t : Transaction) : bool :=
  owned_by userId t && TxType_eqb (type t) expense && Sql.since today months t.

(** [SELECT category, SUM(amount) as amount, COUNT( * ) as count ...
    GROUP BY category ORDER BY amount DESC] *)
Definition category_rows (today : Date) (months : Z) (txs : list Transaction)
  (userId : string) : list (string * (Z * Z)) :=
  Sql.order_by (λ a b : string * (Z * Z), b.2.1 <=? a.2.1)
    (Sql.group_by String.eqb
       (map (λ t, (category t, (amount t, 1)))
            (List.filter (expense_in_window today months userId) txs))).

(** [categoryResult.rows.reduce((sum, row) => sum + parseFloat(row.amount), 0)] *)
Definition total_of (rows : list (string * (Z * Z))) : Z :=
  foldl (λ sum row, sum + row.2.1) 0 rows.

(** [totalExpenses > 0 ? (amount / totalExpenses) * 100 : 0] *)
Definition percentage (total amount : Z) : option Q :=
  if 0 <? total then (λ q, q * 100)%Q <$> JsNum.div amount total
  else Some 0%Q.

Definition breakdown (rows : list (string * (Z * Z))) : list CategoryRow :=
  let totalExpenses := total_of rows in
  map (λ row : string * (Z * Z),
         mkCategoryRow row.1 row.2.1 (percentage totalExpenses row.2.1) row.2.2)
      rows.

(** The data of GET /api/analytics/detailed, computed from the store. *)
Definition detailedData (today : Date) (txs : list Transaction) (userId : string)
  (timeRange : string) : Detailed :=
  let months := window_months timeRange in
  let trends :=
    List.filter (λ t, owned_by userId t && Sql.since today months t) txs in
  mkDetailed (monthly trends)
             (breakdown (category_rows today months txs userId))
             [].

Definition getDetailed (env : Env) (s : Server) (user : User)
  (query : option string) : Response * Server :=
  let userId := u_id user in
  let timeRange := default "12months" query in
  let cacheKey := Cache.getCacheKey "analytics" userId timeRange in
  let '(cached, c1) := Cache.getFromCache (cache s) (now env) cacheKey in
  match cached with
  | Some p => (json (BPayload p), with_cache s c1)
  | None =>
      let data :=
        PDetailed (detailedData (today env) (transactions s) userId timeRange) in
      let c2 := Cache.setCache c1 (now env) cacheKey data 900 in
      (json (BPayload data), with_cache s c2)
  end.

End Analytics.

(** ** The routes: each request runs its chain of middleware *)

Module Routes.
Import Model Api Auth Handlers Analytics.

(** Middleware in a row: the first one that answers ends the chain. *)
Instance Mw_bind : MBind Mw := λ A B k m,
  match m with
  | Next a => k a
  | Respond r => Respond r
  end.

(** The end of a chain: a middleware that answered leaves the state alone. *)
Definition finish (s : Server) (m : Mw (Response * Server)) : Response * Server :=
  match m with
  | Next r => r
  | Respond r => (r, s)
  end.

(** The rate limiters answer 429 when the caller has used up the window. *)
Definition apiLimiter (env : Env) : Mw unit :=
  if api_limit_ok env then Next ()
  else Respond (fail 429 "Too many requests, please try again later").

Definition analyticsLimiter (env : Env) : Mw unit :=
  if analytics_limit_ok env then Next ()
  else Respond (fail 429 "Too many analytics requests, please try again later").

(** The validation chain of a write followed by [handleValidationErrors]. *)
Definition handleValidationErrors (b : TxBody) : Mw Fields :=
  match Validate.validate b with
  | Some f => Next f
  | None => Respond (fail 400 "Validation failed")
  end.

(** GET /api/users: every account with the number of its transactions,
    newest account first. *)
Definition getUsers (s : Server) : Response :=
  json (BUsers
          (map (λ u, (u, Sql.count (List.filter (owned_by (u_id u)) (transactions s))))
               (Sql.order_by (λ a b, u_created_at b <=? u_created_at a) (users s)))).

Definition writers : list string := ["admin"; "user"].

(** The routes, each with its middleware in the order of the source.  A
    request is served from its first middleware to its answer before the
    next one starts: handlers that overlap at their [await]s are not
    modelled, and what is proved of a series of requests is proved of
    requests served one after the other. *)
Definition handle (env : Env) (s : Server) (req : Request) : Response * Server :=
  finish s (
    user ← authenticateToken env (users s) (authorization req);
    match route req with
    | GetMe => Next (json (BMe user), s)
    | GetTransactions page limit search =>
        _ ← apiLimiter env;
        Next (getTransactions s user (default 1 page) (default 10 limit)
                              (default "" search), s)
    | PostTransaction b =>
        user ← requireRole writers (Some user);
        _ ← apiLimiter env;
        f ← handleValidationErrors b;
        Next (createTransaction env s user f)
    | PutTransaction id b =>
        user ← requireRole writers (Some user);
        _ ← apiLimiter env;
        f ← handleValidationErrors b;
        Next (updateTransaction env s user id f)
    | DeleteTransaction id =>
        user ← requireRole writers (Some user);
        _ ← apiLimiter env;
        Next (deleteTransaction env s user id)
    | GetOverview =>
        _ ← analyticsLimiter env;
        Next (getOverview env s user)
    | GetDetailed timeRange =>
        _ ← analyticsLimiter env;
        Next (getDetailed env s user timeRange)
    | GetUsers =>
        _ ← requireRole ["admin"] (Some user);
        _ ← apiLimiter env;
        Next (getUsers s, s)
    end).

(** What can happen to a running server: a request is served, the Redis
    client changes status or starts or stops failing, the tables change
    behind the routes modelled here (registration, the cascade of a deleted
    account, administration of the database). *)
Inductive step : Server → Server → Prop :=
| step_request env s req : step s (handle env s req).2
| step_redis s ready faulty :
    step s (with_cache s (Cache.mkCache ready faulty
                            (Cache.redis_db (cache s))
                            (Cache.memoryCache (cache s))))
| step_store s us txs : step s (mkServer us txs (cache s)).

(** A server boots with both caches empty. *)
Definition boot (us : list User) (txs : list Transaction) (ready faulty : bool)
  : Server :=
  mkServer us txs (Cache.mkCache ready faulty ∅ ∅).

Inductive reachable : Server → Prop :=
| reach_boot us txs ready faulty : reachable (boot us txs ready faulty)
| reach_step s s' : reachable s → step s s' → reachable s'.

End Routes.

(** ** The written specification, in its own words *)

Module Spec.
Import Model Api.

(** The sum of a list of amounts. *)
Definition total (xs : list Z) : Z := foldr Z.add 0 xs.


(** [s] contains [sub], case-insensitively. *)
Definition contains_ci (s sub : string) : bool :=
  JsString.includes (JsString.toLowerCase s) (JsString.toLowerCase sub).

(** The records [list] returns: owned by the user and, when the search
    string is not empty, containing it in the description or category. *)
Definition listed (userId search : string) (t : Transaction) : bool :=
  String.eqb (user_id t) userId &&
  (negb (JsString.truthy search) ||
   contains_ci (description t) search || contains_ci (category t) search).

(** A search string free of the pattern characters of [LIKE]. *)
Fixpoint plain (s : string) : bool :=
  match s with
  | EmptyString => true
  | String c s' =>
      negb (Ascii.eqb c "%") && negb (Ascii.eqb c "_") && negb (Ascii.eqb c "\")
      && plain s'
  end.

(** The user's transactions of one type. *)
Definition of_type (ty : TxType) (userId : string) (txs : list Transaction)
  : list Transaction :=
  List.filter (λ t, String.eqb (user_id t) userId && TxType_eqb (type t) ty) txs.

(** Transactions in one category. *)
Definition in_category (cat : string) (txs : list Transaction) : list Transaction :=
  List.filter (λ t, String.eqb cat (category t)) txs.









End Spec.

(** ** What the caches hold *)

Module Inv.
Import Api.

(** A payload sits under a key of its own kind and is consistent in
    itself: an overview balances, a detailed report has no yearly rows. *)
Definition wf_payload (key : string) (p : Payload) : Prop :=
  match p with
  | POverview o =>
      JsString.startsWith key "overview:" = true ∧
      balance o = totalIncome o - totalExpenses o
  | PDetailed d =>
      JsString.startsWith key "analytics:" = true ∧
      yearlyComparison d = []
  end.

Definition wf_store (m : gmap string (Cache.Entry Payload)) : Prop :=
  ∀ k e, m !! k = Some e → wf_payload k (Cache.data e).

Definition wf_cache (c : Cache.t Payload) : Prop :=
  wf_store (Cache.redis_db c) ∧ wf_store (Cache.memoryCache c).

End Inv.

(** ** Shapes of ids and patterns *)

Module Shape.

(** The character does not occur in the string. *)
Fixpoint lacks (c : ascii) (s : string) : bool :=
  match s with
  | EmptyString => true
  | String d s' => negb (Ascii.eqb d c) && lacks c s'
  end.

(** An id without a colon, as every UUID is. *)
Definition colon_free (s : string) : bool := lacks ":" s.

(** A word without a space. *)
Definition spaceless (s : string) : bool := lacks " " s.

(** The characters [escape] replaces by entities and that do not occur in
    the entities: the two quotes, the angle brackets, the slash, the
    backslash and the backquote, by their codes. *)
Definition markup : list nat := [34; 39; 60; 62; 47; 92; 96]%nat.

(** None of the characters of [markup] occurs in the string. *)
Definition markup_free (s : string) : bool :=
  forallb (λ n, lacks (ascii_of_nat n) s) markup.

End Shape.

(** ** Where a cached report comes from *)

Module Origin.
Import Model Api.




(** The ids of the accounts are free of colons. *)
Definition plain_ids (us : list User) : Prop :=
  ∀ u, In u us → Shape.colon_free (u_id u) = true.

End Origin.

(** ** A server serving one request after the other *)

Module Trace.
Import Model Api.

Definition serve (s : Server) (reqs : list (Env * Request)) : Server :=
  foldl (λ s er, (Routes.handle er.1 s er.2).2) s reqs.


End Trace.

(** ** The columns of the tables *)

Module Columns.
Import Model Api.


(** The routes that write to [transactions]. *)
Definition is_write (r : Route) : bool :=
  match r with
  | PostTransaction _ | PutTransaction _ _ | DeleteTransaction _ => true
  | _ => false
  end.

(** [id UUID PRIMARY KEY] *)
Definition primary_key (txs : list Transaction) : Prop :=
  List.NoDup (map tx_id txs).

(** [CHECK (amount > 0)], in cents. *)
Definition amounts_positive (txs : list Transaction) : Prop :=
  ∀ t, In t txs → 1 <= amount t.

(** [Number.MAX_SAFE_INTEGER]: up to here JavaScript counts exactly. *)
Definition max_safe : Z := 9007199254740991.


(** No two of the rows tie on [(date, created_at)], the sort key of the
    listing. *)
Definition untied (rows : list Transaction) : Prop :=
  List.NoDup (map (λ t, (date t, created_at t)) rows).

End Columns.

(** ** A request as cache traffic *)

Module Series.
Import Model Api.

(** The operations a request sends to the cache, in order: an analytics
    route reads its key and, on a miss, writes the report it computed; a
    write that succeeded invalidates the two patterns of the caller. *)
Definition cache_ops (env : Env) (s : Server) (req : Request)
  : list (Z * Cache.Op Payload) :=
  match Auth.authenticateToken env (users s) (authorization req) with
  | Respond _ => []
  | Next user =>
      let userId := u_id user in
      match route req with
      | GetOverview =>
          if analytics_limit_ok env then
            let key := Cache.getCacheKey "overview" userId "" in
            (now env, Cache.OpGet key) ::
            match (Cache.getFromCache (cache s) (now env) key).1 with
            | Some _ => []
            | None =>
                [(now env,
                  Cache.OpSet key
                    (POverview
                       (Analytics.overviewData (today env) (transactions s) userId))
                    900)]
            end
          else []
      | GetDetailed query =>
          if analytics_limit_ok env then
            let timeRange := default "12months" query in
            let key := Cache.getCacheKey "analytics" userId timeRange in
            (now env, Cache.OpGet key) ::
            match (Cache.getFromCache (cache s) (now env) key).1 with
            | Some _ => []
            | None =>
                [(now env,
                  Cache.OpSet key
                    (PDetailed
                       (Analytics.detailedData (today env) (transactions s) userId
                          timeRange))
                    900)]
            end
          else []
      | PostTransaction _ | PutTransaction _ _ | DeleteTransaction _ =>
          if status (Routes.handle env s req).1 <? 400 then
            [(now env, Cache.OpInvalidate ("analytics:" +:+ userId));
             (now env, Cache.OpInvalidate ("overview:" +:+ userId))]
          else []
      | GetMe | GetTransactions _ _ _ | GetUsers => []
      end
  end.

(** A request that leaves alone what is cached under [key] until
    [deadline]: it is served before the deadline, and it is not a write of
    a caller whose invalidation covers the key in the backend of [c]. *)
Definition spares (c : Cache.t Payload) (us : list User) (key : string)
  (deadline : Z) (er : Env * Request) : Prop :=
  now er.1 < deadline ∧
  (Columns.is_write (route er.2) = true →
   ∀ w, Auth.authenticateToken er.1 us (authorization er.2) = Next w →
        Cache.covers c ("analytics:" +:+ u_id w) key = false ∧
        Cache.covers c ("overview:" +:+ u_id w) key = false).

(** A request of somebody else than the user [userId]. *)
Definition of_others (us : list User) (userId : string) (er : Env * Request) : Prop :=
  ∀ w, Auth.authenticateToken er.1 us (authorization er.2) = Next w →
       u_id w ≠ userId.

End Series.

(** ** What a response carries *)

Module Reply.
Import Model Api.

(** [response.data.transactions] *)
Definition rows (r : Response) : list Transaction :=
  match body r with
  | BTransactions transactions _ => transactions
  | _ => []
  end.

(** [response.data.pagination] *)
Definition pages (r : Response) : option Pagination :=
  match body r with
  | BTransactions _ pagination => Some pagination
  | _ => None
  end.

(** The report of an analytics response. *)
Definition report (r : Response) : option Payload :=
  match body r with
  | BPayload p => Some p
  | _ => None
  end.

End Reply.

(** ** Months *)

Module Months.
Import Model Api.

(** The rows dated in the month [k]. *)
Definition in_month (k : Z * Z) (rows : list Transaction) : list Transaction :=
  List.filter (λ t, Analytics.key_eqb k (Analytics.month_key t)) rows.


End Months.

(** ** Registration and login *)

Module Accounts.
Import Model Api.

(** A row of [users] with its [password] column. *)
Record Account : Type := mkAccount { profile : User; password : string }.

(** What the two routes meet outside the table: the verdict of
    [authLimiter], the validators [isEmail] and [normalizeEmail] ([None]
    when the text is no e-mail address), the password and token libraries,
    the UUID and the timestamp of the next row. *)
Record Lib : Type := mkLib {
  auth_limit_ok : bool;
  normalizeEmail : string → option string;
  bcrypt_hash : string → string;
  bcrypt_compare : string → string → bool;
  jwt_sign : string → string → string → string;
  gen_random_uuid : string;
  current_timestamp : Z
}.

Inductive Reply : Type :=
| Refused (status : Z) (error : string)
| Granted (status : Z) (message : string) (user : User) (token : string).

Definition limited : Reply :=
  Refused 429 "Too many authentication attempts, please try again later".

(** [SELECT ... FROM users WHERE email = $1] *)
Definition by_email (email : string) (accounts : list Account) : list Account :=
  List.filter (λ a, String.eqb (u_email (profile a)) email) accounts.

(** The row fits [name VARCHAR(100)], [email VARCHAR(255)] and
    [password VARCHAR(255)]. *)
Definition row_fits (a : Account) : bool :=
  ((String.length (u_name (profile a)) <=? 100) &&
   (String.length (u_email (profile a)) <=? 255) &&
   (String.length (password a) <=? 255))%nat.

(** POST /api/auth/register *)
Definition register (lib : Lib) (accounts : list Account) (name email password : string)
  : Reply * list Account :=
  if negb (auth_limit_ok lib) then (limited, accounts)
  else
    match normalizeEmail lib email with
    | Some email =>
        if Validate.isLength 2 50 (Validate.trim name) &&
           Validate.isLength 6 128 password
        then
          let name := Validate.escape (Validate.trim name) in
          match by_email email accounts with
          | _ :: _ => (Refused 400 "User already exists", accounts)
          | [] =>
              let hashedPassword := bcrypt_hash lib password in
              let user := mkUser (gen_random_uuid lib) email name "user"
                                 (current_timestamp lib) in
              let row := mkAccount user hashedPassword in
              if row_fits row then
                let token := jwt_sign lib (u_id user) (u_email user) (u_role user) in
                (Granted 201 "User created successfully" user token, accounts ++ [row])
              else (Refused 500 "Internal server error", accounts)
          end
        else (Refused 400 "Validation failed", accounts)
    | None => (Refused 400 "Validation failed", accounts)
    end.

(** POST /api/auth/login *)
Definition login (lib : Lib) (accounts : list Account) (email password : string)
  : Reply :=
  if negb (auth_limit_ok lib) then limited
  else
    match normalizeEmail lib email with
    | Some email =>
        if JsString.truthy password then
          match by_email email accounts with
          | [] => Refused 401 "Invalid credentials"
          | mkAccount user hashedPassword :: _ =>
              if bcrypt_compare lib password hashedPassword then
                Granted 200 "Login successful" user
                        (jwt_sign lib (u_id user) (u_email user) (u_role user))
              else Refused 401 "Invalid credentials"
          end
        else Refused 400 "Validation failed"
    | None => Refused 400 "Validation failed"
    end.

(** [email VARCHAR(255) UNIQUE] *)
Definition emails_unique (accounts : list Account) : Prop :=
  List.NoDup (map (λ a, u_email (profile a)) accounts).

End Accounts.

(** ** The client: session, sidebar and transaction tab *)

Module Client.
Import Model Api Auth.

(** *** [AuthProvider]: the state and the [token] item of [localStorage] *)
Record Session : Type := mkSession {
  user : option User;
  loading : bool;
  token : option string
}.

(** The provider as it mounts, with whatever the storage holds. *)
Definition mount (stored : option string) : Session := mkSession None true stored.

(** [initAuth]; [me] is the user of the answer to GET /auth/me, [None]
    when the request fails. *)
Definition initAuth (st : Session) (me : option User) : Session :=
  if falsy (token st) then mkSession (user st) false (token st)
  else
    match me with
    | Some u => mkSession (Some u) false (token st)
    | None => mkSession (user st) false None
    end.

(** [login] and [register]; [answer] is the user and the token of the
    response, [None] when the request fails. *)
Definition login (st : Session) (answer : option (User * string)) : Session :=
  match answer with
  | Some (userData, tok) => mkSession (Some userData) (loading st) (Some tok)
  | None => st
  end.

Definition register (st : Session) (answer : option (User * string)) : Session :=
  match answer with
  | Some (userData, tok) => mkSession (Some userData) (loading st) (Some tok)
  | None => st
  end.

Definition logout (st : Session) : Session := mkSession None (loading st) None.

Inductive Event : Type :=
| Login (answer : option (User * string))
| Register (answer : option (User * string))
| Logout.

Definition on (st : Session) (ev : Event) : Session :=
  match ev with
  | Login answer => login st answer
  | Register answer => register st answer
  | Logout => logout st
  end.

(** A session: the effect that runs [initAuth] on mount, then the calls. *)
Definition session (stored : option string) (me : option User) (evs : list Event)
  : Session :=
  foldl on (initAuth (mount stored) me) evs.

(** *** [AppSidebar] *)
Record MenuItem : Type := mkItem { title : string; id : string; permission : string }.

Definition menuItems : list MenuItem :=
  [ mkItem "Overview" "overview" "read";
    mkItem "Transactions" "transactions" "read";
    mkItem "Analytics" "analytics" "read";
    mkItem "Users" "users" "admin" ].

Definition filteredMenuItems (user : option User) : list MenuItem :=
  List.filter (λ item, hasPermission user (permission item)) menuItems.

(** *** [UsersTab]: the request of [fetchUsers], if it sends one *)
Definition fetchUsers (user : option User) : option Route :=
  if negb (hasPermission user "admin") then None else Some GetUsers.










(** [filteredTransactions] *)
Definition filteredTransactions (transactions : list Transaction) (searchTerm : string)
  : list Transaction :=
  List.filter
    (λ transaction,
       JsString.includes (JsString.toLowerCase (description transaction))
                         (JsString.toLowerCase searchTerm) ||
       JsString.includes (JsString.toLowerCase (category transaction))
                         (JsString.toLowerCase searchTerm))
    transactions.

(** The request of [fetchTransactions(page, search)]. *)
Definition fetchTransactions (page : Z) (search : string) : Route :=
  GetTransactions (Some page) (Some 10) (Some search).

End Client.

(** ** A small deployment used to run the handlers *)

Module Demo.
Import Model Api.

Definition admin : User := mkUser "a1" "admin@demo.com" "Admin User" "admin" 1.
Definition alice : User := mkUser "u1" "user@demo.com" "Regular User" "user" 2.
Definition bob : User := mkUser "u2" "bob@demo.com" "Bob" "user" 3.
Definition reader : User := mkUser "r1" "readonly@demo.com" "Read Only User" "read-only" 4.
Definition guest : User := mkUser "g1" "guest@demo.com" "Guest" "guest" 5.

Definition salary : Transaction :=
  mkTx "t1" "u1" income 350000 "Freelance Work" "Income" (mkDate 2024 1 1) 10 10.
Definition rent : Transaction :=
  mkTx "t2" "u1" expense 80000 "Rent" "Bills & Utilities" (mkDate 2024 1 1) 11 11.
Definition groceries : Transaction :=
  mkTx "t3" "u1" expense 20000 "Groceries" "Food & Dining" (mkDate 2024 1 2) 12 12.
Definition coffee : Transaction :=
  mkTx "t4" "u2" expense 4250 "Coffee" "Food & Dining" (mkDate 2024 1 3) 13 13.

Definition accounts : list User := [admin; alice; bob; reader].
Definition ledger : list Transaction := [salary; rent; groceries; coffee].

(** A token library that knows four tokens, one forged and one expired. *)
Definition verify (token : string) : JwtResult :=
  if String.eqb token "tok-admin" then Decoded "a1"
  else if String.eqb token "tok-alice" then Decoded "u1"
  else if String.eqb token "tok-bob" then Decoded "u2"
  else if String.eqb token "tok-reader" then Decoded "r1"
  else if String.eqb token "tok-gone" then Decoded "zz"
  else if String.eqb token "tok-old" then TokenExpiredError
  else JsonWebTokenError.

Definition env_at (now : Z) : Env :=
  mkEnv verify now (mkDate 2024 2 1) true true "t9".

(** The server in fallback mode, nothing cached yet. *)
Definition server0 : Server := Routes.boot accounts ledger false false.

(** The same deployment with a working Redis. *)
Definition server_redis : Server := Routes.boot accounts ledger true false.

Definition as_ (token : string) (r : Route) : Request :=
  mkRequest (Some ("Bearer " +:+ token)) r.

Definition new_rent : TxBody :=
  mkBody "expense" (Some 95000) "Rent" "Bills & Utilities" (Some (mkDate 2024 1 1)).

Definition bad_body : TxBody :=
  mkBody "expense" (Some 0) "Rent" "Bills & Utilities" (Some (mkDate 2024 1 1)).

(** Scenario 1, fallback cache: Alice reads her overview, the admin
    raises her rent, Alice reads her overview again. *)
Definition overview_1 : Response * Server :=
  Routes.handle (env_at 1000) server0 (as_ "tok-alice" GetOverview).
Definition admin_put : Response * Server :=
  Routes.handle (env_at 2000) overview_1.2
                (as_ "tok-admin" (PutTransaction "t2" new_rent)).
Definition overview_2 : Response * Server :=
  Routes.handle (env_at 3000) admin_put.2 (as_ "tok-alice" GetOverview).

(** Scenario 2, Redis: Alice reads her detailed report, raises her own
    rent, reads the report again. *)
Definition detailed_1 : Response * Server :=
  Routes.handle (env_at 1000) server_redis (as_ "tok-alice" (GetDetailed None)).
Definition own_put : Response * Server :=
  Routes.handle (env_at 2000) detailed_1.2
                (as_ "tok-alice" (PutTransaction "t2" new_rent)).
Definition detailed_2 : Response * Server :=
  Routes.handle (env_at 3000) own_put.2 (as_ "tok-alice" (GetDetailed None)).

(** The total of expenses an overview response reports. *)
Definition expenses_in (r : Response) : option Z :=
  match body r with
  | BPayload (POverview o) => Some (totalExpenses o)
  | _ => None
  end.

(** The amounts per category a detailed response reports. *)
Definition categories_in (r : Response) : list (string * Z) :=
  match body r with
  | BPayload (PDetailed d) =>
      map (λ row, (cr_category row, cr_amount row)) (categoryBreakdown d)
  | _ => []
  end.

(** Scenario 3: Alice searches her transactions for an underscore. *)
Definition underscore_search : Response * Server :=
  Routes.handle (env_at 1000) server0 (as_ "tok-alice" (GetTransactions (Some 1) (Some 10) (Some "_"))).

(** The ids of the transactions a list response returns. *)
Definition ids_in (r : Response) : list string :=
  match body r with
  | BTransactions rows _ => map tx_id rows
  | _ => []
  end.

(** A cache over numbers, in fallback mode and with Redis failing. *)
Definition numbers : Cache.t nat := Cache.mkCache false false ∅ ∅.
Definition numbers_faulty : Cache.t nat := Cache.mkCache true true ∅ ∅.

(** Toy libraries for the authentication routes: an address needs an at
    sign and is lower-cased, a hash is the password behind a prefix, a
    token names the account. *)
Definition lib : Accounts.Lib :=
  Accounts.mkLib true
    (λ email, if JsString.includes email "@" then Some (JsString.toLowerCase email)
              else None)
    (λ password, "hash:" +:+ password)
    (λ password hash, String.eqb ("hash:" +:+ password) hash)
    (λ userId email role, "jwt-" +:+ userId)
    "u9" 20.

Definition members : list Accounts.Account :=
  [Accounts.mkAccount admin "hash:admin123"; Accounts.mkAccount alice "hash:user123"].

(** Carol registers. *)
Definition carol_registers : Accounts.Reply * list Accounts.Account :=
  Accounts.register lib members "Carol" "Carol@Demo.com" "secret1".

(** The token library once Carol holds a token. *)
Definition env_carol : Env :=
  mkEnv (λ token, if String.eqb token "jwt-u9" then Decoded "u9" else verify token)
        1000 (mkDate 2024 2 1) true true "t9".

(** Bob reads his overview and adds a coffee, the admin lists the
    accounts. *)
Definition others_at_work : list (Env * Request) :=
  [(env_at 1500, as_ "tok-bob" GetOverview);
   (env_at 2000,
    as_ "tok-bob"
        (PostTransaction
           (mkBody "expense" (Some 450) "Coffee" "Food & Dining" (Some (mkDate 2024 1 4)))));
   (env_at 2500, as_ "tok-admin" GetUsers)].


End Demo.

(** * Properties *)

(** Opens the middleware chain of a route. *)
Ltac open_chain :=
  unfold Routes.handle, Routes.finish, Routes.apiLimiter, Routes.analyticsLimiter,
    Routes.handleValidationErrors, mbind, Routes.Mw_bind.

(** ** The definitions at work *)

Example bearer_token : Auth.bearer (Some "Bearer abc.def") = Some "abc.def".
Proof. reflexivity. Qed.

Example bearer_alone : Auth.bearer (Some "Bearer") = None.
Proof. reflexivity. Qed.

Example overview_key : Cache.getCacheKey "overview" "u1" "" = "overview:u1".
Proof. reflexivity. Qed.

Example analytics_key :
  Cache.getCacheKey "analytics" "u1" "12months" = "analytics:u1:12months".
Proof. reflexivity. Qed.

Example includes_pattern :
  JsString.includes "analytics:u1:12months" (JsString.replace_star "analytics:u1") = true.
Proof. reflexivity. Qed.

Example glob_exact_only :
  Cache.glob_match "analytics:u1" "analytics:u1:12months" = false ∧
  Cache.glob_match "analytics:u1" "analytics:u1" = true ∧
  Cache.glob_match "analytics:u1*" "analytics:u1:12months" = true ∧
  Cache.glob_match "h[a-c]l?o" "hblxo" = true.
Proof. repeat split; reflexivity. Qed.

Example ilike_examples :
  (λ ts, Sql.ilike_run ts "Coffee") <$> Sql.like_tokens "%OFF%" = Some true ∧
  (λ ts, Sql.ilike_run ts "Coffee") <$> Sql.like_tokens "%tea%" = Some false ∧
  (λ ts, Sql.ilike_run ts "Coffee") <$> Sql.like_tokens "%_%" = Some true ∧
  Sql.like_tokens "100\" = None.
Proof. repeat split; reflexivity. Qed.

Example end_of_march_minus_one_month :
  Model.minus_months (Model.mkDate 2024 3 31) 1 = Model.mkDate 2024 2 29.
Proof. reflexivity. Qed.

Example a_year_back_in_january :
  Model.minus_months (Model.mkDate 2024 1 15) 12 = Model.mkDate 2023 1 15 ∧
  Model.minus_months (Model.mkDate 2024 1 15) 3 = Model.mkDate 2023 10 15.
Proof. split; reflexivity. Qed.

Example ceil_div_examples :
  JsNum.ceil_div 3 10 = JsNum.Num 1 ∧ JsNum.ceil_div 20 10 = JsNum.Num 2 ∧
  JsNum.ceil_div 21 10 = JsNum.Num 3 ∧ JsNum.ceil_div 0 10 = JsNum.Num 0 ∧
  JsNum.ceil_div 3 0 = JsNum.Infinity ∧ JsNum.ceil_div 0 0 = JsNum.NaN.
Proof. repeat split; reflexivity. Qed.

Example escape_ampersand :
  Validate.escape (Validate.trim "  Bills & Utilities ") = "Bills &amp; Utilities".
Proof. reflexivity. Qed.

Example group_by_categories :
  Sql.group_by String.eqb [("a", (1, 1)); ("b", (2, 1)); ("a", (5, 1))]
  = [("a", (6, 2)); ("b", (2, 1))].
Proof. reflexivity. Qed.

Example validation_comes_before_the_ownership_check :
  Api.status (Routes.handle (Demo.env_at 0) Demo.server0
                (Demo.as_ "tok-bob" (Api.PutTransaction "t2" Demo.bad_body))).1 = 400 ∧
  Api.status (Routes.handle (Demo.env_at 0) Demo.server0
                (Demo.as_ "tok-bob" (Api.PutTransaction "nope" Demo.bad_body))).1 = 400.
Proof. split; reflexivity. Qed.

Example page_zero_is_an_error :
  Api.status (Routes.handle (Demo.env_at 0) Demo.server0
            (Demo.as_ "tok-alice" (Api.GetTransactions (Some 0) None None))).1 = 500.
Proof. reflexivity. Qed.

(** ** Strings *)

Section StringFacts.
Import JsString.

Lemma ascii_eqb_refl (c : ascii) : Ascii.eqb c c = true.
Proof. apply Ascii.eqb_eq. reflexivity. Qed.

Lemma startsWith_app (p s : string) : startsWith (p +:+ s) p = true.
Proof.
  induction p as [|c p IH]; simpl.
  - destruct s; reflexivity.
  - rewrite ascii_eqb_refl. exact IH.
Qed.

Lemma includes_app (p s : string) : includes (p +:+ s) p = true.
Proof.
  destruct p as [|c p].
  - destruct s; reflexivity.
  - change (includes (String c p +:+ s) (String c p))
      with (startsWith (String c p +:+ s) (String c p)
            || includes (p +:+ s) (String c p)).
    rewrite startsWith_app. reflexivity.
Qed.

Lemma replace_star_starless (s : string) : starless s = true → replace_star s = s.
Proof.
  induction s as [|c s IH]; simpl; [reflexivity|].
  intros [Hc Hs]%andb_true_iff.
  destruct (Ascii.eqb c "*"); [discriminate|]. rewrite IH; auto.
Qed.

Lemma starless_app (a b : string) :
  starless (a +:+ b) = starless a && starless b.
Proof.
  induction a as [|c a IH]; simpl; [reflexivity|].
  rewrite IH. apply andb_assoc.
Qed.

End StringFacts.

(** ** The cache helpers *)

Section CacheFacts.
Import Cache.
Context {V : Type}.
Implicit Types (c : Cache.t V) (k key pattern : string) (v : V) (ev : Z * Op V).

Lemma backend_ok_cases c :
  backend_ok c = true →
  redis_ready c = false ∨ (redis_ready c = true ∧ redis_faulty c = false).
Proof.
  unfold backend_ok. destruct (redis_ready c), (redis_faulty c); simpl; auto.
Qed.

(** What a read returns is decided by the entry of the backend in use. *)
Lemma getFromCache_live c now k :
  backend_ok c = true →
  (getFromCache c now k).1 =
    match live c k with
    | Some e => if now <? expires e then Some (data e) else None
    | None => None
    end.
Proof.
  intros [Hm | [Hr Hf]]%backend_ok_cases;
    unfold getFromCache, live, redis_get; rewrite ?Hm, ?Hr, ?Hf.
  - destruct (memoryCache c !! k) as [e|]; [|reflexivity].
    destruct (now <? expires e); reflexivity.
  - reflexivity.
Qed.

Lemma setCache_flags c now k v ttl :
  redis_ready (setCache c now k v ttl) = redis_ready c ∧
  redis_faulty (setCache c now k v ttl) = redis_faulty c.
Proof.
  unfold setCache, redis_setex.
  destruct (redis_ready c) eqn:Hr, (redis_faulty c) eqn:Hf, (ttl <=? 0);
    simpl; auto.
Qed.

Lemma getFromCache_flags c now k :
  redis_ready (getFromCache c now k).2 = redis_ready c ∧
  redis_faulty (getFromCache c now k).2 = redis_faulty c.
Proof.
  unfold getFromCache, redis_get.
  destruct (redis_ready c) eqn:Hr, (redis_faulty c) eqn:Hf; simpl; auto;
    destruct (memoryCache c !! k) as [e|]; simpl; auto;
    destruct (now <? expires e); simpl; auto.
Qed.

Lemma invalidateCache_flags c now pattern :
  redis_ready (invalidateCache c now pattern) = redis_ready c ∧
  redis_faulty (invalidateCache c now pattern) = redis_faulty c.
Proof.
  unfold invalidateCache, redis_keys, redis_del.
  destruct (redis_ready c) eqn:Hr, (redis_faulty c) eqn:Hf; simpl; auto.
  case_bool_decide; simpl; auto.
Qed.

Lemma step_flags c ev :
  redis_ready (step c ev) = redis_ready c ∧
  redis_faulty (step c ev) = redis_faulty c.
Proof.
  destruct ev as [now [k | k v ttl | p]]; simpl.
  - apply getFromCache_flags.
  - apply setCache_flags.
  - apply invalidateCache_flags.
Qed.

Lemma step_backend_ok c ev : backend_ok (step c ev) = backend_ok c.
Proof. unfold backend_ok. destruct (step_flags c ev) as [-> ->]. reflexivity. Qed.

(** After a write that went through, the entry is there. *)
Lemma setCache_live c now k v ttl :
  backend_ok c = true → 0 < ttl →
  live (setCache c now k v ttl) k = Some (mkEntry v (now + ttl * 1000)).
Proof.
  intros [Hm | [Hr Hf]]%backend_ok_cases Httl;
    unfold setCache, live, redis_setex; rewrite ?Hm, ?Hr, ?Hf; simpl.
  - rewrite Hm. apply lookup_insert_eq.
  - destruct (ttl <=? 0) eqn:E; [lia|]. simpl. rewrite Hr. apply lookup_insert_eq.
Qed.

(** In the fallback the write goes through whatever the TTL. *)
Lemma setCache_live_memory c now k v ttl :
  redis_ready c = false →
  live (setCache c now k v ttl) k = Some (mkEntry v (now + ttl * 1000)).
Proof.
  intros Hm. unfold setCache, live. rewrite Hm. simpl. rewrite Hm.
  apply lookup_insert_eq.
Qed.

(** How one operation changes the entry of [k]: it stays, it goes, or
    the operation writes [k]. *)
Lemma step_live c ev k :
  backend_ok c = true →
  live (step c ev) k = live c k ∨
  live (step c ev) k = None ∨
  not_set k ev = false.
Proof.
  intros Hok. destruct ev as [now [k' | k' v ttl | p]].
  - destruct (backend_ok_cases c Hok) as [Hm | [Hr Hf]].
    + unfold step, getFromCache, live; simpl. rewrite Hm.
      destruct (memoryCache c !! k') as [e|] eqn:Hk'; simpl; rewrite ?Hm.
      * destruct (now <? expires e); simpl; rewrite ?Hm; [by left|].
        destruct (decide (k' = k)) as [->|Hne].
        -- right; left. apply lookup_delete_eq.
        -- left. by apply lookup_delete_ne.
      * left. destruct (decide (k' = k)) as [->|Hne].
        -- by rewrite lookup_delete_eq.
        -- by apply lookup_delete_ne.
    + left. unfold step, getFromCache, live, redis_get; simpl.
      rewrite Hr, Hf. simpl. by rewrite Hr.
  - destruct (decide (k' = k)) as [->|Hne].
    + right; right. unfold not_set; simpl. by rewrite String.eqb_refl.
    + left. unfold step, setCache, live, redis_setex; simpl.
      destruct (redis_ready c) eqn:Hr; simpl.
      * destruct (redis_faulty c); simpl; rewrite ?Hr; [done|].
        destruct (ttl <=? 0); simpl; rewrite Hr; [done|].
        by apply lookup_insert_ne.
      * rewrite Hr. by apply lookup_insert_ne.
  - unfold step, invalidateCache, live, redis_keys, redis_del; simpl.
    destruct (redis_ready c) eqn:Hr; simpl.
    + destruct (redis_faulty c); simpl; rewrite ?Hr; [by left|].
      case_bool_decide; simpl; rewrite Hr; [by left|].
      destruct (redis_db c !! k) as [e|] eqn:Hk.
      * match goal with |- context [filter ?P (redis_db c) !! k] =>
          destruct (filter P (redis_db c) !! k) as [e'|] eqn:Hf end.
        -- apply map_lookup_filter_Some in Hf as [Hf _]. left. congruence.
        -- by right; left.
      * left. apply map_lookup_filter_None. left. exact Hk.
    + rewrite Hr.
      destruct (memoryCache c !! k) as [e|] eqn:Hk.
      * match goal with |- context [filter ?P (memoryCache c) !! k] =>
          destruct (filter P (memoryCache c) !! k) as [e'|] eqn:Hf end.
        -- apply map_lookup_filter_Some in Hf as [Hf _]. left. congruence.
        -- by right; left.
      * left. apply map_lookup_filter_None. left. exact Hk.
Qed.

(** An operation that spares [k] keeps a live entry of [k] as it is. *)
Lemma step_spares c c0 ev k e :
  backend_ok c = true →
  redis_ready c0 = redis_ready c →
  live c k = Some e →
  spares c0 k (expires e) ev = true →
  live (step c ev) k = Some e.
Proof.
  intros Hok Hflag Hk Hop.
  destruct ev as [now [k' | k' v ttl | p]]; unfold step, spares in *; simpl in *.
  - destruct (backend_ok_cases c Hok) as [Hm | [Hr Hf]].
    + unfold getFromCache, live in *. rewrite Hm in *.
      destruct (memoryCache c !! k') as [e'|] eqn:Hk'; simpl; rewrite ?Hm.
      * destruct (now <? expires e') eqn:E; simpl; rewrite ?Hm; [done|].
        destruct (decide (k' = k)) as [->|Hne].
        -- assert (e' = e) as -> by congruence.
           rewrite String.eqb_refl in Hop. simpl in Hop. congruence.
        -- by rewrite lookup_delete_ne.
      * destruct (decide (k' = k)) as [->|Hne]; [congruence|].
        by rewrite lookup_delete_ne.
    + unfold getFromCache, live, redis_get in *. rewrite Hr, Hf in *. simpl.
      by rewrite Hr.
  - apply negb_true_iff, String.eqb_neq in Hop.
    unfold setCache, live, redis_setex in *.
    destruct (redis_ready c) eqn:Hr; simpl.
    + destruct (redis_faulty c); simpl; rewrite ?Hr; [done|].
      destruct (ttl <=? 0); simpl; rewrite Hr; [done|].
      by rewrite lookup_insert_ne.
    + rewrite Hr. by rewrite lookup_insert_ne.
  - apply negb_true_iff in Hop. unfold covers in Hop. rewrite Hflag in Hop.
    unfold invalidateCache, live, redis_keys, redis_del in *.
    destruct (redis_ready c) eqn:Hr; simpl.
    + destruct (redis_faulty c); simpl; rewrite ?Hr; [done|].
      case_bool_decide; simpl; rewrite Hr; [done|].
      apply map_lookup_filter_Some_2; [done|]. simpl.
      apply map_lookup_filter_None. right. intros x _ [Hg _]. simpl in Hg.
      congruence.
    + rewrite Hr. apply map_lookup_filter_Some_2; [done|]. exact Hop.
Qed.

Lemma run_backend_ok c tr : backend_ok (run c tr) = backend_ok c.
Proof.
  revert c. induction tr as [|ev tr IH]; intros c; simpl; [done|].
  unfold run in *. simpl. rewrite IH. apply step_backend_ok.
Qed.

Lemma run_spares c c0 tr k e :
  backend_ok c = true →
  redis_ready c0 = redis_ready c →
  live c k = Some e →
  forallb (spares c0 k (expires e)) tr = true →
  live (run c tr) k = Some e.
Proof.
  revert c. induction tr as [|ev tr IH]; intros c Hok Hflag Hk Hall; [done|].
  simpl in Hall. apply andb_true_iff in Hall as [Hev Htr].
  unfold run in *. simpl. apply IH; try done.
  - by rewrite step_backend_ok.
  - destruct (step_flags c ev) as [-> _]. exact Hflag.
  - by apply (step_spares c c0).
Qed.

(** Without a write of [k], an entry that is gone or expired stays so. *)
Lemma step_dead_by c ev k instant :
  backend_ok c = true →
  not_set k ev = true →
  dead_by c k instant → dead_by (step c ev) k instant.
Proof.
  intros Hok Hns Hdead. unfold dead_by in *.
  destruct (step_live c ev k Hok) as [-> | [-> | Hset]]; [done|done|congruence].
Qed.

Lemma run_dead_by c tr k instant :
  backend_ok c = true →
  forallb (not_set k) tr = true →
  dead_by c k instant → dead_by (run c tr) k instant.
Proof.
  revert c. induction tr as [|ev tr IH]; intros c Hok Hall Hdead; [done|].
  simpl in Hall. apply andb_true_iff in Hall as [Hev Htr].
  unfold run in *. simpl. apply IH; try done.
  - by rewrite step_backend_ok.
  - by apply step_dead_by.
Qed.

Lemma getFromCache_dead c k instant now :
  backend_ok c = true → dead_by c k instant → instant <= now →
  (getFromCache c now k).1 = None.
Proof.
  intros Hok Hdead Hle. rewrite getFromCache_live by done.
  unfold dead_by in Hdead. destruct (live c k) as [e|]; [|done].
  destruct (now <? expires e) eqn:E; [|done]. apply Z.ltb_lt in E. lia.
Qed.

(** An invalidation leaves nothing readable under the keys it covers. *)
Lemma invalidateCache_dead c now pattern k :
  backend_ok c = true → covers c pattern k = true →
  dead_by (invalidateCache c now pattern) k now.
Proof.
  intros Hok Hcov. unfold dead_by, covers in *.
  destruct (backend_ok_cases c Hok) as [Hm | [Hr Hf]].
  - unfold invalidateCache, live. rewrite Hm in *. simpl. rewrite Hm.
    match goal with |- match ?o with _ => _ end => destruct o as [e|] eqn:E end;
      [|done].
    apply map_lookup_filter_Some in E as [_ E]. simpl in E. congruence.
  - unfold invalidateCache, live, redis_keys, redis_del. rewrite Hr, Hf in *.
    simpl. case_bool_decide as Hempty; simpl; rewrite Hr.
    + destruct (redis_db c !! k) as [e|] eqn:E; [|done].
      destruct (decide (now < expires e)) as [Hlt|]; [|lia].
      exfalso. eapply (map_filter_empty_not_lookup _ _ k e); eauto.
      simpl. done.
    + match goal with |- match ?o with _ => _ end => destruct o as [e|] eqn:E end;
        [|done].
      apply map_lookup_filter_Some in E as [E Hnone]. simpl in Hnone.
      apply map_lookup_filter_None in Hnone as [Hnone | Hnone]; [congruence|].
      destruct (decide (now < expires e)) as [Hlt|]; [|lia].
      exfalso. apply (Hnone e E). simpl. done.
Qed.

End CacheFacts.

(** ** Authentication and roles *)

Section AuthFacts.
Import Model Api Auth.

Lemma filter_nil_iff {A} (f : A → bool) (l : list A) :
  List.filter f l = [] ↔ existsb f l = false.
Proof.
  induction l as [|x l IH]; simpl; [done|].
  destruct (f x); simpl; [split; discriminate | exact IH].
Qed.

Lemma filter_head_In {A} (f : A → bool) (l : list A) x rest :
  List.filter f l = x :: rest → In x l ∧ f x = true.
Proof.
  intros H. apply filter_In. rewrite H. by left.
Qed.

(** The four ways [authenticateToken] can go. *)
Lemma authenticateToken_cases env us h :
  (falsy (bearer h) = true ∧
     authenticateToken env us h = Respond (fail 401 "Access token required")) ∨
  (∃ tok, bearer h = Some tok ∧ JsString.truthy tok = true ∧
     ((jwt_verify env tok = JsonWebTokenError ∨ jwt_verify env tok = TokenExpiredError) ∧
        authenticateToken env us h = Respond (fail 403 "Invalid or expired token") ∨
      (∃ uid, jwt_verify env tok = Decoded uid ∧
         existsb (λ u, String.eqb (u_id u) uid) us = false ∧
         authenticateToken env us h = Respond (fail 401 "Invalid token")) ∨
      (∃ uid u, jwt_verify env tok = Decoded uid ∧ In u us ∧ u_id u = uid ∧
         authenticateToken env us h = Next u))).
Proof.
  unfold authenticateToken.
  destruct (falsy (bearer h)) eqn:Hf; [left; done|right].
  destruct (bearer h) as [tok|] eqn:Hb; [|discriminate]. simpl in *.
  exists tok. split; [done|]. split; [by apply negb_false_iff|].
  destruct (jwt_verify env tok) as [uid| |] eqn:Hv.
  - right.
    destruct (List.filter (λ u, String.eqb (u_id u) uid) us) as [|u rest] eqn:Hq.
    + left. exists uid. split; [done|]. split; [|done]. by apply filter_nil_iff.
    + right. exists uid, u. apply filter_head_In in Hq as [Hin Hid].
      apply String.eqb_eq in Hid. done.
  - left. split; [by left|done].
  - left. split; [by right|done].
Qed.

(** A refusal of [authenticateToken] is a 401 or a 403. *)
Lemma authenticateToken_failure env us h r :
  authenticateToken env us h = Respond r → status r = 401 ∨ status r = 403.
Proof.
  intros Hr.
  destruct (authenticateToken_cases env us h)
    as [[_ H] | (tok & _ & _ & [[_ H] | [(uid & _ & _ & H) | (uid & u & _ & _ & _ & H)]])];
    rewrite H in Hr; try discriminate; injection Hr as <-; simpl; auto.
Qed.


End AuthFacts.

(** ** The caches of a running server only hold well-formed payloads *)

Section CacheInvariant.
Import Model Api Cache Inv Handlers Analytics Routes.
Implicit Types (c : Cache.t Payload) (s : Server).

Lemma wf_store_delete m k : wf_store m → wf_store (delete k m).
Proof.
  intros Hm k' e He. apply lookup_delete_Some in He as [_ He]. by apply Hm.
Qed.

Lemma wf_store_insert m k p exp :
  wf_store m → wf_payload k p → wf_store (<[k := mkEntry p exp]> m).
Proof.
  intros Hm Hp k' e He. apply lookup_insert_Some in He as [[<- <-] | [_ He]].
  - exact Hp.
  - by apply Hm.
Qed.

Lemma wf_store_filter m (P : string * Entry Payload → Prop) `{!∀ x, Decision (P x)} :
  wf_store m → wf_store (filter P m).
Proof.
  intros Hm k e He. apply map_lookup_filter_Some in He as [He _]. by apply Hm.
Qed.

Create HintDb cache_wf.
#[local] Hint Resolve wf_store_delete wf_store_insert wf_store_filter : cache_wf.

Lemma wf_getFromCache c now k :
  wf_cache c → wf_cache (getFromCache c now k).2.
Proof.
  intros [Hr Hm]. unfold getFromCache, redis_get.
  destruct (redis_ready c); [destruct (redis_faulty c); by split|].
  destruct (memoryCache c !! k) as [e|];
    [destruct (now <? expires e)|]; simpl; split; simpl; auto with cache_wf.
Qed.

Lemma wf_getFromCache_hit c now k p :
  wf_cache c → (getFromCache c now k).1 = Some p → wf_payload k p.
Proof.
  intros [Hr Hm]. unfold getFromCache, redis_get.
  destruct (redis_ready c).
  - destruct (redis_faulty c); [discriminate|]. simpl.
    destruct (redis_db c !! k) as [e|] eqn:E; [|discriminate].
    destruct (now <? expires e); [|discriminate]. intros [= <-]. by apply (Hr k).
  - destruct (memoryCache c !! k) as [e|] eqn:E; [|discriminate].
    destruct (now <? expires e); [|discriminate]. intros [= <-]. by apply (Hm k).
Qed.

Lemma wf_setCache c now k p ttl :
  wf_cache c → wf_payload k p → wf_cache (setCache c now k p ttl).
Proof.
  intros [Hr Hm] Hp. unfold setCache, redis_setex.
  destruct (redis_ready c).
  - destruct (redis_faulty c); [by split|].
    destruct (ttl <=? 0); [by split|]. split; simpl; auto with cache_wf.
  - split; simpl; auto with cache_wf.
Qed.

Lemma wf_invalidateCache c now pattern :
  wf_cache c → wf_cache (invalidateCache c now pattern).
Proof.
  intros [Hr Hm]. unfold invalidateCache, redis_keys, redis_del.
  destruct (redis_ready c).
  - destruct (redis_faulty c); [by split|]. simpl.
    case_bool_decide; [by split|]. split; simpl; auto with cache_wf.
  - split; simpl; auto with cache_wf.
Qed.

Lemma wf_invalidate_for c now userId :
  wf_cache c → wf_cache (invalidate_for c now userId).
Proof. intros H. unfold invalidate_for. by do 2 apply wf_invalidateCache. Qed.

Lemma overview_key_kind userId :
  JsString.startsWith (getCacheKey "overview" userId "") "overview:" = true ∧
  JsString.startsWith (getCacheKey "overview" userId "") "analytics:" = false.
Proof. split; reflexivity. Qed.

Lemma analytics_key_kind userId timeRange :
  JsString.startsWith (getCacheKey "analytics" userId timeRange) "analytics:" = true ∧
  JsString.startsWith (getCacheKey "analytics" userId timeRange) "overview:" = false.
Proof. split; reflexivity. Qed.

Lemma wf_getOverview env s user :
  wf_cache (cache s) → wf_cache (cache (getOverview env s user).2).
Proof.
  intros Hwf. unfold getOverview.
  destruct (getFromCache (cache s) (now env) _) as [cached c1] eqn:Hget.
  assert (wf_cache c1) as Hc1.
  { change c1 with (cached, c1).2. rewrite <- Hget. by apply wf_getFromCache. }
  destruct cached as [p|]; simpl; [done|].
  apply wf_setCache; [done|]. split; [apply overview_key_kind | reflexivity].
Qed.

Lemma wf_getDetailed env s user q :
  wf_cache (cache s) → wf_cache (cache (getDetailed env s user q).2).
Proof.
  intros Hwf. unfold getDetailed.
  destruct (getFromCache (cache s) (now env) _) as [cached c1] eqn:Hget.
  assert (wf_cache c1) as Hc1.
  { change c1 with (cached, c1).2. rewrite <- Hget. by apply wf_getFromCache. }
  destruct cached as [p|]; simpl; [done|].
  apply wf_setCache; [done|]. split; [apply analytics_key_kind | reflexivity].
Qed.

Lemma wf_handle env s req :
  wf_cache (cache s) → wf_cache (cache (handle env s req).2).
Proof.
  intros Hwf. open_chain.
  unfold createTransaction, updateTransaction, deleteTransaction.
  repeat case_match; simplify_eq; simpl; try done;
    first [ by apply wf_invalidate_for
          | by apply wf_getOverview
          | by apply wf_getDetailed ].
Qed.

Lemma wf_step s s' : step s s' → wf_cache (cache s) → wf_cache (cache s').
Proof.
  intros [env s0 req | s0 ready faulty | s0 us txs] Hwf.
  - by apply wf_handle.
  - exact Hwf.
  - exact Hwf.
Qed.

Lemma wf_reachable s : reachable s → wf_cache (cache s).
Proof.
  induction 1 as [us txs ready faulty | s s' _ IH Hstep].
  - split; intros k e He; simpl in He; by rewrite lookup_empty in He.
  - by apply (wf_step s s').
Qed.

End CacheInvariant.

(** ** Grouping and ordering *)

Section GroupByFacts.
Import Sql Spec.
Context {K : Type} (eqb : K → K → bool).
Hypothesis eqb_spec : ∀ a b, eqb a b = true ↔ a = b.
Implicit Types (k : K) (v : Z * Z) (G rows : list (K * (Z * Z))).

Lemma eqb_same k : eqb k k = true.
Proof using eqb_spec. by apply eqb_spec. Qed.

Lemma eqb_trans_l k k1 k2 : eqb k1 k2 = true → eqb k k1 = eqb k k2.
Proof using eqb_spec. intros ->%eqb_spec. reflexivity. Qed.

(** One more row: its group grows (or opens), the others stay. *)
Lemma group_of_bump k' k v G :
  group_of eqb k' (bump eqb k v G) =
    if eqb k' k
    then Some (match group_of eqb k G with
               | Some w => (w.1 + v.1, w.2 + v.2)
               | None => v
               end)
    else group_of eqb k' G.
Proof using eqb_spec.
  induction G as [|[k0 [a b]] G IH]; simpl.
  - reflexivity.
  - destruct (eqb k k0) eqn:E; simpl.
    + rewrite <- (eqb_trans_l k' k k0 E). destruct (eqb k' k); reflexivity.
    + rewrite IH. destruct (eqb k' k) eqn:E'; [|reflexivity].
      apply eqb_spec in E' as ->. by rewrite E.
Qed.

Lemma keys_bump k' k v G :
  In k' (map fst (bump eqb k v G)) ↔ k' = k ∨ In k' (map fst G).
Proof using eqb_spec.
  induction G as [|[k0 [a b]] G IH]; simpl.
  - split; [intros [<-|[]]; by left | intros [->|[]]; by left].
  - destruct (eqb k k0) eqn:E; simpl.
    + apply eqb_spec in E as ->. intuition congruence.
    + rewrite IH. intuition congruence.
Qed.

Lemma NoDup_bump k v G :
  List.NoDup (map fst G) → List.NoDup (map fst (bump eqb k v G)).
Proof using eqb_spec.
  induction G as [|[k0 [a b]] G IH]; simpl; intros Hnd.
  - constructor; [intros [] | constructor].
  - inversion Hnd as [|? ? Hnotin Hnd']; subst.
    destruct (eqb k k0) eqn:E; simpl.
    + by constructor.
    + constructor; [|by apply IH].
      rewrite keys_bump. intros [-> | Hin]; [|done].
      rewrite eqb_same in E. discriminate.
Qed.

Lemma NoDup_group_by_acc rows G :
  List.NoDup (map fst G) →
  List.NoDup (map fst (foldl (λ groups r, bump eqb r.1 r.2 groups) G rows)).
Proof using eqb_spec.
  revert G. induction rows as [|r rows IH]; intros G Hnd; simpl; [done|].
  apply IH. by apply NoDup_bump.
Qed.

(** The running sums of a group that starts from [o]. *)
Lemma group_of_fold k rows G :
  group_of eqb k (foldl (λ groups r, bump eqb r.1 r.2 groups) G rows) =
  foldl (λ o v, Some (match o with
                      | Some w => (w.1 + v.1, w.2 + v.2)
                      | None => v
                      end))
        (group_of eqb k G) (rows_of eqb k rows).
Proof using eqb_spec.
  revert G. induction rows as [|[k0 v0] rows IH]; intros G; simpl; [done|].
  rewrite IH, group_of_bump. unfold rows_of. simpl.
  destruct (eqb k k0) eqn:E; simpl; [|done].
  apply eqb_spec in E as ->. reflexivity.
Qed.

Lemma fold_from_Some (w : Z * Z) (vs : list (Z * Z)) :
  foldl (λ o v, Some (match o with
                      | Some w => (w.1 + v.1, w.2 + v.2)
                      | None => v
                      end)) (Some w) vs =
  Some (w.1 + total (map fst vs), w.2 + total (map snd vs)).
Proof.
  revert w. induction vs as [|v vs IH]; intros [a b]; simpl.
  - f_equal. f_equal; lia.
  - rewrite IH. simpl. f_equal. f_equal; lia.
Qed.

(** The group of [k] holds the two sums over the rows of key [k]; there
    is no group without a row. *)
Lemma group_of_group_by k rows :
  group_of eqb k (group_by eqb rows) =
  match rows_of eqb k rows with
  | [] => None
  | vs => Some (total (map fst vs), total (map snd vs))
  end.
Proof using eqb_spec.
  unfold group_by. rewrite group_of_fold. simpl.
  destruct (rows_of eqb k rows) as [|v vs]; simpl; [done|].
  rewrite fold_from_Some. destruct v; reflexivity.
Qed.

Lemma NoDup_group_by rows : List.NoDup (map fst (group_by eqb rows)).
Proof using eqb_spec. apply NoDup_group_by_acc. constructor. Qed.

Lemma group_of_In k v G :
  List.NoDup (map fst G) → (In (k, v) G ↔ group_of eqb k G = Some v).
Proof using eqb_spec.
  induction G as [|[k0 v0] G IH]; simpl; intros Hnd.
  - split; [intros [] | discriminate].
  - inversion Hnd as [|? ? Hnotin Hnd']; subst.
    destruct (eqb k k0) eqn:E.
    + apply eqb_spec in E as ->. split.
      * intros [[= ->] | Hin]; [done|].
        exfalso. apply Hnotin. apply in_map_iff. by exists (k0, v).
      * intros [= ->]. by left.
    + rewrite <- (IH Hnd'). split; [|by right].
      intros [[= -> ->] | Hin]; [|done]. rewrite eqb_same in E. discriminate.
Qed.




End GroupByFacts.

Section OrderFacts.
Import Model Sql Spec.

Lemma order_by_Permutation {A} (leb : A → A → bool) (rows : list A) :
  order_by leb rows ≡ₚ rows.
Proof. unfold order_by. apply merge_sort_Permutation. Qed.

(** A total and transitive test orders the whole list. *)
Lemma order_by_sorted {A} (leb : A → A → bool) (rows : list A) :
  (∀ a b, leb a b = true ∨ leb b a = true) →
  (∀ a b c, leb a b = true → leb b c = true → leb a c = true) →
  StronglySorted (λ a b, leb a b = true) (order_by leb rows).
Proof.
  intros Htotal Htrans. unfold order_by.
  assert (Total (λ a b : A, Is_true (leb a b))) as HT.
  { intros a b. destruct (Htotal a b) as [H|H]; rewrite H; simpl; auto. }
  assert (Transitive (λ a b : A, Is_true (leb a b))) as HTr.
  { intros a b c Hab Hbc. apply Is_true_true. apply Is_true_true in Hab, Hbc.
    by apply (Htrans a b c). }
  pose proof (StronglySorted_merge_sort (λ a b : A, Is_true (leb a b)) rows) as Hs.
  apply (StronglySorted_fmap id _ (λ a b, leb a b = true)) in Hs.
  - by rewrite list_fmap_id in Hs.
  - intros x y. apply Is_true_true.
Qed.



(** [ORDER BY date DESC, created_at DESC], spelled out. *)
Lemma newest_first_spec (a b : Transaction) :
  newest_first a b = true ↔
  year (date b) < year (date a) ∨
  (year (date b) = year (date a) ∧
   (month (date b) < month (date a) ∨
    (month (date b) = month (date a) ∧
     (day (date b) < day (date a) ∨
      (day (date b) = day (date a) ∧ created_at b <= created_at a))))).
Proof.
  unfold newest_first, date_eqb, date_leb.
  destruct (date a) as [ya ma da], (date b) as [yb mb db]; simpl.
  destruct (ya =? yb) eqn:Ey, (ma =? mb) eqn:Em, (da =? db) eqn:Ed; simpl;
    rewrite ?orb_true_iff, ?andb_true_iff, ?Z.ltb_lt, ?Z.leb_le, ?Z.eqb_eq;
    rewrite ?Z.eqb_eq, ?Z.eqb_neq in Ey, Em, Ed; lia.
Qed.

Lemma newest_first_total (a b : Transaction) :
  newest_first a b = true ∨ newest_first b a = true.
Proof. rewrite !newest_first_spec. lia. Qed.

Lemma newest_first_trans (a b c : Transaction) :
  newest_first a b = true → newest_first b c = true → newest_first a c = true.
Proof. rewrite !newest_first_spec. lia. Qed.

End OrderFacts.

(** ** The analytics reports *)

Section AnalyticsFacts.
Import Model Api Sql Spec Handlers Analytics.

Lemma string_eqb_spec (a b : string) : String.eqb a b = true ↔ a = b.
Proof. apply String.eqb_eq. Qed.

(** The rows the category query groups, one category at a time. *)
Lemma rows_of_category cat (E : list Transaction) :
  rows_of String.eqb cat (map (λ t, (category t, (amount t, 1))) E) =
  map (λ t, (amount t, 1)) (in_category cat E).
Proof.
  unfold rows_of, in_category. induction E as [|t E IH]; simpl; [done|].
  destruct (String.eqb cat (category t)); simpl; by rewrite IH.
Qed.

Lemma total_ones {A} (l : list A) (f : A → Z) :
  total (map snd (map (λ t, (f t, 1)) l)) = count l.
Proof.
  unfold count. induction l as [|x l IH]; simpl; [done|].
  rewrite IH. simpl length. lia.
Qed.

Lemma total_firsts {A} (l : list A) (f : A → Z) :
  total (map fst (map (λ t, (f t, 1)) l)) = total (map f l).
Proof. induction l as [|x l IH]; simpl; [done|]. by rewrite IH. Qed.

Lemma group_sums (l : list Transaction) :
  match map (λ t, (amount t, 1)) l with
  | [] => None
  | vs => Some (total (map fst vs), total (map snd vs))
  end =
  match l with
  | [] => None
  | _ => Some (total (map amount l), count l)
  end.
Proof.
  destruct l as [|t l]; [done|].
  rewrite <- (total_firsts (t :: l) amount), <- (total_ones (t :: l) amount).
  reflexivity.
Qed.

(** What the category query returns. *)
Lemma category_rows_In today months txs userId cat a n :
  let E := List.filter (expense_in_window today months userId) txs in
  In (cat, (a, n)) (category_rows today months txs userId) ↔
  in_category cat E ≠ [] ∧
  a = total (map amount (in_category cat E)) ∧
  n = count (in_category cat E).
Proof.
  intros E. unfold category_rows. fold E.
  set (G := group_by String.eqb (map (λ t, (category t, (amount t, 1))) E)).
  assert (In (cat, (a, n)) (order_by (λ x y : string * (Z * Z), y.2.1 <=? x.2.1) G)
          ↔ In (cat, (a, n)) G) as ->.
  { rewrite <- !list_elem_of_In. by rewrite order_by_Permutation. }
  rewrite (group_of_In String.eqb string_eqb_spec)
    by apply (NoDup_group_by String.eqb string_eqb_spec).
  unfold G. rewrite (group_of_group_by String.eqb string_eqb_spec).
  rewrite rows_of_category.
  rewrite group_sums. destruct (in_category cat E) as [|t l].
  - split; [discriminate | intros [[] _]; reflexivity].
  - split.
    + intros [= <- <-]. done.
    + intros (_ & -> & ->). done.
Qed.








End AnalyticsFacts.

Section OverviewFacts.
Import Model Api Sql Spec Handlers Analytics.

(** [parseFloat(SUM(...)) || 0] is the plain sum, zero over no row. *)
Lemma or_zero_sum (xs : list Z) :
  JsNum.or_zero (JsNum.parseFloat (Sql.sum xs)) = total xs.
Proof.
  destruct xs as [|x xs]; [done|]. unfold Sql.sum, JsNum.parseFloat, JsNum.or_zero.
  fold (total (x :: xs)). destruct (total (x :: xs) =? 0) eqn:E; [|done].
  apply Z.eqb_eq in E. by rewrite E.
Qed.

Lemma total_case_when (ty : TxType) (f : Transaction → Z) (rows : list Transaction) :
  (∀ t, f t = if TxType_eqb (type t) ty then amount t else 0) →
  total (map f rows) =
  total (map amount (List.filter (λ t, TxType_eqb (type t) ty) rows)).
Proof.
  intros Hf. induction rows as [|t rows IH]; simpl; [done|].
  rewrite Hf, IH. destruct (TxType_eqb (type t) ty); simpl; lia.
Qed.

Lemma filter_filter {A} (f g : A → bool) (l : list A) :
  List.filter g (List.filter f l) = List.filter (λ x, f x && g x) l.
Proof.
  induction l as [|x l IH]; simpl; [done|].
  destruct (f x); simpl; [destruct (g x); by rewrite IH | done].
Qed.

Lemma overviewData_totals today txs userId :
  let o := overviewData today txs userId in
  totalIncome o = total (map amount (of_type income userId txs)) ∧
  totalExpenses o = total (map amount (of_type expense userId txs)) ∧
  transactionCount o = count (List.filter (owned_by userId) txs).
Proof.
  simpl. rewrite !or_zero_sum.
  rewrite (total_case_when income income_of) by done.
  rewrite (total_case_when expense expense_of) by done.
  rewrite !filter_filter. done.
Qed.

Lemma filter_none {A} (f : A → bool) (l : list A) :
  (∀ x, In x l → f x = false) → List.filter f l = [].
Proof.
  induction l as [|x l IH]; simpl; intros H; [done|].
  rewrite (H x) by auto. apply IH. auto.
Qed.

Lemma not_owned (userId : string) (txs : list Transaction) :
  (∀ t, In t txs → user_id t ≠ userId) →
  ∀ t, In t txs → owned_by userId t = false.
Proof. intros H t Hin. unfold owned_by. by apply String.eqb_neq, H. Qed.

(** Nothing owned: every aggregate of the overview is the empty one. *)
Lemma overviewData_empty today txs userId :
  (∀ t, In t txs → user_id t ≠ userId) →
  overviewData today txs userId = mkOverview 0 0 0 0 [].
Proof.
  intros Hnone. unfold overviewData.
  rewrite (filter_none (owned_by userId)) by by apply not_owned.
  rewrite (filter_none (λ t, owned_by userId t && since today 6 t)).
  - reflexivity.
  - intros t Hin. by rewrite (not_owned userId txs Hnone t Hin).
Qed.

(** On a miss the handler answers with what it computes from the store. *)
Lemma getOverview_miss env s user :
  (Cache.getFromCache (cache s) (now env)
     (Cache.getCacheKey "overview" (u_id user) "")).1 = None →
  (getOverview env s user).1 =
  json (BPayload (POverview (overviewData (today env) (transactions s) (u_id user)))).
Proof.
  intros Hmiss. unfold getOverview.
  destruct (Cache.getFromCache _ _ _) as [cached c1]. simpl in Hmiss. by subst.
Qed.

Lemma getDetailed_miss env s user q :
  (Cache.getFromCache (cache s) (now env)
     (Cache.getCacheKey "analytics" (u_id user) (default "12months" q))).1 = None →
  (getDetailed env s user q).1 =
  json (BPayload (PDetailed (detailedData (today env) (transactions s) (u_id user)
                               (default "12months" q)))).
Proof.
  intros Hmiss. unfold getDetailed.
  destruct (Cache.getFromCache _ _ _) as [cached c1]. simpl in Hmiss. by subst.
Qed.

(** Hit or miss, in a well-formed cache the overview balances. *)
Lemma getOverview_wf env s user :
  Inv.wf_cache (cache s) →
  ∃ o, (getOverview env s user).1 = json (BPayload (POverview o)) ∧
       balance o = totalIncome o - totalExpenses o.
Proof.
  intros Hwf. unfold getOverview.
  destruct (Cache.getFromCache _ _ _) as [cached c1] eqn:Hget.
  destruct cached as [p|]; simpl.
  - assert (Inv.wf_payload (Cache.getCacheKey "overview" (u_id user) "") p) as Hp.
    { eapply wf_getFromCache_hit; [done|]. by rewrite Hget. }
    destruct p as [o|d]; simpl in Hp.
    + exists o. by destruct Hp.
    + destruct Hp as [Hp _]. discriminate.
  - eexists. split; [reflexivity|]. reflexivity.
Qed.

Lemma getDetailed_wf env s user q :
  Inv.wf_cache (cache s) →
  ∃ d, (getDetailed env s user q).1 = json (BPayload (PDetailed d)) ∧
       yearlyComparison d = [].
Proof.
  intros Hwf. unfold getDetailed.
  destruct (Cache.getFromCache _ _ _) as [cached c1] eqn:Hget.
  destruct cached as [p|]; simpl.
  - assert (Inv.wf_payload
              (Cache.getCacheKey "analytics" (u_id user) (default "12months" q)) p)
      as Hp.
    { eapply wf_getFromCache_hit; [done|]. by rewrite Hget. }
    destruct p as [o|d]; simpl in Hp.
    + destruct Hp as [Hp _]. discriminate.
    + exists d. by destruct Hp.
  - eexists. split; [reflexivity|]. reflexivity.
Qed.

End OverviewFacts.

(** ** Listing transactions *)

Section ListFacts.
Import Model Api Sql Spec Handlers.

Lemma like_tokens_plain_char (c : ascii) (p : string) :
  Ascii.eqb c "%" = false → Ascii.eqb c "_" = false → Ascii.eqb c "\" = false →
  like_tokens (String c p) = cons (LLit c) <$> like_tokens p.
Proof.
  destruct c as [[] [] [] [] [] [] [] []]; simpl; intros H1 H2 H3;
    try discriminate; reflexivity.
Qed.

Lemma like_tokens_plain (search rest : string) :
  plain search = true →
  like_tokens (search +:+ rest) = app (literal search) <$> like_tokens rest.
Proof.
  induction search as [|c search IH]; intros Hp.
  - change ("" +:+ rest) with rest. by destruct (like_tokens rest).
  - simpl in Hp. apply andb_true_iff in Hp as [Hc Hp].
    apply andb_true_iff in Hc as [Hc H3]. apply andb_true_iff in Hc as [H1 H2].
    apply negb_true_iff in H1, H2, H3.
    change (String c search +:+ rest) with (String c (search +:+ rest)).
    rewrite like_tokens_plain_char by done. rewrite IH by done.
    by destruct (like_tokens rest).
Qed.

(** The pattern the handler builds from a plain search string. *)
Lemma like_tokens_search (search : string) :
  plain search = true →
  like_tokens ("%" +:+ search +:+ "%") =
  Some (LAnySeq :: literal search ++ [LAnySeq]).
Proof.
  intros Hp. change ("%" +:+ search +:+ "%") with (String "%" (search +:+ "%")).
  change (like_tokens (String "%" (search +:+ "%")))
    with (cons LAnySeq <$> like_tokens (search +:+ "%")).
  by rewrite like_tokens_plain.
Qed.

Lemma ilike_any (s : string) : ilike_run [LAnySeq] s = true.
Proof. induction s as [|c s IH]; [done|]. simpl in *. by rewrite IH. Qed.

Lemma ilike_literal (search s : string) :
  ilike_run (literal search ++ [LAnySeq]) s =
  JsString.startsWith (JsString.toLowerCase s) (JsString.toLowerCase search).
Proof.
  revert s. induction search as [|c search IH]; intros s.
  - apply ilike_any.
  - destruct s as [|d s]; [done|]. simpl. rewrite IH.
    by destruct (Ascii.eqb (JsString.lower c) (JsString.lower d)).
Qed.

Lemma ilike_unfold (ts : list LikeTok) (s : string) :
  ilike_run (LAnySeq :: ts) s =
  ilike_run ts s ||
  match s with
  | EmptyString => false
  | String _ s' => ilike_run (LAnySeq :: ts) s'
  end.
Proof. by destruct s. Qed.

(** [x ILIKE '%search%'] is containment when [search] is plain. *)
Lemma ilike_contains (search s : string) :
  ilike_run (LAnySeq :: literal search ++ [LAnySeq]) s = contains_ci s search.
Proof.
  unfold contains_ci. induction s as [|d s IH].
  - rewrite ilike_unfold, ilike_literal. simpl. by rewrite orb_false_r.
  - rewrite ilike_unfold, ilike_literal, IH. reflexivity.
Qed.

Lemma list_where_plain (userId search : string) :
  plain search = true →
  ∃ w, list_where userId search = Ok w ∧ ∀ t, w t = listed userId search t.
Proof.
  intros Hp. unfold list_where, listed.
  destruct (JsString.truthy search) eqn:Ht.
  - rewrite like_tokens_search by done. eexists. split; [reflexivity|].
    intros t. cbv beta. by rewrite !ilike_contains.
  - eexists. split; [reflexivity|]. intros t. simpl. by rewrite andb_true_r.
Qed.

(** [Math.ceil(N / p)] for a positive page size. *)
Lemma ceil_div_spec (N p : Z) :
  1 <= p →
  ∃ n, JsNum.ceil_div N p = JsNum.Num n ∧ (n - 1) * p < N ∧ N <= n * p.
Proof.
  intros Hp. unfold JsNum.ceil_div. destruct (p =? 0) eqn:E; [lia|].
  eexists. split; [reflexivity|].
  pose proof (Z.div_mod (- N) p ltac:(lia)) as Hdm.
  pose proof (Z.mod_pos_bound (- N) p ltac:(lia)) as Hb. nia.
Qed.

End ListFacts.

Section PageFacts.
Import Model Api Sql Spec Handlers.



End PageFacts.

(** ** Writes and the caller's cache entries *)

Section WriteFacts.
Import Model Api Cache Handlers.
Implicit Types (c : Cache.t Payload).

Lemma literal_prefix_starless (userId : string) :
  JsString.starless userId = true →
  JsString.replace_star ("analytics:" +:+ userId) = "analytics:" +:+ userId ∧
  JsString.replace_star ("overview:" +:+ userId) = "overview:" +:+ userId.
Proof.
  intros H. split; apply replace_star_starless; rewrite starless_app, H; reflexivity.
Qed.

Lemma string_app_assoc (a b d : string) : (a +:+ b) +:+ d = a +:+ (b +:+ d).
Proof.
  induction a as [|ch a IH]; [done|].
  change (String ch ((a +:+ b) +:+ d) = String ch (a +:+ b +:+ d)).
  by rewrite IH.
Qed.

(** Every key of a user starts with the pattern the writes invalidate. *)
Lemma getCacheKey_analytics userId timeRange :
  ∃ rest, getCacheKey "analytics" userId timeRange = ("analytics:" +:+ userId) +:+ rest.
Proof.
  exists (if JsString.truthy timeRange then ":" +:+ timeRange else "").
  by rewrite string_app_assoc.
Qed.

Lemma getCacheKey_overview userId :
  getCacheKey "overview" userId "" = ("overview:" +:+ userId) +:+ "".
Proof. by rewrite string_app_assoc. Qed.

(** In the fallback, an invalidation removes every key that includes the
    pattern (less its first [*]). *)
Lemma invalidateCache_memory c now pattern k :
  redis_ready c = false →
  JsString.includes k (JsString.replace_star pattern) = true →
  memoryCache (invalidateCache c now pattern) !! k = None.
Proof.
  intros Hm Hinc. unfold invalidateCache. rewrite Hm. simpl.
  apply map_lookup_filter_None. right. intros e _. simpl. congruence.
Qed.

Lemma invalidateCache_memory_shrinks c now pattern k :
  redis_ready c = false →
  memoryCache c !! k = None →
  memoryCache (invalidateCache c now pattern) !! k = None.
Proof.
  intros Hm Hk. unfold invalidateCache. rewrite Hm. simpl.
  apply map_lookup_filter_None. by left.
Qed.

Lemma invalidateCache_memory_lookup c now pattern k :
  redis_ready c = false →
  memoryCache (invalidateCache c now pattern) !! k =
    if JsString.includes k (JsString.replace_star pattern) then None
    else memoryCache c !! k.
Proof.
  intros Hm. unfold invalidateCache. rewrite Hm. simpl.
  destruct (JsString.includes k (JsString.replace_star pattern)) eqn:Hinc.
  - apply map_lookup_filter_None. right. intros e _. simpl. congruence.
  - destruct (memoryCache c !! k) as [e|] eqn:Hk.
    + by apply map_lookup_filter_Some.
    + apply map_lookup_filter_None. by left.
Qed.

(** In the fallback, what a write removes is decided by the caller's id
    alone: the keys that include one of the caller's two patterns go, every
    other entry stays as it is. *)
Lemma invalidate_for_memory_exact c now userId k :
  redis_ready c = false →
  memoryCache (invalidate_for c now userId) !! k =
    if JsString.includes k (JsString.replace_star ("analytics:" +:+ userId))
       || JsString.includes k (JsString.replace_star ("overview:" +:+ userId))
    then None
    else memoryCache c !! k.
Proof.
  intros Hm. unfold invalidate_for.
  destruct (invalidateCache_flags c now ("analytics:" +:+ userId)) as [Hm' _].
  rewrite Hm in Hm'.
  rewrite invalidateCache_memory_lookup by done.
  rewrite invalidateCache_memory_lookup by done.
  destruct (JsString.includes k (JsString.replace_star ("analytics:" +:+ userId)));
    destruct (JsString.includes k (JsString.replace_star ("overview:" +:+ userId)));
    reflexivity.
Qed.

(** In the fallback, the invalidation of a write empties the caller's
    overview entry and each of the caller's analytics entries, whatever
    the time range (for an id without [*], as every UUID is). *)
Lemma invalidate_for_memory c now userId timeRange :
  redis_ready c = false →
  JsString.starless userId = true →
  memoryCache (invalidate_for c now userId) !! getCacheKey "overview" userId "" = None ∧
  memoryCache (invalidate_for c now userId) !! getCacheKey "analytics" userId timeRange
    = None.
Proof.
  intros Hm Hstar. unfold invalidate_for.
  destruct (literal_prefix_starless userId Hstar) as [Ha Ho].
  destruct (invalidateCache_flags c now ("analytics:" +:+ userId)) as [Hm' _].
  rewrite Hm in Hm'. split.
  - apply invalidateCache_memory; [done|].
    rewrite Ho, getCacheKey_overview. apply includes_app.
  - apply invalidateCache_memory_shrinks; [done|].
    apply invalidateCache_memory; [done|].
    destruct (getCacheKey_analytics userId timeRange) as [rest ->].
    rewrite Ha. apply includes_app.
Qed.

End WriteFacts.

(** ** The ownership check of the writes *)

Section OwnershipFacts.
Import Model Api Auth Handlers Routes.




(** In the fallback, a write that succeeds leaves nothing cached under the
    caller's overview key nor under any of the caller's analytics keys. *)
Lemma write_empties_caller_entries (env : Env) (s : Server) (h : option string)
  (caller : User) (r : Route) (timeRange : string) :
  authenticateToken env (users s) h = Next caller →
  Cache.redis_ready (cache s) = false →
  JsString.starless (u_id caller) = true →
  (∃ b, r = PostTransaction b) ∨ (∃ id b, r = PutTransaction id b) ∨
    (∃ id, r = DeleteTransaction id) →
  status (handle env s (mkRequest h r)).1 = 200 ∨
    status (handle env s (mkRequest h r)).1 = 201 →
  Cache.memoryCache (cache (handle env s (mkRequest h r)).2)
    !! Cache.getCacheKey "overview" (u_id caller) "" = None ∧
  Cache.memoryCache (cache (handle env s (mkRequest h r)).2)
    !! Cache.getCacheKey "analytics" (u_id caller) timeRange = None.
Proof.
  intros Hauth Hm Hstar Hwrite. open_chain. simpl. rewrite Hauth.
  unfold requireRole, createTransaction, updateTransaction, deleteTransaction.
  destruct Hwrite as [[b ->] | [(id & b & ->) | [id ->]]];
    repeat case_match; simplify_eq; simpl; intros [Hst | Hst]; try discriminate;
    by apply invalidate_for_memory.
Qed.

End OwnershipFacts.

(** ** The category breakdown *)

Section BreakdownFacts.
Import Model Api Sql Spec Handlers Analytics.


Lemma breakdown_categories (G : list (string * (Z * Z))) :
  map cr_category (breakdown G) = map fst G.
Proof. unfold breakdown. rewrite map_map. by apply map_ext. Qed.



End BreakdownFacts.

(** ** The window of a time range *)

Section RangeFacts.
Import Model Api Sql Spec Handlers Analytics.






End RangeFacts.

(** * The claims of the specification *)

Section Claims.
Import Model Api Auth Handlers Analytics Routes Spec.

(** C1: every successful write on a transaction owned by U should leave
    no cached analytics of U behind, also when an admin writes.  The
    handlers invalidate the keys of the caller, with patterns that carry
    no wildcard.  Two runs show what is left behind.  In the fallback
    cache, after the admin has updated Alice's rent (200), Alice's next
    overview is the cached one: it reports 1000.00 of expenses while her
    transactions now add up to 1150.00.  With Redis, after Alice has
    updated her own rent (200), her next detailed report is the cached
    one and still shows the old amount. *)
Theorem stale_analytics_after_write :
  (status Demo.admin_put.1 = 200 ∧
   Demo.overview_2.1 = Demo.overview_1.1 ∧
   Demo.expenses_in Demo.overview_2.1 = Some 100000 ∧
   totalExpenses (overviewData (today (Demo.env_at 3000))
                    (transactions Demo.admin_put.2) "u1") = 115000) ∧
  (status Demo.own_put.1 = 200 ∧
   Demo.detailed_2.1 = Demo.detailed_1.1 ∧
   Demo.categories_in Demo.detailed_2.1 =
     [("Bills & Utilities", 80000); ("Food & Dining", 20000)] ∧
   map (λ row, (cr_category row, cr_amount row))
       (categoryBreakdown (detailedData (today (Demo.env_at 3000))
                             (transactions Demo.own_put.2) "u1" "12months")) =
     [("Bills &amp; Utilities", 95000); ("Food & Dining", 20000)]).
Proof. vm_compute. repeat split; reflexivity. Qed.

(** C2, as the code has it: a request without a bearer token is answered
    401, and so is a verified token whose user is no longer in the store;
    a token that [jwt.verify] rejects, its signature invalid or its expiry
    passed, is answered 403; a token that verifies for a stored user
    passes that user on; no authentication failure has another status
    than 401 or 403. *)
Theorem authenticateToken_statuses (env : Env) (us : list User) (h : option string) :
  (falsy (bearer h) = true →
     authenticateToken env us h = Respond (fail 401 "Access token required")) ∧
  (∀ tok, bearer h = Some tok → JsString.truthy tok = true →
     (jwt_verify env tok = JsonWebTokenError ∨ jwt_verify env tok = TokenExpiredError →
        authenticateToken env us h = Respond (fail 403 "Invalid or expired token")) ∧
     (∀ uid, jwt_verify env tok = Decoded uid →
        existsb (λ u, String.eqb (u_id u) uid) us = false →
        authenticateToken env us h = Respond (fail 401 "Invalid token")) ∧
     (∀ uid, jwt_verify env tok = Decoded uid →
        existsb (λ u, String.eqb (u_id u) uid) us = true →
        ∃ u, authenticateToken env us h = Next u ∧ In u us ∧ u_id u = uid)) ∧
  (∀ r, authenticateToken env us h = Respond r → status r = 401 ∨ status r = 403).
Proof.
  split; [|split].
  - intros Hf. unfold authenticateToken. by rewrite Hf.
  - intros tok Hb Ht.
    assert (falsy (bearer h) = false) as Hf by (rewrite Hb; simpl; by rewrite Ht).
    unfold authenticateToken. rewrite Hf, Hb. simpl. repeat split.
    + intros [-> | ->]; reflexivity.
    + intros uid -> Hnone. apply filter_nil_iff in Hnone. by rewrite Hnone.
    + intros uid -> Hsome.
      destruct (List.filter (λ u, String.eqb (u_id u) uid) us) as [|u rest] eqn:Hq.
      * apply filter_nil_iff in Hq. congruence.
      * apply filter_head_In in Hq as [Hin Hid]. apply String.eqb_eq in Hid.
        by exists u.
  - apply authenticateToken_failure.
Qed.

Lemma authenticateToken_statuses_witness :
  authenticateToken (Demo.env_at 0) Demo.accounts None
    = Respond (fail 401 "Access token required") ∧
  authenticateToken (Demo.env_at 0) Demo.accounts (Some "Bearer tok-old")
    = Respond (fail 403 "Invalid or expired token") ∧
  authenticateToken (Demo.env_at 0) Demo.accounts (Some "Bearer tok-gone")
    = Respond (fail 401 "Invalid token").
Proof.
  split; [|split].
  - destruct (authenticateToken_statuses (Demo.env_at 0) Demo.accounts None)
      as (H & _ & _).
    apply H. reflexivity.
  - destruct (authenticateToken_statuses (Demo.env_at 0) Demo.accounts
                (Some "Bearer tok-old")) as (_ & H & _).
    destruct (H "tok-old" eq_refl eq_refl) as (H403 & _ & _).
    apply H403. right. reflexivity.
  - destruct (authenticateToken_statuses (Demo.env_at 0) Demo.accounts
                (Some "Bearer tok-gone")) as (_ & H & _).
    destruct (H "tok-gone" eq_refl eq_refl) as (_ & H401 & _).
    apply (H401 "zz"); reflexivity.
Defined.

(** C2, as stated, fails: an expired token and a forged one are answered
    403, not the 401 of a missing token. *)
Lemma rejected_token_is_not_401 :
  (∃ r, authenticateToken (Demo.env_at 0) Demo.accounts (Some "Bearer tok-old")
          = Respond r ∧
        Demo.verify "tok-old" = TokenExpiredError ∧ status r = 403 ∧ status r ≠ 401) ∧
  (∃ r, authenticateToken (Demo.env_at 0) Demo.accounts (Some "Bearer forged")
          = Respond r ∧
        Demo.verify "forged" = JsonWebTokenError ∧ status r = 403 ∧ status r ≠ 401).
Proof. split; eexists; (split; [reflexivity|]); repeat split; discriminate. Qed.

(** C3, as the code has it: the permission function is total and
    deterministic; with nobody logged in it denies every action; role
    admin permits exactly read, write and admin; role user permits exactly
    read and write; role read-only permits exactly read; every other role
    is denied write and admin but permitted read, as every authenticated
    user is; and on the three actions the role lists of the server's
    routes decide as [hasPermission] does. *)
Theorem hasPermission_table (u : User) (action : string) :
  hasPermission None action = false ∧
  (u_role u = "admin" →
     (hasPermission (Some u) action = true ↔
      action = "read" ∨ action = "write" ∨ action = "admin")) ∧
  (u_role u = "user" →
     (hasPermission (Some u) action = true ↔ action = "read" ∨ action = "write")) ∧
  (u_role u = "read-only" →
     (hasPermission (Some u) action = true ↔ action = "read")) ∧
  (u_role u ≠ "admin" → u_role u ≠ "user" → u_role u ≠ "read-only" →
     (hasPermission (Some u) action = true ↔ action = "read")) ∧
  (action = "read" ∨ action = "write" ∨ action = "admin" →
     server_permits u action = hasPermission (Some u) action).
Proof.
  unfold hasPermission, server_permits, route_roles, requireRole, role_in.
  repeat split; try (intros ->); simpl;
    repeat (match goal with
            | |- context [String.eqb ?a ?b] =>
                destruct (String.eqb_spec a b); subst; simpl
            end);
    try reflexivity; try discriminate; try congruence; try tauto;
    intuition (try discriminate; try congruence).
Qed.

Lemma hasPermission_table_witness :
  (hasPermission (Some Demo.alice) "write" = true ↔ "write" = "read" ∨ "write" = "write") ∧
  (hasPermission (Some Demo.reader) "write" = true ↔ "write" = "read") ∧
  (hasPermission (Some Demo.guest) "admin" = true ↔ "admin" = "read").
Proof.
  split; [|split].
  - destruct (hasPermission_table Demo.alice "write") as (_ & _ & H & _).
    apply H. reflexivity.
  - destruct (hasPermission_table Demo.reader "write") as (_ & _ & _ & H & _).
    apply H. reflexivity.
  - destruct (hasPermission_table Demo.guest "admin") as (_ & _ & _ & _ & H & _).
    apply H; discriminate.
Defined.

(** C3, as stated, fails: a role outside the enumeration is permitted to
    read. *)
Lemma unknown_role_may_read :
  u_role Demo.guest ≠ "admin" ∧ u_role Demo.guest ≠ "user" ∧
  u_role Demo.guest ≠ "read-only" ∧
  hasPermission (Some Demo.guest) "read" = true ∧
  server_permits Demo.guest "read" = true.
Proof. repeat split; try discriminate; reflexivity. Qed.



(** C5 (the code departs from the claim): the list should hold the
    transactions whose description or category contains the search
    string.  The handler splices the string into an [ILIKE] pattern
    without escaping it, so [_] and [%] act as wildcards: Alice's search
    for an underscore returns her three transactions, none of which
    contains one. *)
Theorem underscore_search_lists_everything :
  status Demo.underscore_search.1 = 200 ∧
  Demo.ids_in Demo.underscore_search.1 = ["t3"; "t2"; "t1"] ∧
  List.filter (listed "u1" "_") Demo.ledger = [].
Proof. vm_compute. repeat split; reflexivity. Qed.




(** C7: for every key and value, while the backend in use answers: a read
    within the TTL after a write returns the value written, whatever
    cache traffic came in between, as long as that traffic neither wrote
    the key again nor invalidated a pattern covering it (nor read it
    after its expiry); a read at or after the expiry returns absent; a
    read after an invalidation covering the key returns absent.  When
    the backend fails instead, a read returns absent, a write and an
    invalidation change nothing, none of them raises, and the analytics
    handlers answer 200 with the report computed from the store. *)
Theorem cache_contract (V : Type) (c : Cache.t V) (k : string) (v : V)
  (ttl t0 t1 : Z) (tr : list (Z * Cache.Op V)) (pattern : string) :
  (Cache.backend_ok c = true → t0 <= t1 → t1 < t0 + ttl * 1000 →
   forallb (Cache.spares c k (t0 + ttl * 1000)) tr = true →
     (Cache.getFromCache (Cache.run (Cache.setCache c t0 k v ttl) tr) t1 k).1
     = Some v) ∧
  (Cache.backend_ok c = true → 0 < ttl → t0 + ttl * 1000 <= t1 →
   forallb (Cache.not_set k) tr = true →
     (Cache.getFromCache (Cache.run (Cache.setCache c t0 k v ttl) tr) t1 k).1
     = None) ∧
  (Cache.backend_ok c = true → Cache.covers c pattern k = true → t0 <= t1 →
   forallb (Cache.not_set k) tr = true →
     (Cache.getFromCache (Cache.run (Cache.invalidateCache c t0 pattern) tr) t1 k).1
     = None) ∧
  (Cache.backend_ok c = false →
     Cache.getFromCache c t1 k = (None, c) ∧
     Cache.setCache c t0 k v ttl = c ∧
     Cache.invalidateCache c t0 pattern = c) ∧
  (∀ env s user q,
     Cache.backend_ok (cache s) = false →
     getOverview env s user =
       (json (BPayload (POverview
                (overviewData (today env) (transactions s) (u_id user)))), s) ∧
     getDetailed env s user q =
       (json (BPayload (PDetailed
                (detailedData (today env) (transactions s) (u_id user)
                              (default "12months" q)))), s)).
Proof.
  split; [|split; [|split; [|split]]].
  - intros Hok Hle Hlt Hall.
    assert (0 < ttl) as Httl by lia.
    pose proof (setCache_flags c t0 k v ttl) as [Hr Hf].
    assert (Cache.backend_ok (Cache.setCache c t0 k v ttl) = true) as Hok'
      by (unfold Cache.backend_ok; by rewrite Hr, Hf).
    assert (Cache.live (Cache.run (Cache.setCache c t0 k v ttl) tr) k
            = Some (Cache.mkEntry v (t0 + ttl * 1000))) as Hlive.
    { apply (run_spares _ c); try done. by apply setCache_live. }
    rewrite getFromCache_live by by rewrite run_backend_ok.
    rewrite Hlive. simpl. destruct (t1 <? t0 + ttl * 1000) eqn:E; [done|lia].
  - intros Hok Httl Hle Hall.
    pose proof (setCache_flags c t0 k v ttl) as [Hr Hf].
    assert (Cache.backend_ok (Cache.setCache c t0 k v ttl) = true) as Hok'
      by (unfold Cache.backend_ok; by rewrite Hr, Hf).
    apply (getFromCache_dead _ _ (t0 + ttl * 1000)); [|apply run_dead_by|];
      try done; [by rewrite run_backend_ok|].
    unfold Cache.dead_by. by rewrite setCache_live.
  - intros Hok Hcov Hle Hall.
    pose proof (invalidateCache_flags c t0 pattern) as [Hr Hf].
    assert (Cache.backend_ok (Cache.invalidateCache c t0 pattern) = true) as Hok'
      by (unfold Cache.backend_ok; by rewrite Hr, Hf).
    apply (getFromCache_dead _ _ t0); [|apply run_dead_by|];
      try done; [by rewrite run_backend_ok|].
    by apply invalidateCache_dead.
  - intros Hbad. unfold Cache.backend_ok in Hbad.
    apply negb_false_iff, andb_true_iff in Hbad as [Hr Hf].
    unfold Cache.getFromCache, Cache.setCache, Cache.invalidateCache,
      Cache.redis_get, Cache.redis_setex, Cache.redis_keys.
    by rewrite Hr, Hf.
  - intros env s user q Hbad. unfold Cache.backend_ok in Hbad.
    apply negb_false_iff, andb_true_iff in Hbad as [Hr Hf].
    unfold getOverview, getDetailed, Cache.getFromCache, Cache.setCache,
      Cache.redis_get, Cache.redis_setex.
    rewrite Hr, Hf. simpl. rewrite Hr, Hf. by destruct s.
Qed.

Lemma cache_contract_witness :
  (Cache.getFromCache
     (Cache.run (Cache.setCache Demo.numbers 0 "k" 7%nat 900)
        [(10, Cache.OpGet "k"); (20, Cache.OpSet "j" 1%nat 900);
         (30, Cache.OpInvalidate "j")]) 1000 "k").1 = Some 7%nat ∧
  (Cache.getFromCache
     (Cache.run (Cache.setCache Demo.numbers 0 "k" 7%nat 900) []) 900000 "k").1
    = None ∧
  (Cache.getFromCache
     (Cache.run (Cache.invalidateCache
                   (Cache.setCache Demo.numbers 0 "k" 7%nat 900) 5 "k") [])
     10 "k").1 = None ∧
  Cache.getFromCache Demo.numbers_faulty 0 "k" = (None, Demo.numbers_faulty).
Proof.
  split; [|split; [|split]].
  - destruct (cache_contract nat Demo.numbers "k" 7%nat 900 0 1000
                [(10, Cache.OpGet "k"); (20, Cache.OpSet "j" 1%nat 900);
                 (30, Cache.OpInvalidate "j")] "k") as (H & _).
    apply H; [reflexivity | lia | lia | reflexivity].
  - destruct (cache_contract nat Demo.numbers "k" 7%nat 900 0 900000 [] "k")
      as (_ & H & _).
    apply H; [reflexivity | lia | lia | reflexivity].
  - destruct (cache_contract nat (Cache.setCache Demo.numbers 0 "k" 7%nat 900)
                "k" 7%nat 900 5 10 [] "k") as (_ & _ & H & _).
    apply H; [reflexivity | reflexivity | lia | reflexivity].
  - destruct (cache_contract nat Demo.numbers_faulty "k" 7%nat 900 0 0 [] "k")
      as (_ & _ & _ & H & _).
    apply H. reflexivity.
Defined.

(** C8: for every user the overview satisfies balance = totalIncome -
    totalExpenses.  Computed from the store, totalIncome is the sum of
    the amounts of the user's income transactions and totalExpenses the
    sum of the amounts of the user's expense transactions; that is what
    the handler answers on a cache miss; and in every state the server
    can reach, hit or miss, the overview it answers balances. *)
Theorem overview_balance :
  (∀ today txs userId,
     let o := overviewData today txs userId in
     balance o = totalIncome o - totalExpenses o ∧
     totalIncome o = total (map amount (of_type income userId txs)) ∧
     totalExpenses o = total (map amount (of_type expense userId txs))) ∧
  (∀ env s user,
     (Cache.getFromCache (cache s) (now env)
        (Cache.getCacheKey "overview" (u_id user) "")).1 = None →
     (getOverview env s user).1 =
     json (BPayload (POverview
             (overviewData (today env) (transactions s) (u_id user))))) ∧
  (∀ env s req,
     reachable s → route req = GetOverview →
     status (handle env s req).1 = 200 →
     ∃ o, body (handle env s req).1 = BPayload (POverview o) ∧
          balance o = totalIncome o - totalExpenses o).
Proof.
  split; [|split].
  - intros today txs userId o. split; [reflexivity|].
    destruct (overviewData_totals today txs userId) as (H1 & H2 & _). done.
  - intros env s user. apply getOverview_miss.
  - intros env s req Hreach Hroute. open_chain. rewrite Hroute.
    destruct (authenticateToken env (users s) (authorization req)) as [user|r] eqn:Ha.
    + destruct (analytics_limit_ok env); [|discriminate].
      intros _. destruct (getOverview_wf env s user (wf_reachable s Hreach))
        as (o & -> & Hbal).
      by exists o.
    + intros Hst. exfalso.
      destruct (authenticateToken_failure _ _ _ r Ha) as [H|H];
        simpl in Hst; rewrite H in Hst; discriminate.
Qed.

Lemma overview_balance_witness :
  ∃ o, body Demo.overview_2.1 = BPayload (POverview o) ∧
       balance o = totalIncome o - totalExpenses o.
Proof.
  destruct overview_balance as (_ & _ & H).
  apply (H (Demo.env_at 3000) Demo.admin_put.2 (Demo.as_ "tok-alice" GetOverview)).
  - eapply reach_step; [|apply step_request].
    eapply reach_step; [|apply step_request].
    apply reach_boot.
  - reflexivity.
  - reflexivity.
Defined.

(** C9: for every user and every time range, the yearlyComparison of the
    detailed analytics is the empty list, whatever the user's
    transactions: so it is computed, and so it is answered, from the
    store or from the cache, in every state the server can reach. *)
Theorem yearly_comparison_empty :
  (∀ today txs userId timeRange,
     yearlyComparison (detailedData today txs userId timeRange) = []) ∧
  (∀ env s req timeRange,
     reachable s → route req = GetDetailed timeRange →
     status (handle env s req).1 = 200 →
     ∃ d, body (handle env s req).1 = BPayload (PDetailed d) ∧
          yearlyComparison d = []).
Proof.
  split; [reflexivity|].
  intros env s req timeRange Hreach Hroute. open_chain. rewrite Hroute.
  destruct (authenticateToken env (users s) (authorization req)) as [user|r] eqn:Ha.
  - destruct (analytics_limit_ok env); [|discriminate].
    intros _.
    destruct (getDetailed_wf env s user timeRange (wf_reachable s Hreach))
      as (d & -> & Hd).
    by exists d.
  - intros Hst. exfalso.
    destruct (authenticateToken_failure _ _ _ r Ha) as [H|H];
      simpl in Hst; rewrite H in Hst; discriminate.
Qed.

Lemma yearly_comparison_empty_witness :
  ∃ d, body Demo.detailed_2.1 = BPayload (PDetailed d) ∧ yearlyComparison d = [].
Proof.
  destruct yearly_comparison_empty as (_ & H).
  apply (H (Demo.env_at 3000) Demo.own_put.2
           (Demo.as_ "tok-alice" (GetDetailed None)) None).
  - eapply reach_step; [|apply step_request].
    eapply reach_step; [|apply step_request].
    apply reach_boot.
  - reflexivity.
  - reflexivity.
Defined.

(** C10: for every user who owns no transactions, the overview computed
    from the store has totalIncome 0, totalExpenses 0, balance 0,
    transactionCount 0 and an empty monthlyTrend (the sums over no row
    are [NULL] and become 0); the handler answers it with status 200 on
    a cache miss, and so does the route for an authenticated caller the
    rate limiter lets through. *)
Theorem overview_without_transactions :
  (∀ today txs userId,
     (∀ t, In t txs → user_id t ≠ userId) →
     overviewData today txs userId = mkOverview 0 0 0 0 []) ∧
  (∀ env s user,
     (∀ t, In t (transactions s) → user_id t ≠ u_id user) →
     (Cache.getFromCache (cache s) (now env)
        (Cache.getCacheKey "overview" (u_id user) "")).1 = None →
     (getOverview env s user).1 =
     json (BPayload (POverview (mkOverview 0 0 0 0 [])))) ∧
  (∀ env s h user,
     authenticateToken env (users s) h = Next user →
     analytics_limit_ok env = true →
     (∀ t, In t (transactions s) → user_id t ≠ u_id user) →
     (Cache.getFromCache (cache s) (now env)
        (Cache.getCacheKey "overview" (u_id user) "")).1 = None →
     (handle env s (mkRequest h GetOverview)).1 =
     json (BPayload (POverview (mkOverview 0 0 0 0 [])))).
Proof.
  split; [|split].
  - apply overviewData_empty.
  - intros env s user Hnone Hmiss.
    rewrite getOverview_miss by done. by rewrite overviewData_empty.
  - intros env s h user Hauth Hlimit Hnone Hmiss.
    open_chain. simpl. rewrite Hauth, Hlimit.
    rewrite getOverview_miss by done. by rewrite overviewData_empty.
Qed.

Lemma overview_without_transactions_witness :
  (handle (Demo.env_at 0) Demo.server0 (Demo.as_ "tok-reader" GetOverview)).1 =
  json (BPayload (POverview (mkOverview 0 0 0 0 []))).
Proof.
  destruct overview_without_transactions as (_ & _ & H).
  apply (H (Demo.env_at 0) Demo.server0 (Some "Bearer tok-reader") Demo.reader).
  - reflexivity.
  - reflexivity.
  - intros t [<- | [<- | [<- | [<- | []]]]]; discriminate.
  - reflexivity.
Defined.

End Claims.

(** * More of the code: helper lemmas *)

(** ** Cache keys *)

Section KeyFacts.
Import Shape Cache.

Lemma string_eqb_same (a : string) : String.eqb a a = true.
Proof. by apply String.eqb_eq. Qed.

Lemma app_empty_r (s : string) : s +:+ "" = s.
Proof. induction s as [|c s IH]; unfold String.append; fold String.append; [done | by f_equal]. Qed.

Lemma app_cancel_l (p a b : string) : p +:+ a = p +:+ b → a = b.
Proof. induction p as [|c p IH]; unfold String.append; fold String.append; [done | intros [= H]; auto]. Qed.

Lemma lacks_split (c : ascii) (a b x y : string) :
  lacks c a = true → lacks c b = true →
  a +:+ String c x = b +:+ String c y → a = b ∧ x = y.
Proof.
  revert b. induction a as [|d a IH]; intros [|e b]; unfold String.append; fold String.append; simpl.
  - intros _ _ [= ->]. done.
  - intros _ He [= <- _]. rewrite ascii_eqb_refl in He. done.
  - intros Hd _ [= -> _]. rewrite ascii_eqb_refl in Hd. done.
  - intros [_ Ha]%andb_prop [_ Hb]%andb_prop [= -> H].
    destruct (IH b Ha Hb H) as [-> ->]. done.
Qed.

Lemma lacks_app_absurd (c : ascii) (a b y : string) :
  lacks c a = true → a = b +:+ String c y → False.
Proof.
  revert a. induction b as [|e b IH]; intros [|d a]; unfold String.append; fold String.append; simpl; try done.
  - intros Hd [= -> _]. rewrite ascii_eqb_refl in Hd. done.
  - intros [_ Ha]%andb_prop [= _ H]. eauto.
Qed.

Lemma getCacheKey_inj (p p' u u' r r' : string) :
  colon_free p = true → colon_free p' = true →
  colon_free u = true → colon_free u' = true →
  getCacheKey p u r = getCacheKey p' u' r' →
  p = p' ∧ u = u' ∧
  (if JsString.truthy r then r else "") = (if JsString.truthy r' then r' else "").
Proof.
  unfold getCacheKey, colon_free. intros Hp Hp' Hu Hu' H.
  change (p +:+ String ":" (u +:+ (if JsString.truthy r then ":" +:+ r else ""))
          = p' +:+ String ":" (u' +:+ (if JsString.truthy r' then ":" +:+ r' else ""))) in H.
  apply lacks_split in H as [-> H]; [|done..]. split; [done|].
  destruct (JsString.truthy r), (JsString.truthy r').
  - change (u +:+ String ":" r = u' +:+ String ":" r') in H.
    apply lacks_split in H as [-> ->]; done.
  - rewrite app_empty_r in H. symmetry in H.
    by apply lacks_app_absurd in H.
  - rewrite app_empty_r in H. by apply lacks_app_absurd in H.
  - rewrite !app_empty_r in H. done.
Qed.

End KeyFacts.

(** ** What the cache helpers leave in the stores *)

Section HoldsFacts.
Import Cache Origin.
Context {V : Type}.
Implicit Types (c : Cache.t V).





End HoldsFacts.

(** ** Every cached report was computed for the key it sits under *)

Section OriginFacts.
Import Model Api Cache Origin Handlers Analytics Routes Trace Auth.
Implicit Types (c : Cache.t Payload) (s : Server).





Lemma handle_users env s req : users (handle env s req).2 = users s.
Proof.
  open_chain.
  unfold createTransaction, updateTransaction, deleteTransaction,
    getOverview, getDetailed.
  repeat case_match; simplify_eq; simpl; auto.
Qed.

Lemma authenticateToken_In env us h u :
  authenticateToken env us h = Next u → In u us.
Proof.
  destruct (authenticateToken_cases env us h)
    as [[_ E] | (tok & _ & _ & [[_ E] | [(uid & _ & _ & E) | (uid & u' & _ & Hin & _ & E)]])];
    rewrite E; try discriminate. by intros [= <-].
Qed.



Lemma serve_snoc s reqs er :
  serve s (reqs ++ [er]) = (handle er.1 (serve s reqs) er.2).2.
Proof. unfold serve. by rewrite foldl_app. Qed.

Lemma serve_users s reqs : users (serve s reqs) = users s.
Proof.
  induction reqs as [|er reqs IH] using rev_ind; [done|].
  by rewrite serve_snoc, handle_users.
Qed.




Lemma overview_key_inj (a b : string) :
  getCacheKey "overview" a "" = getCacheKey "overview" b "" → a = b.
Proof.
  unfold getCacheKey. simpl JsString.truthy. cbv iota.
  intros H%app_cancel_l%app_cancel_l. by rewrite !app_empty_r in H.
Qed.

Lemma key_kinds_differ (a b r : string) :
  getCacheKey "overview" a "" ≠ getCacheKey "analytics" b r.
Proof. unfold getCacheKey. discriminate. Qed.


End OriginFacts.

(** ** Reads, writes and the reports *)

Section ReadFacts.
Import Cache.
Context {V : Type}.
Implicit Types (c : Cache.t V).

Lemma getFromCache_value c now k :
  (getFromCache c now k).1 =
    if redis_ready c && redis_faulty c then None
    else match live c k with
         | Some e => if now <? expires e then Some (data e) else None
         | None => None
         end.
Proof.
  unfold getFromCache, redis_get, live.
  destruct (redis_ready c); simpl; [destruct (redis_faulty c); reflexivity|].
  destruct (memoryCache c !! k) as [e|]; [|reflexivity].
  destruct (now <? expires e); reflexivity.
Qed.

(** The state after a read: the entry read is dropped from the map of
    the fallback when it has run out, and nothing else changes. *)
Lemma getFromCache_live_after c now k k' :
  live (getFromCache c now k).2 k' = live c k' ∨
  (k' = k ∧ live (getFromCache c now k).2 k' = None ∧
   match live c k with Some e => expires e <= now | None => True end).
Proof.
  unfold getFromCache, redis_get, live.
  destruct (redis_ready c) eqn:Hr; simpl.
  - destruct (redis_faulty c); simpl; rewrite Hr; auto.
  - destruct (memoryCache c !! k) as [e|] eqn:E.
    + destruct (now <? expires e) eqn:Hlt; simpl; rewrite Hr; auto.
      destruct (decide (k' = k)) as [->|Hne].
      * right. rewrite lookup_delete_eq. repeat split. lia.
      * left. by rewrite lookup_delete_ne.
    + simpl. rewrite Hr. destruct (decide (k' = k)) as [->|Hne].
      * left. by rewrite lookup_delete_eq.
      * left. by rewrite lookup_delete_ne.
Qed.

End ReadFacts.

Section WriteReadFacts.
Import Model Api Cache Handlers Analytics Routes Auth Columns.
Implicit Types (c : Cache.t Payload) (s : Server).

(** A write that succeeds ends with the invalidation for the caller. *)
Lemma write_cache env s h caller r :
  authenticateToken env (users s) h = Next caller →
  is_write r = true →
  status (handle env s (mkRequest h r)).1 = 200 ∨
    status (handle env s (mkRequest h r)).1 = 201 →
  cache (handle env s (mkRequest h r)).2
  = invalidate_for (cache s) (now env) (u_id caller).
Proof.
  intros Hauth Hw. open_chain. simpl. rewrite Hauth.
  unfold requireRole, createTransaction, updateTransaction, deleteTransaction.
  destruct r; try discriminate;
    repeat case_match; simplify_eq; simpl; intros [Hst | Hst]; try discriminate;
    reflexivity.
Qed.

Lemma handle_getOverview env s h user :
  authenticateToken env (users s) h = Next user →
  analytics_limit_ok env = true →
  handle env s (mkRequest h GetOverview) = getOverview env s user.
Proof. intros Hauth Hl. open_chain. simpl. by rewrite Hauth, Hl. Qed.

Lemma handle_getDetailed env s h user q :
  authenticateToken env (users s) h = Next user →
  analytics_limit_ok env = true →
  handle env s (mkRequest h (GetDetailed q)) = getDetailed env s user q.
Proof. intros Hauth Hl. open_chain. simpl. by rewrite Hauth, Hl. Qed.

Lemma memory_miss c now k :
  redis_ready c = false → memoryCache c !! k = None →
  (getFromCache c now k).1 = None.
Proof.
  intros Hr Hk. rewrite getFromCache_value. unfold live. by rewrite Hr, Hk.
Qed.

Lemma invalidate_for_flags c now userId :
  redis_ready (invalidate_for c now userId) = redis_ready c ∧
  redis_faulty (invalidate_for c now userId) = redis_faulty c.
Proof.
  unfold invalidate_for.
  destruct (invalidateCache_flags (invalidateCache c now ("analytics:" +:+ userId))
              now ("overview:" +:+ userId)) as [-> ->].
  apply invalidateCache_flags.
Qed.

End WriteReadFacts.

Section ReportFacts.
Import Model Api Cache Handlers Analytics Routes Auth Columns Shape Origin Trace.
Implicit Types (c : Cache.t Payload) (s : Server).

Lemma getFromCache_backend_ok {V} (c : Cache.t V) now k :
  backend_ok (getFromCache c now k).2 = backend_ok c.
Proof. unfold backend_ok. by destruct (getFromCache_flags c now k) as [-> ->]. Qed.

Lemma getFromCache_dead_after {V} (c : Cache.t V) now k :
  dead_by c k now → dead_by (getFromCache c now k).2 k now.
Proof.
  unfold dead_by.
  destruct (getFromCache_live_after c now k k) as [-> | (_ & -> & _)]; done.
Qed.

(** A report computed on a miss sits in the backend for the next 900 s. *)
Lemma miss_then_live c now k (p : Payload) :
  backend_ok c = true →
  live (setCache (getFromCache c now k).2 now k p 900) k
  = Some (mkEntry p (now + 900 * 1000)).
Proof.
  intros Hok. apply setCache_live; [|lia]. by rewrite getFromCache_backend_ok.
Qed.

Lemma getOverview_computed env s user :
  backend_ok (cache s) = true →
  dead_by (cache s) (getCacheKey "overview" (u_id user) "") (now env) →
  (getOverview env s user).1 =
    json (BPayload (POverview (overviewData (today env) (transactions s) (u_id user)))) ∧
  live (cache (getOverview env s user).2) (getCacheKey "overview" (u_id user) "") =
    Some (mkEntry (POverview (overviewData (today env) (transactions s) (u_id user)))
                  (now env + 900 * 1000)).
Proof.
  intros Hok Hdead.
  pose proof (getFromCache_dead _ _ _ (now env) Hok Hdead (Z.le_refl _)) as Hmiss.
  pose proof (miss_then_live (cache s) (now env)
                (getCacheKey "overview" (u_id user) "")
                (POverview (overviewData (today env) (transactions s) (u_id user)))
                Hok) as Hlive.
  unfold getOverview.
  destruct (getFromCache (cache s) (now env) _) as [cached c1].
  simpl in Hmiss, Hlive. subst cached. simpl. done.
Qed.

Lemma getDetailed_computed env s user q :
  backend_ok (cache s) = true →
  dead_by (cache s) (getCacheKey "analytics" (u_id user) (default "12months" q))
          (now env) →
  (getDetailed env s user q).1 =
    json (BPayload (PDetailed (detailedData (today env) (transactions s) (u_id user)
                                 (default "12months" q)))) ∧
  live (cache (getDetailed env s user q).2)
       (getCacheKey "analytics" (u_id user) (default "12months" q)) =
    Some (mkEntry (PDetailed (detailedData (today env) (transactions s) (u_id user)
                                (default "12months" q)))
                  (now env + 900 * 1000)).
Proof.
  intros Hok Hdead.
  pose proof (getFromCache_dead _ _ _ (now env) Hok Hdead (Z.le_refl _)) as Hmiss.
  pose proof (miss_then_live (cache s) (now env)
                (getCacheKey "analytics" (u_id user) (default "12months" q))
                (PDetailed (detailedData (today env) (transactions s) (u_id user)
                              (default "12months" q)))
                Hok) as Hlive.
  unfold getDetailed.
  destruct (getFromCache (cache s) (now env) _) as [cached c1].
  simpl in Hmiss, Hlive. subst cached. simpl. done.
Qed.

Lemma getOverview_backend_ok env s user :
  backend_ok (cache (getOverview env s user).2) = backend_ok (cache s).
Proof.
  unfold getOverview.
  destruct (getFromCache (cache s) (now env) _) as [cached c1] eqn:Hget.
  assert (backend_ok c1 = backend_ok (cache s)) as Hc1.
  { change c1 with (cached, c1).2. rewrite <- Hget. apply getFromCache_backend_ok. }
  destruct cached; simpl; [done|]. unfold backend_ok in *.
  by destruct (setCache_flags c1 (now env) (getCacheKey "overview" (u_id user) "")
              (POverview (overviewData (today env) (transactions s) (u_id user))) 900)
    as [-> ->].
Qed.

Lemma getDetailed_backend_ok env s user q :
  backend_ok (cache (getDetailed env s user q).2) = backend_ok (cache s).
Proof.
  unfold getDetailed.
  destruct (getFromCache (cache s) (now env) _) as [cached c1] eqn:Hget.
  assert (backend_ok c1 = backend_ok (cache s)) as Hc1.
  { change c1 with (cached, c1).2. rewrite <- Hget. apply getFromCache_backend_ok. }
  destruct cached; simpl; [done|]. unfold backend_ok in *.
  by destruct (setCache_flags c1 (now env)
                 (getCacheKey "analytics" (u_id user) (default "12months" q))
                 (PDetailed (detailedData (today env) (transactions s) (u_id user)
                               (default "12months" q))) 900)
    as [-> ->].
Qed.

(** A live entry is what the handlers answer, whatever the tables hold. *)
Lemma getOverview_hit env s user e :
  backend_ok (cache s) = true →
  live (cache s) (getCacheKey "overview" (u_id user) "") = Some e →
  now env < expires e →
  (getOverview env s user).1 = json (BPayload (data e)).
Proof.
  intros Hok Hlive Hlt.
  pose proof (getFromCache_live (cache s) (now env)
                (getCacheKey "overview" (u_id user) "") Hok) as Hget.
  rewrite Hlive in Hget. destruct (now env <? expires e) eqn:E; [|lia].
  unfold getOverview.
  destruct (getFromCache (cache s) (now env) _) as [cached c1].
  simpl in Hget. by subst cached.
Qed.

Lemma getDetailed_hit env s user q e :
  backend_ok (cache s) = true →
  live (cache s) (getCacheKey "analytics" (u_id user) (default "12months" q)) = Some e →
  now env < expires e →
  (getDetailed env s user q).1 = json (BPayload (data e)).
Proof.
  intros Hok Hlive Hlt.
  pose proof (getFromCache_live (cache s) (now env)
                (getCacheKey "analytics" (u_id user) (default "12months" q)) Hok)
    as Hget.
  rewrite Hlive in Hget. destruct (now env <? expires e) eqn:E; [|lia].
  unfold getDetailed.
  destruct (getFromCache (cache s) (now env) _) as [cached c1].
  simpl in Hget. by subst cached.
Qed.

End ReportFacts.

(** ** A request as cache traffic *)

Section TrafficFacts.
Import Model Api Cache Handlers Analytics Routes Auth Columns Shape Origin Trace Series.
Implicit Types (c : Cache.t Payload) (s : Server).

(** What a request does to the cache is what its operations do. *)
Lemma handle_cache_run env s req :
  cache (handle env s req).2 = Cache.run (cache s) (cache_ops env s req).
Proof.
  unfold cache_ops. open_chain.
  destruct (authenticateToken env (users s) (authorization req)) as [user|r0];
    [|done].
  remember (role_in writers (u_role user)) as okw eqn:Hrole.
  unfold requireRole. rewrite <- Hrole.
  destruct (route req) as [| | b | id b | id | | q |]; cbv beta iota; try done.
  - destruct (api_limit_ok env); done.
  - destruct okw; [|done]. destruct (api_limit_ok env); [|done].
    destruct (Validate.validate b) as [f|]; [|done].
    unfold createTransaction. destruct (Schema.accepts f); done.
  - destruct okw; [|done]. destruct (api_limit_ok env); [|done].
    destruct (Validate.validate b) as [f|]; [|done].
    unfold updateTransaction. destruct (check_rows s user id); [done|].
    destruct (Schema.accepts f); done.
  - destruct okw; [|done]. destruct (api_limit_ok env); [|done].
    unfold deleteTransaction. destruct (check_rows s user id); done.
  - destruct (analytics_limit_ok env); [|done]. cbv beta iota zeta.
    unfold getOverview, Cache.run. simpl foldl. unfold Cache.step. simpl.
    destruct (getFromCache (cache s) (now env) _) as [[p|] c1]; done.
  - destruct (analytics_limit_ok env); [|done]. cbv beta iota zeta.
    unfold getDetailed, Cache.run. simpl foldl. unfold Cache.step. simpl.
    destruct (getFromCache (cache s) (now env) _) as [[p|] c1]; done.
  - unfold role_in. simpl. destruct (String.eqb (u_role user) "admin"); simpl; [|done].
    destruct (api_limit_ok env); done.
Qed.

Lemma run_flags {V} (c : Cache.t V) (tr : list (Z * Cache.Op V)) :
  redis_ready (Cache.run c tr) = redis_ready c ∧
  redis_faulty (Cache.run c tr) = redis_faulty c.
Proof.
  revert c. induction tr as [|ev tr IH]; intros c; [done|].
  unfold Cache.run in *. simpl. destruct (IH (Cache.step c ev)) as [-> ->].
  apply step_flags.
Qed.

Lemma serve_cons s er reqs :
  serve s (er :: reqs) = serve (handle er.1 s er.2).2 reqs.
Proof. reflexivity. Qed.

(** The operations of a request that spares a live entry spare it. *)
Lemma ops_spare c0 env s req key e :
  redis_ready c0 = redis_ready (cache s) →
  backend_ok (cache s) = true →
  live (cache s) key = Some e →
  Series.spares c0 (users s) key (expires e) (env, req) →
  forallb (Cache.spares c0 key (expires e)) (cache_ops env s req) = true.
Proof.
  intros Hready Hok Hlive [Hnow Hwrite]. simpl in Hnow, Hwrite.
  assert (∀ k v, (getFromCache (cache s) (now env) k).1 = None →
            Cache.spares c0 key (expires e) (now env, OpSet k v 900) = true) as Hset.
  { intros k v Hmiss. unfold Cache.spares. simpl.
    destruct (String.eqb k key) eqn:E; [|done]. apply String.eqb_eq in E. subst k.
    rewrite (getFromCache_live _ _ _ Hok), Hlive in Hmiss.
    destruct (now env <? expires e) eqn:E; [done | lia]. }
  assert (∀ k, Cache.spares c0 key (expires e) (now env, OpGet k) = true) as Hget.
  { intros k. unfold Cache.spares. simpl.
    destruct (now env <? expires e) eqn:E; [by rewrite orb_true_r | lia]. }
  unfold cache_ops.
  destruct (authenticateToken env (users s) (authorization req)) as [user|r0] eqn:Hauth;
    [|done].
  assert (is_write (route req) = true →
          forallb (Cache.spares c0 key (expires e))
            (if status (handle env s req).1 <? 400
             then [(now env, OpInvalidate ("analytics:" +:+ u_id user));
                   (now env, OpInvalidate ("overview:" +:+ u_id user))]
             else []) = true) as Hinv.
  { intros Hw. destruct (Hwrite Hw user eq_refl) as [Ha Ho].
    destruct (_ <? 400); [|done]. unfold Cache.spares. simpl. by rewrite Ha, Ho. }
  destruct (route req) as [| | b | id b | id | | q |]; try done;
    try (by apply Hinv).
  - destruct (analytics_limit_ok env); [|done]. cbv zeta.
    simpl forallb. rewrite Hget. simpl.
    destruct (getFromCache (cache s) (now env) _).1 eqn:Hmiss; [done|].
    simpl. by rewrite Hset.
  - destruct (analytics_limit_ok env); [|done]. cbv zeta.
    simpl forallb. rewrite Hget. simpl.
    destruct (getFromCache (cache s) (now env) _).1 eqn:Hmiss; [done|].
    simpl. by rewrite Hset.
Qed.

(** A live entry outlasts a series of requests that spare it. *)
Lemma serve_spares c0 s reqs key e :
  redis_ready c0 = redis_ready (cache s) →
  backend_ok (cache s) = true →
  live (cache s) key = Some e →
  Forall (Series.spares c0 (users s) key (expires e)) reqs →
  live (cache (serve s reqs)) key = Some e ∧
  backend_ok (cache (serve s reqs)) = true.
Proof.
  revert s. induction reqs as [|[env req] reqs IH]; intros s Hready Hok Hlive Hall;
    [done|].
  inversion Hall as [|? ? Hsp Hrest]; subst. rewrite serve_cons. simpl.
  pose proof (handle_cache_run env s req) as Hrun.
  apply IH.
  - rewrite Hrun. by destruct (run_flags (cache s) (cache_ops env s req)) as [-> _].
  - by rewrite Hrun, run_backend_ok.
  - rewrite Hrun. apply (run_spares _ c0); try done. by apply ops_spare.
  - by rewrite handle_users.
Qed.

(** The keys of a user are not written by the requests of others. *)
Lemma ops_not_set env s req key userId :
  plain_ids (users s) →
  colon_free userId = true →
  key = getCacheKey "overview" userId "" ∨
    (∃ timeRange, key = getCacheKey "analytics" userId timeRange) →
  Series.of_others (users s) userId (env, req) →
  forallb (not_set key) (cache_ops env s req) = true.
Proof.
  intros Hids Hid Hkey Hothers. unfold cache_ops.
  destruct (authenticateToken env (users s) (authorization req)) as [user|r0] eqn:Hauth;
    [|done].
  pose proof (Hothers user Hauth) as Hne.
  pose proof (Hids user (authenticateToken_In _ _ _ _ Hauth)) as Hplain.
  assert (∀ v : Payload,
            not_set key (now env, OpSet (getCacheKey "overview" (u_id user) "") v 900)
            = true) as Hov.
  { intros v. unfold not_set. cbn [snd]. apply negb_true_iff.
    apply String.eqb_neq. intros E.
    destruct Hkey as [-> | [r ->]].
    - by apply overview_key_inj in E.
    - by apply key_kinds_differ in E. }
  assert (∀ r' (v : Payload),
            not_set key
              (now env, OpSet (getCacheKey "analytics" (u_id user) r') v 900)
            = true) as Han.
  { intros r' v. unfold not_set. cbn [snd]. apply negb_true_iff.
    apply String.eqb_neq. intros E.
    destruct Hkey as [-> | [r ->]].
    - symmetry in E. by apply key_kinds_differ in E.
    - by apply getCacheKey_inj in E as (_ & E & _). }
  destruct (route req) as [| | b | id b | id | | q |]; try done.
  - by destruct (_ <? 400).
  - by destruct (_ <? 400).
  - by destruct (_ <? 400).
  - destruct (analytics_limit_ok env); [|done]. cbv zeta. simpl forallb.
    destruct (getFromCache (cache s) (now env) _).1; [done|]. simpl. by rewrite Hov.
  - destruct (analytics_limit_ok env); [|done]. cbv zeta. simpl forallb.
    destruct (getFromCache (cache s) (now env) _).1; [done|]. simpl. by rewrite Han.
Qed.

(** What cannot be read under a key of a user stays so while only others
    are served. *)
Lemma serve_dead s reqs key userId instant :
  backend_ok (cache s) = true →
  plain_ids (users s) →
  colon_free userId = true →
  key = getCacheKey "overview" userId "" ∨
    (∃ timeRange, key = getCacheKey "analytics" userId timeRange) →
  Forall (Series.of_others (users s) userId) reqs →
  dead_by (cache s) key instant →
  dead_by (cache (serve s reqs)) key instant ∧
  backend_ok (cache (serve s reqs)) = true.
Proof.
  revert s. induction reqs as [|[env req] reqs IH];
    intros s Hok Hids Hid Hkey Hall Hdead; [done|].
  inversion Hall as [|? ? Hsp Hrest]; subst. rewrite serve_cons. simpl.
  pose proof (handle_cache_run env s req) as Hrun.
  apply IH; try done.
  - by rewrite Hrun, run_backend_ok.
  - by rewrite handle_users.
  - by rewrite handle_users.
  - rewrite Hrun. apply run_dead_by; try done. by eapply ops_not_set.
Qed.

End TrafficFacts.

(** ** The rows of [transactions] after a request *)

Section TableFacts.
Import Model Api Cache Handlers Analytics Routes Auth Columns Validate.
Implicit Types (s : Server).

(** The rows after a request: the table as it was, or what one of the
    three writes makes of it for a caller who may write. *)
Lemma handle_transactions env s req :
  transactions (handle env s req).2 = transactions s ∨
  ∃ user, authenticateToken env (users s) (authorization req) = Next user ∧
    role_in writers (u_role user) = true ∧
    ((∃ b f, route req = PostTransaction b ∧ validate b = Some f ∧
        Schema.accepts f = true ∧
        transactions (handle env s req).2 =
          transactions s ++
          [mkTx (fresh_id env) (u_id user) (f_type f) (f_amount f) (f_description f)
                (f_category f) (f_date f) (now env) (now env)]) ∨
     (∃ id b f, route req = PutTransaction id b ∧ validate b = Some f ∧
        Schema.accepts f = true ∧
        check_rows s user id ≠ [] ∧
        transactions (handle env s req).2 = update_rows id f (now env) (transactions s)) ∨
     (∃ id, route req = DeleteTransaction id ∧
        check_rows s user id ≠ [] ∧
        transactions (handle env s req).2 =
          List.filter (λ t, negb (String.eqb (tx_id t) id)) (transactions s))).
Proof.
  open_chain.
  unfold requireRole, createTransaction, updateTransaction, deleteTransaction,
    getOverview, getDetailed.
  destruct (authenticateToken env (users s) (authorization req)) as [user|];
    [|by left].
  remember (role_in writers (u_role user)) as okw eqn:Hrole. symmetry in Hrole.
  destruct (route req) as [| | b | id b | id | | |]; simpl;
    try (repeat case_match; simplify_eq; simpl; by left).
  - destruct okw; simpl; [|by left].
    destruct (api_limit_ok env); simpl; [|by left].
    destruct (validate b) as [f|] eqn:Hv; simpl; [|by left].
    destruct (Schema.accepts f) eqn:Hacc; simpl; [|by left].
    right. exists user. repeat split; auto. left. by exists b, f.
  - destruct okw; simpl; [|by left].
    destruct (api_limit_ok env); simpl; [|by left].
    destruct (validate b) as [f|] eqn:Hv; simpl; [|by left].
    destruct (check_rows s user id) as [|t0 rest] eqn:Hc; simpl; [by left|].
    destruct (Schema.accepts f) eqn:Hacc; simpl; [|by left].
    right. exists user. repeat split; auto. right; left. exists id, b, f.
    rewrite Hc. by repeat split.
  - destruct okw; simpl; [|by left].
    destruct (api_limit_ok env); simpl; [|by left].
    destruct (check_rows s user id) as [|t0 rest] eqn:Hc; simpl; [by left|]. simpl.
    right. exists user. repeat split; auto. right; right. exists id.
    rewrite Hc. by repeat split.
Qed.

(** A request that is answered with an error changes nothing. *)
Lemma error_leaves_state env s req :
  400 <= status (handle env s req).1 → (handle env s req).2 = s.
Proof.
  open_chain.
  unfold createTransaction, updateTransaction, deleteTransaction,
    getOverview, getDetailed.
  repeat case_match; simplify_eq; simpl; try done; intros; lia.
Qed.

Lemma NoDup_map_In {A B} (f : A → B) (l : list A) x y :
  List.NoDup (map f l) → In x l → In y l → f x = f y → x = y.
Proof.
  induction l as [|a l IH]; simpl; [done|].
  intros Hnd [->|Hx] [->|Hy] Hf; inversion Hnd as [|? ? Hnotin Hnd']; subst; auto.
  - exfalso. apply Hnotin. rewrite Hf. by apply in_map.
  - exfalso. apply Hnotin. rewrite <- Hf. by apply in_map.
Qed.

Lemma filter_map_keep {A} (f : A → bool) (g : A → A) (l : list A) :
  (∀ x, In x l → f (g x) = f x ∧ (f x = true → g x = x)) →
  List.filter f (map g l) = List.filter f l.
Proof.
  induction l as [|a l IH]; simpl; [done|]. intros H.
  destruct (H a (or_introl eq_refl)) as [Hfg Hg]. rewrite Hfg.
  rewrite IH by (intros x Hx; apply H; by right).
  destruct (f a) eqn:E; [by rewrite Hg|done].
Qed.

Lemma filter_ext_In {A} (f g : A → bool) (l : list A) :
  (∀ x, In x l → f x = g x) → List.filter f l = List.filter g l.
Proof.
  induction l as [|a l IH]; simpl; [done|]. intros H.
  rewrite (H a) by (by left). rewrite IH by (intros x Hx; apply H; by right). done.
Qed.

Lemma check_rows_found s user id :
  check_rows s user id ≠ [] →
  ∃ t, In t (transactions s) ∧ tx_id t = id ∧
       (String.eqb (u_role user) "admin" = false → user_id t = u_id user).
Proof.
  unfold check_rows.
  destruct (List.filter _ (transactions s)) as [|t rest] eqn:E; [done|]. intros _.
  apply filter_head_In in E as [Hin Ht]. exists t. split; [done|].
  apply andb_true_iff in Ht as [Hid Hown]. apply String.eqb_eq in Hid.
  split; [done|]. intros Hrole. rewrite Hrole in Hown. simpl in Hown.
  by apply String.eqb_eq in Hown.
Qed.

Lemma update_rows_ids id f now txs :
  map (λ t, (tx_id t, user_id t, created_at t)) (update_rows id f now txs)
  = map (λ t, (tx_id t, user_id t, created_at t)) txs.
Proof.
  unfold update_rows. rewrite map_map. apply map_ext. intros t.
  by destruct (String.eqb (tx_id t) id).
Qed.

Lemma update_rows_tx_ids id f now txs :
  map tx_id (update_rows id f now txs) = map tx_id txs.
Proof.
  unfold update_rows. rewrite map_map. apply map_ext. intros t.
  by destruct (String.eqb (tx_id t) id).
Qed.

Lemma NoDup_map_filter {A B} (f : A → B) (p : A → bool) (l : list A) :
  List.NoDup (map f l) → List.NoDup (map f (List.filter p l)).
Proof.
  induction l as [|a l IH]; simpl; [done|]. intros Hnd.
  inversion Hnd as [|? ? Hnotin Hnd']; subst.
  destruct (p a); simpl; auto. constructor; auto.
  intros Hin. apply Hnotin. apply in_map_iff in Hin as (x & <- & Hx).
  apply in_map. by apply filter_In in Hx as [Hx _].
Qed.

Lemma NoDup_snoc {A} (l : list A) (x : A) :
  List.NoDup l → ¬ In x l → List.NoDup (l ++ [x]).
Proof.
  induction l as [|a l IH]; simpl; intros Hnd Hx.
  - constructor; [by intros []|constructor].
  - inversion Hnd as [|? ? Hnotin Hnd']; subst. constructor.
    + intros [Hin|[->|[]]]%in_app_or; [done|]. apply Hx. by left.
    + apply IH; [done|]. intros Hin. apply Hx. by right.
Qed.

Lemma validate_amount b f : validate b = Some f → 1 <= f_amount f.
Proof.
  unfold validate. repeat case_match; try discriminate. intros [= <-]. simpl.
  repeat match goal with H : _ && _ = true |- _ => apply andb_true_iff in H as [H ?] end.
  lia.
Qed.

End TableFacts.

(** ** The listing and its pages *)

Section ListingFacts.
Import Model Api Sql Handlers Routes Auth Columns Validate Spec.
Implicit Types (s : Server).





Lemma take_plus {A} (a b : nat) (l : list A) :
  take (a + b) l = take a l ++ take b (drop a l).
Proof.
  revert l. induction a as [|a IH]; intros [|x l]; simpl; try done.
  - by rewrite take_nil.
  - by rewrite IH.
Qed.

Lemma pages_concat {A} (p n : nat) (l : list A) :
  concat (map (λ i, take p (drop (i * p) l)) (seq 0 n)) = take (n * p) l.
Proof.
  induction n as [|n IH]; [done|].
  rewrite seq_S, map_app, concat_app, IH. simpl.
  rewrite app_nil_r, (Nat.add_comm p), take_plus. done.
Qed.

Lemma sorted_perm_eq {A} (R : A → A → Prop) (l1 l2 : list A) :
  (∀ a b, In a l1 → In b l1 → R a b → R b a → a = b) →
  StronglySorted R l1 → StronglySorted R l2 → l1 ≡ₚ l2 → l1 = l2.
Proof.
  revert l2. induction l1 as [|a l1 IH]; intros l2 Hanti H1 H2 Hperm.
  - symmetry. by apply Permutation_nil.
  - destruct l2 as [|b l2]; [by apply Permutation_sym, Permutation_nil_cons in Hperm|].
    apply StronglySorted_inv in H1 as [H1 Ha].
    apply StronglySorted_inv in H2 as [H2 Hb].
    assert (a = b) as <-.
    { assert (In a (b :: l2)) as [->|Hin2]
        by (apply (Permutation_in a Hperm); by left); [done|].
      assert (In b (a :: l1)) as [->|Hin1]
        by (apply (Permutation_in b (Permutation_sym Hperm)); by left); [done|].
      apply Hanti; [by left | by right | |].
      - rewrite List.Forall_forall in Ha. by apply Ha.
      - rewrite List.Forall_forall in Hb. by apply Hb. }
    f_equal. apply IH; [|done|done|by apply Permutation_cons_inv in Hperm].
    intros x y Hx Hy. apply Hanti; by right.
Qed.

Lemma untied_sorted_unique (rows l1 l2 : list Transaction) :
  untied rows →
  l1 ≡ₚ rows → StronglySorted (λ a b, newest_first a b = true) l1 →
  l2 ≡ₚ rows → StronglySorted (λ a b, newest_first a b = true) l2 →
  l1 = l2.
Proof.
  intros Hun Hp1 Hs1 Hp2 Hs2.
  apply (sorted_perm_eq (λ a b, newest_first a b = true)); [|done|done|].
  - intros a b Ha Hb Hab Hba.
    apply (NoDup_map_In (λ t, (date t, created_at t)) rows); [done| | |].
    + by apply (Permutation_in a Hp1).
    + by apply (Permutation_in b Hp1).
    + apply newest_first_spec in Hab, Hba.
      destruct (date a) as [ya ma da], (date b) as [yb mb db]. simpl in *.
      assert (ya = yb ∧ ma = mb ∧ da = db ∧ created_at a = created_at b)
        as (-> & -> & -> & ->) by lia.
      done.
  - by rewrite Hp1, Hp2.
Qed.


End ListingFacts.

(** ** The monthly trend *)

Section MonthFacts.
Import Model Api Sql Spec Handlers Analytics Months.

Lemma key_eqb_spec (a b : Z * Z) : key_eqb a b = true ↔ a = b.
Proof.
  unfold key_eqb. destruct a as [a1 a2], b as [b1 b2]. simpl.
  rewrite andb_true_iff, !Z.eqb_eq. split; [intros [-> ->]; done | intros [= -> ->]; done].
Qed.

Lemma rows_of_month k (rows : list Transaction) :
  rows_of key_eqb k (map (λ t, (month_key t, (income_of t, expense_of t))) rows) =
  map (λ t, (income_of t, expense_of t)) (in_month k rows).
Proof.
  unfold rows_of, in_month. induction rows as [|t rows IH]; simpl; [done|].
  destruct (key_eqb k (month_key t)); simpl; by rewrite IH.
Qed.

Lemma or_zero_Some (z : Z) : JsNum.or_zero (JsNum.parseFloat (Some z)) = z.
Proof. unfold JsNum.or_zero, JsNum.parseFloat. destruct (z =? 0) eqn:E; lia. Qed.


(** The month buckets, before they are turned into the rows of the report. *)
Lemma monthly_rows (rows : list Transaction) :
  monthly rows =
  map (λ g : (Z * Z) * (Z * Z), mkMonthRow g.1 g.2.1 g.2.2)
      (order_by (λ a b : (Z * Z) * (Z * Z), key_leb a.1 b.1)
         (group_by key_eqb
            (map (λ t, (month_key t, (income_of t, expense_of t))) rows))).
Proof.
  unfold monthly. apply map_ext. intros g. by rewrite !or_zero_Some.
Qed.

Lemma month_sums (l : list Transaction) :
  match map (λ t, (income_of t, expense_of t)) l with
  | [] => None
  | vs => Some (total (map fst vs), total (map snd vs))
  end =
  match l with
  | [] => None
  | _ => Some (total (map income_of l), total (map expense_of l))
  end.
Proof.
  destruct l as [|t l]; [done|].
  change (map (λ t, (income_of t, expense_of t)) (t :: l))
    with ((income_of t, expense_of t) :: map (λ t, (income_of t, expense_of t)) l).
  cbv beta iota zeta. rewrite !map_cons, !map_map. reflexivity.
Qed.

Lemma monthly_In (rows : list Transaction) k i e :
  In (mkMonthRow k i e) (monthly rows) ↔
  in_month k rows ≠ [] ∧
  i = total (map income_of (in_month k rows)) ∧
  e = total (map expense_of (in_month k rows)).
Proof.
  rewrite monthly_rows.
  set (G := group_by key_eqb
              (map (λ t, (month_key t, (income_of t, expense_of t))) rows)).
  assert (In (mkMonthRow k i e)
             (map (λ g : (Z * Z) * (Z * Z), mkMonthRow g.1 g.2.1 g.2.2)
                  (order_by (λ a b : (Z * Z) * (Z * Z), key_leb a.1 b.1) G))
          ↔ In (k, (i, e)) G) as ->.
  { rewrite in_map_iff. split.
    - intros ([k' [i' e']] & [= -> -> ->] & Hin).
      rewrite <- list_elem_of_In in *. by rewrite order_by_Permutation in Hin.
    - intros Hin. exists (k, (i, e)). split; [done|].
      rewrite <- list_elem_of_In in *. by rewrite order_by_Permutation. }
  rewrite (group_of_In key_eqb key_eqb_spec)
    by apply (NoDup_group_by key_eqb key_eqb_spec).
  unfold G. rewrite (group_of_group_by key_eqb key_eqb_spec).
  rewrite rows_of_month.
  rewrite month_sums. destruct (in_month k rows) as [|t l].
  - split; [discriminate | intros [[] _]; reflexivity].
  - split.
    + intros [= <- <-]. done.
    + intros (_ & -> & ->). done.
Qed.





End MonthFacts.

(** ** Time windows *)

Section DateFacts.
Import Model Sql.

Lemma date_leb_spec (a b : Date) :
  date_leb a b = true ↔
  year a < year b ∨
  (year a = year b ∧ (month a < month b ∨ (month a = month b ∧ day a <= day b))).
Proof. unfold date_leb. lia. Qed.

Lemma date_leb_trans (a b c : Date) :
  date_leb a b = true → date_leb b c = true → date_leb a c = true.
Proof. rewrite !date_leb_spec. lia. Qed.

(** Going back further gives an earlier date. *)
Lemma minus_months_antitone (d : Date) (m n : Z) :
  m <= n → date_leb (minus_months d n) (minus_months d m) = true.
Proof.
  intros Hmn. destruct (decide (m = n)) as [->|Hne].
  - rewrite date_leb_spec. lia.
  - rewrite date_leb_spec. unfold minus_months. simpl.
    set (A := year d * 12 + (month d - 1)).
    assert (A - n < A - m) as Hlt by lia.
    generalize dependent (A - n). generalize dependent (A - m). intros x y Hlt.
    pose proof (Z.div_mod x 12 ltac:(lia)). pose proof (Z.div_mod y 12 ltac:(lia)).
    pose proof (Z.mod_pos_bound x 12 ltac:(lia)).
    pose proof (Z.mod_pos_bound y 12 ltac:(lia)).
    lia.
Qed.

Lemma since_longer (today : Date) (m n : Z) (t : Transaction) :
  m <= n → since today m t = true → since today n t = true.
Proof.
  unfold since. intros Hmn H. eapply date_leb_trans; [|exact H].
  by apply minus_months_antitone.
Qed.

End DateFacts.

Section WindowFacts.
Import Model Api Sql Spec Handlers Analytics Months.

Lemma filter_nonempty {A} (f : A → bool) (l : list A) :
  List.filter f l ≠ [] ↔ ∃ x, In x l ∧ f x = true.
Proof.
  split.
  - destruct (List.filter f l) as [|x rest] eqn:E; [done|]. intros _.
    exists x. by apply filter_head_In in E.
  - intros (x & Hin & Hx) E.
    assert (In x (List.filter f l)) as Hin' by (by apply filter_In).
    by rewrite E in Hin'.
Qed.

Lemma monthly_months (rows : list Transaction) k :
  In k (map mr_month (monthly rows)) ↔ in_month k rows ≠ [].
Proof.
  rewrite in_map_iff. split.
  - intros ([k' i e] & <- & Hin). by apply monthly_In in Hin as [H _].
  - intros H. eexists (mkMonthRow k _ _). split; [done|]. by apply monthly_In.
Qed.

Lemma category_rows_categories today months txs userId cat :
  In cat (map fst (category_rows today months txs userId)) ↔
  in_category cat (List.filter (expense_in_window today months userId) txs) ≠ [].
Proof.
  rewrite in_map_iff. split.
  - intros ([c [a n]] & <- & Hin). by apply category_rows_In in Hin as [H _].
  - intros H. eexists (cat, (_, _)). split; [done|]. by apply category_rows_In.
Qed.

End WindowFacts.

(** ** The authorization header *)

Section HeaderFacts.
Import JsString Shape Auth.

Lemma rev_app_rev_app (a b c : string) :
  String.rev_app (String.rev_app a b) c = String.rev_app b (a +:+ c).
Proof.
  revert b c. induction a as [|x a IH]; intros b c; [done|].
  simpl. rewrite IH. done.
Qed.

Lemma rev_rev_app (w : string) : String.rev (String.rev_app w "") = w.
Proof. unfold String.rev. rewrite rev_app_rev_app. simpl. apply app_empty_r. Qed.

Lemma split_space_aux_word (cur w rest : string) :
  spaceless w = true →
  split_space_aux cur (w +:+ String " " rest)
  = String.rev (String.rev_app w cur) :: split_space_aux "" rest.
Proof.
  revert cur. induction w as [|c w IH]; intros cur Hw.
  - done.
  - unfold spaceless in Hw. simpl in Hw. apply andb_true_iff in Hw as [Hc Hw].
    apply negb_true_iff in Hc.
    change (String c w +:+ String " " rest) with (String c (w +:+ String " " rest)).
    simpl. rewrite Hc. by rewrite IH.
Qed.

Lemma split_space_aux_last (cur w : string) :
  spaceless w = true →
  split_space_aux cur w = [String.rev (String.rev_app w cur)].
Proof.
  revert cur. induction w as [|c w IH]; intros cur Hw; [done|].
  unfold spaceless in Hw. simpl in Hw. apply andb_true_iff in Hw as [Hc Hw].
  apply negb_true_iff in Hc. simpl. rewrite Hc. by rewrite IH.
Qed.

Lemma bearer_second_word (scheme tok : string) :
  spaceless scheme = true → spaceless tok = true →
  bearer (Some (scheme +:+ " " +:+ tok)) = Some tok ∧
  ∀ rest, bearer (Some (scheme +:+ " " +:+ tok +:+ " " +:+ rest)) = Some tok.
Proof.
  intros Hs Ht. unfold bearer, split_space. split; [|intros rest].
  - assert (truthy (scheme +:+ " " +:+ tok) = true) as -> by (by destruct scheme).
    change (scheme +:+ " " +:+ tok) with (scheme +:+ String " " tok).
    rewrite split_space_aux_word, split_space_aux_last by done. simpl.
    by rewrite rev_rev_app.
  - assert (truthy (scheme +:+ " " +:+ tok +:+ " " +:+ rest) = true) as ->
      by (by destruct scheme).
    change (scheme +:+ " " +:+ tok +:+ " " +:+ rest)
      with (scheme +:+ String " " (tok +:+ String " " rest)).
    rewrite !split_space_aux_word by done. simpl. by rewrite rev_rev_app.
Qed.

Lemma bearer_one_word (h : string) :
  spaceless h = true → falsy (bearer (Some h)) = true.
Proof.
  intros Hh. unfold bearer, split_space. destruct h as [|c h]; [done|].
  cbn [truthy]. cbv iota. by rewrite split_space_aux_last.
Qed.

End HeaderFacts.

(** ** The client *)

Section ClientFacts.
Import Model Api Sql Spec Handlers Routes Auth Columns Client.




Lemma filter_all {A} (f : A → bool) (l : list A) :
  (∀ x, In x l → f x = true) → List.filter f l = l.
Proof.
  induction l as [|a l IH]; simpl; [done|]. intros H.
  rewrite (H a) by (by left). rewrite IH; [done|]. intros x Hx. apply H. by right.
Qed.

Lemma In_take_drop {A} (n m : nat) (l : list A) (x : A) :
  In x (take n (drop m l)) → In x l.
Proof.
  rewrite <- !list_elem_of_In. intros H.
  eapply elem_of_sublist; [|apply (sublist_drop _ m)].
  eapply elem_of_sublist; [exact H|apply sublist_take].
Qed.

Lemma includes_empty (s : string) : JsString.includes s "" = true.
Proof. by destruct s. Qed.

End ClientFacts.

(** ** Registration and login *)

Section AccountFacts.
Import Model Api Auth Accounts Validate.

(** The outcomes of a registration: a refusal that leaves the table
    alone, or a new row of role user at the end of the table. *)
Lemma register_cases lib accounts name email password :
  (∃ st err, register lib accounts name email password = (Refused st err, accounts)) ∨
  ∃ e, normalizeEmail lib email = Some e ∧
    auth_limit_ok lib = true ∧
    isLength 2 50 (trim name) = true ∧ isLength 6 128 password = true ∧
    by_email e accounts = [] ∧
    register lib accounts name email password =
      (Granted 201 "User created successfully"
         (mkUser (gen_random_uuid lib) e (escape (trim name)) "user"
                 (current_timestamp lib))
         (jwt_sign lib (gen_random_uuid lib) e "user"),
       accounts ++
       [mkAccount (mkUser (gen_random_uuid lib) e (escape (trim name)) "user"
                          (current_timestamp lib))
                  (bcrypt_hash lib password)]).
Proof.
  unfold register, limited.
  destruct (auth_limit_ok lib); simpl; [|left; eauto].
  destruct (normalizeEmail lib email) as [e|]; [|left; eauto].
  destruct (isLength 2 50 (trim name)) eqn:Hn; simpl; [|left; eauto].
  destruct (isLength 6 128 password) eqn:Hp; simpl; [|left; eauto].
  destruct (by_email e accounts) eqn:Hb; [|left; eauto].
  destruct (row_fits _); [|left; eauto].
  right. exists e. by repeat split.
Qed.

Lemma by_email_nil e accounts :
  by_email e accounts = [] ↔ ¬ In e (map (λ a, u_email (profile a)) accounts).
Proof.
  unfold by_email. rewrite filter_nil_iff. split.
  - intros Hex (a & <- & Hin)%in_map_iff.
    assert (existsb (λ a0, String.eqb (u_email (profile a0)) (u_email (profile a)))
                    accounts = true) as Ht.
    { apply existsb_exists. exists a. split; [done|]. apply string_eqb_same. }
    congruence.
  - intros Hnot. destruct (existsb _ accounts) eqn:E; [|done]. exfalso.
    apply existsb_exists in E as (a & Hin & Heq). apply String.eqb_eq in Heq.
    apply Hnot. rewrite <- Heq. by apply (in_map (λ a, u_email (profile a))).
Qed.

Lemma by_email_snoc e accounts a :
  by_email e accounts = [] → u_email (profile a) = e →
  by_email e (accounts ++ [a]) = [a].
Proof.
  intros Hnil He. unfold by_email in *. rewrite List.filter_app, Hnil. simpl.
  by rewrite He, string_eqb_same.
Qed.

Lemma isLength_truthy lo hi s :
  (1 <= lo)%nat → isLength lo hi s = true → JsString.truthy s = true.
Proof.
  unfold isLength. intros Hlo [H _]%andb_true_iff. apply Nat.leb_le in H.
  destruct s; [simpl in H; lia | done].
Qed.

End AccountFacts.

(** ** Sanitised text *)

Section EscapeFacts.
Import Model Api Auth Accounts Validate Shape.

Lemma lacks_app (c : ascii) (a b : string) :
  lacks c (a +:+ b) = lacks c a && lacks c b.
Proof.
  induction a as [|d a IH]; simpl; [reflexivity|].
  rewrite IH. apply andb_assoc.
Qed.

Lemma markup_free_app (a b : string) :
  markup_free a = true → markup_free b = true → markup_free (a +:+ b) = true.
Proof.
  unfold markup_free, markup. simpl. rewrite !lacks_app, !andb_true_r.
  rewrite !andb_true_iff. tauto.
Qed.

Lemma escape_markup_free (s : string) : markup_free (escape s) = true.
Proof.
  induction s as [|c s IH]; [done|].
  cbn [escape]. cbv zeta. apply markup_free_app; [|exact IH].
  destruct c as [[] [] [] [] [] [] [] []]; reflexivity.
Qed.

Lemma escape_truthy (s : string) :
  JsString.truthy s = true → JsString.truthy (escape s) = true.
Proof.
  destruct s as [|c s]; [done|]. intros _. cbn [escape]. cbv zeta.
  destruct c as [[] [] [] [] [] [] [] []]; reflexivity.
Qed.

End EscapeFacts.

(** * Further properties of the code *)

Section CacheProperties.
Import Model Api Cache Handlers Analytics Routes Auth Columns Shape Origin Trace.

(** X1: the cache key determines its parts.  For prefixes and user ids
    without a colon, two keys built by [getCacheKey] are equal only if
    prefix, user id and parameters are equal, so no two users and no two
    time ranges share an entry. *)
Theorem cache_keys_are_injective (prefix prefix' userId userId' params params' : string) :
  colon_free prefix = true → colon_free prefix' = true →
  colon_free userId = true → colon_free userId' = true →
  getCacheKey prefix userId params = getCacheKey prefix' userId' params' →
  prefix = prefix' ∧ userId = userId' ∧ params = params'.
Proof.
  intros Hp Hp' Hu Hu' H.
  apply getCacheKey_inj in H as (-> & -> & Hr); try done.
  repeat split. by destruct params, params'.
Qed.

Lemma cache_keys_are_injective_witness :
  "analytics" = "analytics" ∧ "u1" = "u1" ∧ "12months" = "12months".
Proof.
  apply (cache_keys_are_injective "analytics" "analytics" "u1" "u1"
           "12months" "12months"); reflexivity.
Defined.

Lemma demo_plain_ids : plain_ids Demo.accounts.
Proof. intros u Hu. simpl in Hu. intuition subst; reflexivity. Defined.



(** X3: a computed report is repeated for 900 seconds.  With requests
    served one after the other: once a request has computed an overview or
    a detailed report (no live entry under its key before, backend
    answering), a request of the same user for the same report less than
    900 seconds later is answered with that very report, whatever the
    table holds by then, provided every request served in between is
    served within those 900 seconds and none of them is a write by a
    caller whose invalidation covers the key (as the user's own writes
    do). *)
Theorem computed_report_is_repeated env1 s h1 user1 reqs env2 h2 user2 :
  backend_ok (cache s) = true →
  authenticateToken env1 (users s) h1 = Next user1 →
  analytics_limit_ok env1 = true →
  authenticateToken env2 (users s) h2 = Next user2 →
  u_id user2 = u_id user1 →
  analytics_limit_ok env2 = true →
  now env2 < now env1 + 900 * 1000 →
  (dead_by (cache s) (getCacheKey "overview" (u_id user1) "") (now env1) →
   Forall (Series.spares (cache s) (users s)
             (getCacheKey "overview" (u_id user1) "") (now env1 + 900 * 1000))
          reqs →
   (handle env2
      (serve (handle env1 s (mkRequest h1 GetOverview)).2 reqs)
      (mkRequest h2 GetOverview)).1
   = json (BPayload (POverview
             (overviewData (today env1) (transactions s) (u_id user1))))) ∧
  (∀ q,
   dead_by (cache s) (getCacheKey "analytics" (u_id user1) (default "12months" q))
           (now env1) →
   Forall (Series.spares (cache s) (users s)
             (getCacheKey "analytics" (u_id user1) (default "12months" q))
             (now env1 + 900 * 1000))
          reqs →
   (handle env2
      (serve (handle env1 s (mkRequest h1 (GetDetailed q))).2 reqs)
      (mkRequest h2 (GetDetailed q))).1
   = json (BPayload (PDetailed
             (detailedData (today env1) (transactions s) (u_id user1)
                           (default "12months" q))))).
Proof.
  intros Hok Hauth1 Hlim1 Hauth2 Hid Hlim2 Hlt.
  split; [|intros q]; intros Hdead Hall.
  - set (s1 := (handle env1 s (mkRequest h1 GetOverview)).2).
    assert (users s1 = users s) as Hus by apply handle_users.
    assert (s1 = (getOverview env1 s user1).2) as Hs1
      by (unfold s1; by rewrite (handle_getOverview env1 s h1 user1)).
    destruct (getOverview_computed env1 s user1 Hok Hdead) as [_ Hlive].
    rewrite <- Hs1 in Hlive.
    assert (backend_ok (cache s1) = true) as Hok1
      by (by rewrite Hs1, getOverview_backend_ok).
    assert (redis_ready (cache s) = redis_ready (cache s1)) as Hready.
    { unfold s1. rewrite handle_cache_run.
      by destruct (run_flags (cache s) (Series.cache_ops env1 s (mkRequest h1 GetOverview)))
        as [-> _]. }
    rewrite <- Hus in Hall.
    destruct (serve_spares (cache s) s1 reqs _ _ Hready Hok1 Hlive Hall)
      as [Hlive' Hok'].
    rewrite (handle_getOverview env2 _ h2 user2);
      [|by rewrite serve_users, Hus | done].
    rewrite <- Hid in Hlive' |- *.
    rewrite (getOverview_hit env2 _ user2 _ Hok' Hlive'); [done | simpl; lia].
  - set (s1 := (handle env1 s (mkRequest h1 (GetDetailed q))).2).
    assert (users s1 = users s) as Hus by apply handle_users.
    assert (s1 = (getDetailed env1 s user1 q).2) as Hs1
      by (unfold s1; by rewrite (handle_getDetailed env1 s h1 user1)).
    destruct (getDetailed_computed env1 s user1 q Hok Hdead) as [_ Hlive].
    rewrite <- Hs1 in Hlive.
    assert (backend_ok (cache s1) = true) as Hok1
      by (by rewrite Hs1, getDetailed_backend_ok).
    assert (redis_ready (cache s) = redis_ready (cache s1)) as Hready.
    { unfold s1. rewrite handle_cache_run.
      by destruct (run_flags (cache s)
                     (Series.cache_ops env1 s (mkRequest h1 (GetDetailed q))))
        as [-> _]. }
    rewrite <- Hus in Hall.
    destruct (serve_spares (cache s) s1 reqs _ _ Hready Hok1 Hlive Hall)
      as [Hlive' Hok'].
    rewrite (handle_getDetailed env2 _ h2 user2);
      [|by rewrite serve_users, Hus | done].
    rewrite <- Hid in Hlive' |- *.
    rewrite (getDetailed_hit env2 _ user2 q _ Hok' Hlive'); [done | simpl; lia].
Qed.

Lemma computed_report_is_repeated_witness :
  (handle (Demo.env_at 3000)
     (serve (handle (Demo.env_at 1000) Demo.server0
               (Demo.as_ "tok-alice" GetOverview)).2
            Demo.others_at_work)
     (Demo.as_ "tok-alice" GetOverview)).1
  = json (BPayload (POverview
            (overviewData (today (Demo.env_at 1000)) Demo.ledger "u1"))).
Proof.
  destruct (computed_report_is_repeated (Demo.env_at 1000) Demo.server0
              (Some "Bearer tok-alice") Demo.alice Demo.others_at_work
              (Demo.env_at 3000) (Some "Bearer tok-alice") Demo.alice
              eq_refl eq_refl eq_refl eq_refl eq_refl eq_refl eq_refl) as [H _].
  apply H; [exact I|].
  unfold Demo.others_at_work.
  constructor; [|constructor; [|constructor; [|constructor]]];
    (split; [simpl; lia | intros _ w [= <-]; split; reflexivity]).
Defined.

(** X4: with the in-memory fallback a user reads their own writes.  With
    requests served one after the other, account ids free of colons and a
    caller's id free of stars: after a POST, PUT or DELETE of the caller
    that succeeded, and whatever requests of other users are served in
    between, the caller's next overview and next detailed report of any
    range are computed from the table as it is then. *)
Theorem own_write_refreshes_reports env s h caller r reqs env2 h2 caller2 :
  authenticateToken env (users s) h = Next caller →
  redis_ready (cache s) = false →
  plain_ids (users s) →
  JsString.starless (u_id caller) = true →
  is_write r = true →
  status (handle env s (mkRequest h r)).1 = 200 ∨
    status (handle env s (mkRequest h r)).1 = 201 →
  Forall (Series.of_others (users s) (u_id caller)) reqs →
  authenticateToken env2 (users s) h2 = Next caller2 →
  u_id caller2 = u_id caller →
  analytics_limit_ok env2 = true →
  (handle env2 (serve (handle env s (mkRequest h r)).2 reqs)
          (mkRequest h2 GetOverview)).1
  = json (BPayload (POverview
            (overviewData (today env2)
               (transactions (serve (handle env s (mkRequest h r)).2 reqs))
               (u_id caller)))) ∧
  ∀ q,
  (handle env2 (serve (handle env s (mkRequest h r)).2 reqs)
          (mkRequest h2 (GetDetailed q))).1
  = json (BPayload (PDetailed
            (detailedData (today env2)
               (transactions (serve (handle env s (mkRequest h r)).2 reqs))
               (u_id caller) (default "12months" q)))).
Proof.
  intros Hauth Hm Hids Hstar Hw Hst Hall Hauth2 Hid Hlim2.
  pose proof (write_cache env s h caller r Hauth Hw Hst) as Hcache.
  set (s' := (handle env s (mkRequest h r)).2) in *.
  assert (users s' = users s) as Hus by apply handle_users.
  assert (redis_ready (cache s') = false) as Hm'.
  { rewrite Hcache. by destruct (invalidate_for_flags (cache s) (now env) (u_id caller))
      as [-> _]. }
  assert (backend_ok (cache s') = true) as Hok by (unfold backend_ok; by rewrite Hm').
  assert (colon_free (u_id caller) = true) as Hplain
    by (apply Hids; by eapply authenticateToken_In).
  assert (∀ key,
            key = getCacheKey "overview" (u_id caller) "" ∨
              (∃ timeRange, key = getCacheKey "analytics" (u_id caller) timeRange) →
            (getFromCache (cache (serve s' reqs)) (now env2) key).1 = None) as Hmiss.
  { intros key Hkey.
    assert (dead_by (cache s') key (now env2)) as Hdead.
    { unfold dead_by, live. rewrite Hm', Hcache.
      destruct Hkey as [-> | [timeRange ->]].
      - by rewrite (proj1 (invalidate_for_memory _ _ _ "" Hm Hstar)).
      - by rewrite (proj2 (invalidate_for_memory _ _ _ timeRange Hm Hstar)). }
    rewrite <- Hus in Hall, Hids.
    destruct (serve_dead s' reqs key (u_id caller) (now env2) Hok Hids Hplain Hkey
                Hall Hdead) as [Hdead' Hok'].
    by apply (getFromCache_dead _ _ (now env2)). }
  split; [|intros q].
  - rewrite (handle_getOverview env2 _ h2 caller2);
      [|by rewrite serve_users, Hus | done].
    rewrite getOverview_miss; rewrite Hid; [done|]. apply Hmiss. by left.
  - rewrite (handle_getDetailed env2 _ h2 caller2);
      [|by rewrite serve_users, Hus | done].
    rewrite getDetailed_miss; rewrite Hid; [done|]. apply Hmiss. right. by eexists.
Qed.

Lemma own_write_refreshes_reports_witness :
  (handle (Demo.env_at 4000)
     (serve (handle (Demo.env_at 1000) Demo.server0
               (Demo.as_ "tok-alice" (PutTransaction "t2" Demo.new_rent))).2
            Demo.others_at_work)
     (Demo.as_ "tok-alice" GetOverview)).1
  = json (BPayload (POverview
            (overviewData (today (Demo.env_at 4000))
               (transactions
                  (serve (handle (Demo.env_at 1000) Demo.server0
                            (Demo.as_ "tok-alice" (PutTransaction "t2" Demo.new_rent))).2
                         Demo.others_at_work))
               "u1"))).
Proof.
  assert (Forall (Series.of_others (users Demo.server0) "u1") Demo.others_at_work)
    as Hothers.
  { unfold Demo.others_at_work.
    constructor; [|constructor; [|constructor; [|constructor]]];
      intros w [= <-]; discriminate. }
  destruct (own_write_refreshes_reports (Demo.env_at 1000) Demo.server0
              (Some "Bearer tok-alice") Demo.alice (PutTransaction "t2" Demo.new_rent)
              Demo.others_at_work
              (Demo.env_at 4000) (Some "Bearer tok-alice") Demo.alice
              eq_refl eq_refl demo_plain_ids eq_refl eq_refl (or_introl eq_refl)
              Hothers eq_refl eq_refl eq_refl)
    as [H _].
  exact H.
Defined.

(** X6: the lazy expiry of [getFromCache] cannot be observed.  When the
    clock does not go back, a read (which may drop an entry that has run
    out) never changes what a later read of any key returns. *)
Theorem expiry_on_read_is_unobservable {V} (c : Cache.t V) (t1 t2 : Z) (k1 k2 : string) :
  t1 <= t2 →
  (getFromCache (getFromCache c t1 k1).2 t2 k2).1 = (getFromCache c t2 k2).1.
Proof.
  intros Ht. rewrite !getFromCache_value.
  destruct (getFromCache_flags c t1 k1) as [-> ->].
  destruct (redis_ready c && redis_faulty c); [done|].
  destruct (getFromCache_live_after c t1 k1 k2) as [-> | (-> & -> & Hold)]; [done|].
  destruct (live c k1) as [e|]; [|done].
  destruct (t2 <? expires e) eqn:E; [lia | done].
Qed.

Lemma expiry_on_read_is_unobservable_witness :
  (getFromCache (getFromCache (setCache Demo.numbers 0 "k" 7%nat 1) 1000 "k").2
                2000 "k").1
  = (getFromCache (setCache Demo.numbers 0 "k" 7%nat 1) 2000 "k").1.
Proof. apply expiry_on_read_is_unobservable. lia. Defined.

(** X7: what a request leaves alone.  A request answered with a status of
    400 or more changes nothing of the server state; a request on a route
    other than POST, PUT and DELETE leaves the transactions as they are; no
    route changes the accounts; GET /auth/me, GET /transactions and GET
    /users change nothing at all. *)
Theorem errors_and_reads_change_nothing env s req :
  (400 <= status (handle env s req).1 → (handle env s req).2 = s) ∧
  (is_write (route req) = false →
   transactions (handle env s req).2 = transactions s) ∧
  users (handle env s req).2 = users s ∧
  match route req with
  | GetMe | GetTransactions _ _ _ | GetUsers => (handle env s req).2 = s
  | _ => True
  end.
Proof.
  split; [apply error_leaves_state|split; [|split; [apply handle_users|]]].
  - open_chain.
    unfold createTransaction, updateTransaction, deleteTransaction,
      getOverview, getDetailed.
    repeat case_match; simplify_eq; simpl; try done.
  - open_chain. repeat case_match; simplify_eq; simpl; done.
Qed.

End CacheProperties.

Section TableProperties.
Import Model Api Sql Spec Handlers Routes Auth Columns Validate.

Lemma demo_primary_key : primary_key Demo.ledger.
Proof.
  unfold primary_key. simpl. repeat constructor; simpl; intuition discriminate.
Defined.

(** X8: a caller who is not an admin cannot touch the rows of others.  With
    ids unique in the table, whatever request such a caller sends, the rows
    owned by other users are afterwards exactly what they were, in the same
    order. *)
Theorem others_rows_are_untouched env s req user :
  primary_key (transactions s) →
  authenticateToken env (users s) (authorization req) = Next user →
  String.eqb (u_role user) "admin" = false →
  List.filter (λ t, negb (owned_by (u_id user) t)) (transactions (handle env s req).2)
  = List.filter (λ t, negb (owned_by (u_id user) t)) (transactions s).
Proof.
  intros Hpk Hauth Hrole.
  destruct (handle_transactions env s req)
    as [-> | (user' & Hauth' & _ & [(b & f & _ & _ & _ & ->)
                                   | [(id & b & f & _ & _ & _ & Hc & ->)
                                     | (id & _ & Hc & ->)]])]; [done|..];
    rewrite Hauth in Hauth'; injection Hauth' as <-.
  - rewrite List.filter_app. simpl. unfold owned_by at 2. simpl.
    rewrite string_eqb_same. simpl. apply app_nil_r.
  - apply check_rows_found in Hc as (t0 & Hin0 & Hid0 & Hown0).
    specialize (Hown0 Hrole). unfold update_rows. apply filter_map_keep.
    intros t Hin. destruct (String.eqb (tx_id t) id) eqn:E; [|done].
    apply String.eqb_eq in E.
    assert (t = t0) as -> by (eapply NoDup_map_In; eauto; congruence).
    split; [done|]. unfold owned_by. rewrite Hown0, string_eqb_same. done.
  - apply check_rows_found in Hc as (t0 & Hin0 & Hid0 & Hown0).
    specialize (Hown0 Hrole). rewrite filter_filter. apply filter_ext_In.
    intros t Hin. destruct (String.eqb (tx_id t) id) eqn:E; [|done].
    apply String.eqb_eq in E.
    assert (t = t0) as -> by (eapply NoDup_map_In; eauto; congruence).
    unfold owned_by. rewrite Hown0, string_eqb_same. done.
Qed.

Lemma others_rows_are_untouched_witness :
  List.filter (λ t, negb (owned_by "u1" t))
    (transactions (handle (Demo.env_at 0) Demo.server0
                     (Demo.as_ "tok-alice" (DeleteTransaction "t2"))).2)
  = List.filter (λ t, negb (owned_by "u1" t)) Demo.ledger.
Proof.
  apply (others_rows_are_untouched (Demo.env_at 0) Demo.server0
           (Demo.as_ "tok-alice" (DeleteTransaction "t2")) Demo.alice
           demo_primary_key eq_refl eq_refl).
Defined.

Lemma demo_amounts_positive : amounts_positive Demo.ledger.
Proof. intros t Ht. simpl in Ht. intuition subst; simpl; lia. Defined.

(** X9: the constraints of the table survive every request.  If the ids are
    unique, every amount is at least one cent and the next UUID is not yet
    in the table, the same holds after any request. *)
Theorem table_constraints_are_kept env s req :
  primary_key (transactions s) →
  amounts_positive (transactions s) →
  ¬ In (fresh_id env) (map tx_id (transactions s)) →
  primary_key (transactions (handle env s req).2) ∧
  amounts_positive (transactions (handle env s req).2).
Proof.
  intros Hpk Hpos Hfresh. unfold primary_key, amounts_positive in *.
  destruct (handle_transactions env s req)
    as [-> | (user' & _ & _ & [(b & f & _ & Hv & _ & ->)
                              | [(id & b & f & _ & Hv & _ & _ & ->)
                                | (id & _ & _ & ->)]])]; [done|..].
  - split.
    + rewrite map_app. simpl. by apply NoDup_snoc.
    + intros t [Hin|[<-|[]]]%in_app_or; [by apply Hpos|]. simpl.
      by eapply validate_amount.
  - split.
    + by rewrite update_rows_tx_ids.
    + unfold update_rows. intros t (t0 & <- & Hin)%in_map_iff.
      destruct (String.eqb (tx_id t0) id); [|by apply Hpos]. simpl.
      by eapply validate_amount.
  - split.
    + by apply NoDup_map_filter.
    + intros t [Hin _]%filter_In. by apply Hpos.
Qed.

Lemma table_constraints_are_kept_witness :
  primary_key (transactions (handle (Demo.env_at 0) Demo.server0
                 (Demo.as_ "tok-alice" (PostTransaction Demo.new_rent))).2) ∧
  amounts_positive (transactions (handle (Demo.env_at 0) Demo.server0
                      (Demo.as_ "tok-alice" (PostTransaction Demo.new_rent))).2).
Proof.
  apply (table_constraints_are_kept (Demo.env_at 0) Demo.server0
           (Demo.as_ "tok-alice" (PostTransaction Demo.new_rent))
           demo_primary_key demo_amounts_positive).
  simpl. intuition discriminate.
Defined.

(** X10: an update keeps the identity of the rows.  After PUT
    /api/transactions/:id, answered whichever way, the table holds the same
    rows by id, owner and creation time in the same order, and every row of
    another id is unchanged. *)
Theorem update_keeps_identity env s h id b :
  map (λ t, (tx_id t, user_id t, created_at t))
      (transactions (handle env s (mkRequest h (PutTransaction id b))).2)
  = map (λ t, (tx_id t, user_id t, created_at t)) (transactions s) ∧
  List.filter (λ t, negb (String.eqb (tx_id t) id))
      (transactions (handle env s (mkRequest h (PutTransaction id b))).2)
  = List.filter (λ t, negb (String.eqb (tx_id t) id)) (transactions s).
Proof.
  destruct (handle_transactions env s (mkRequest h (PutTransaction id b)))
    as [-> | (user' & _ & _ & [(b' & f & Hr & _)
                              | [(id' & b' & f & Hr & _ & _ & _ & ->)
                                | (id' & Hr & _)]])]; [done|..];
    simpl in Hr; try discriminate. injection Hr as <- <-.
  split; [apply update_rows_ids|]. unfold update_rows. apply filter_map_keep.
  intros t _. destruct (String.eqb (tx_id t) id) eqn:E; simpl; rewrite E; done.
Qed.





(** X13: the pages partition the listing.  When no two of the matching
    rows of the user tie on (date, created_at), the sort key (PostgreSQL
    leaves the order of ties open, query by query), for a page size of at
    least 1 and a page size and a number of rows that a JavaScript number
    holds exactly, the rows of the pages 1 to totalPages, one after the
    other, are the matching rows from newest to oldest, the one
    arrangement of them that is sorted: no row is skipped or repeated. *)
Theorem pages_partition_the_listing s user limit search w n sorted :
  1 <= limit → limit <= max_safe →
  count (List.filter w (transactions s)) <= max_safe →
  list_where (u_id user) search = Ok w →
  untied (List.filter w (transactions s)) →
  JsNum.ceil_div (count (List.filter w (transactions s))) limit = JsNum.Num n →
  sorted ≡ₚ List.filter w (transactions s) →
  StronglySorted (λ a b, newest_first a b = true) sorted →
  concat (map (λ i, Reply.rows (getTransactions s user (Z.of_nat i + 1) limit search))
              (seq 0 (Z.to_nat n)))
  = sorted.
Proof.
  intros Hlimit Hsafe Hcsafe Hw Hun Hn Hperm Hsorted.
  destruct (ceil_div_spec (count (List.filter w (transactions s))) limit Hlimit)
    as (n' & Hn' & Hlo & Hhi).
  rewrite Hn in Hn'. injection Hn' as <-.
  rewrite (untied_sorted_unique _ sorted
             (order_by newest_first (List.filter w (transactions s))) Hun Hperm Hsorted
             (order_by_Permutation _ _)
             (order_by_sorted _ _ newest_first_total newest_first_trans)).
  set (l := order_by newest_first (List.filter w (transactions s))).
  assert (length l = length (List.filter w (transactions s))) as Hlen
    by (unfold l; by rewrite order_by_Permutation).
  assert (0 <= n) as Hn0 by (unfold count in *; nia).
  rewrite (map_ext_in _
             (λ i, take (Z.to_nat limit) (drop (i * Z.to_nat limit) l))).
  - rewrite pages_concat. apply take_ge. rewrite Hlen. unfold count in Hhi. nia.
  - intros i Hi%in_seq. unfold getTransactions, limit_offset. rewrite Hw.
    replace (Z.of_nat i + 1 - 1) with (Z.of_nat i) by lia.
    assert (0 <= Z.of_nat i * limit) as Hpos by (apply Z.mul_nonneg_nonneg; lia).
    assert (Z.of_nat i * limit <= (n - 1) * limit) as Hle
      by (apply Z.mul_le_mono_nonneg_r; lia).
    assert ((limit <? 0) || (Z.of_nat i * limit <? 0) || (bigint_max <? limit)
            || (bigint_max <? Z.of_nat i * limit) = false) as ->
      by (unfold max_safe, bigint_max in *; lia).
    simpl. fold l. do 2 f_equal. rewrite Z2Nat.inj_mul, Nat2Z.id by lia. done.
Qed.

Lemma pages_partition_the_listing_witness :
  concat (map (λ i, Reply.rows (getTransactions Demo.server0 Demo.alice
                                  (Z.of_nat i + 1) 2 ""))
              (seq 0 2))
  = order_by newest_first (List.filter (owned_by "u1") Demo.ledger).
Proof.
  apply (pages_partition_the_listing Demo.server0 Demo.alice 2 "" (owned_by "u1") 2
           (order_by newest_first (List.filter (owned_by "u1") Demo.ledger)));
    [lia | discriminate | discriminate | reflexivity | | reflexivity
    | apply order_by_Permutation
    | apply order_by_sorted; [apply newest_first_total | apply newest_first_trans]].
  unfold untied. simpl.
  repeat (constructor; [simpl; intros H; decompose [or] H; congruence|]).
  constructor.
Defined.



End TableProperties.

Section ReportProperties.
Import Model Api Sql Spec Handlers Analytics Months Routes Auth Shape.



(** X16: a longer range shows at least as much.  If the window of range r1
    is not longer than that of r2, every month of the trend and every
    category of the breakdown of the report for r1 occurs in the report for
    r2. *)
Theorem longer_range_keeps_months_and_categories today txs userId r1 r2 :
  window_months r1 <= window_months r2 →
  (∀ k, In k (map mr_month (monthlyTrends (detailedData today txs userId r1))) →
        In k (map mr_month (monthlyTrends (detailedData today txs userId r2)))) ∧
  (∀ c, In c (map cr_category (categoryBreakdown (detailedData today txs userId r1))) →
        In c (map cr_category (categoryBreakdown (detailedData today txs userId r2)))).
Proof.
  intros Hle. unfold detailedData. simpl. split.
  - intros k. rewrite !monthly_months. unfold in_month.
    rewrite !filter_nonempty. intros (t & [Hin Ht]%filter_In & Hk).
    exists t. split; [|done]. apply filter_In. split; [done|].
    apply andb_true_iff in Ht as [Ho Hs]. apply andb_true_iff. split; [done|].
    by eapply since_longer.
  - intros c. rewrite !breakdown_categories, !category_rows_categories.
    unfold in_category. rewrite !filter_nonempty.
    intros (t & [Hin Ht]%filter_In & Hk).
    exists t. split; [|done]. apply filter_In. split; [done|].
    unfold expense_in_window in *.
    apply andb_true_iff in Ht as [Ho Hs]. apply andb_true_iff. split; [done|].
    by eapply since_longer.
Qed.

Lemma longer_range_keeps_months_and_categories_witness :
  In "Food & Dining"
     (map cr_category
        (categoryBreakdown
           (detailedData (mkDate 2024 2 1) Demo.ledger "u1" "2years"))).
Proof.
  destruct (longer_range_keeps_months_and_categories (mkDate 2024 2 1) Demo.ledger
              "u1" "3months" "2years") as [_ H]; [vm_compute; discriminate|].
  apply H. vm_compute. auto.
Defined.

(** X17: only the second word of the Authorization header counts.  With any
    scheme word in place of Bearer, and with any further words after the
    token, the header authenticates as Bearer followed by the token does; a
    header of a single word is answered 401. *)
Theorem authentication_reads_the_second_word env us scheme tok :
  spaceless scheme = true → spaceless tok = true →
  authenticateToken env us (Some (scheme +:+ " " +:+ tok))
  = authenticateToken env us (Some ("Bearer " +:+ tok)) ∧
  (∀ rest, authenticateToken env us (Some (scheme +:+ " " +:+ tok +:+ " " +:+ rest))
           = authenticateToken env us (Some ("Bearer " +:+ tok))) ∧
  authenticateToken env us (Some scheme)
  = Respond (fail 401 "Access token required").
Proof.
  intros Hs Ht. unfold authenticateToken.
  destruct (bearer_second_word scheme tok Hs Ht) as [-> Hrest].
  destruct (bearer_second_word "Bearer" tok eq_refl Ht) as [Hb _].
  change ("Bearer" +:+ " " +:+ tok) with ("Bearer " +:+ tok) in Hb. rewrite Hb.
  split; [done|]. split.
  - intros rest. by rewrite Hrest.
  - by rewrite (bearer_one_word scheme Hs).
Qed.

Lemma authentication_reads_the_second_word_witness :
  authenticateToken (Demo.env_at 0) Demo.accounts (Some ("Token" +:+ " " +:+ "tok-alice"))
  = authenticateToken (Demo.env_at 0) Demo.accounts (Some ("Bearer " +:+ "tok-alice")).
Proof.
  destruct (authentication_reads_the_second_word (Demo.env_at 0) Demo.accounts
              "Token" "tok-alice" eq_refl eq_refl) as [H _].
  exact H.
Defined.

(** X18: GET /api/users is for admins.  Past the rate limiter an admin gets
    every account exactly once, newest first, each with the number of its
    transactions; a caller of any other role gets 403. *)
Theorem users_listing_is_for_admins env s h user :
  authenticateToken env (users s) h = Next user →
  api_limit_ok env = true →
  (u_role user = "admin" →
   ∃ rows,
     (handle env s (mkRequest h GetUsers)).1 = json (BUsers rows) ∧
     map fst rows ≡ₚ users s ∧
     StronglySorted (λ a b, u_created_at b <= u_created_at a) (map fst rows) ∧
     ∀ u n, In (u, n) rows →
            n = count (List.filter (owned_by (u_id u)) (transactions s))) ∧
  (u_role user ≠ "admin" →
   (handle env s (mkRequest h GetUsers)).1 = fail 403 "Insufficient permissions").
Proof.
  intros Hauth Hlim. split.
  - intros Hadmin. eexists. split.
    + open_chain. cbn [route authorization]. rewrite Hauth. unfold requireRole.
      rewrite Hadmin. simpl. rewrite Hlim. reflexivity.
    + unfold getUsers. rewrite map_map. simpl. rewrite map_id. repeat split.
      * apply order_by_Permutation.
      * match goal with |- StronglySorted ?R (order_by ?leb ?rows) =>
          assert (StronglySorted (λ a b, leb a b = true) (order_by leb rows)) as Hs
        end.
        { apply order_by_sorted.
          - intros x y. rewrite !Z.leb_le. lia.
          - intros x y z. rewrite !Z.leb_le. lia. }
        apply (StronglySorted_fmap id _ (λ a b, u_created_at b <= u_created_at a))
          in Hs.
        -- by rewrite list_fmap_id in Hs.
        -- intros x y H. by apply Z.leb_le.
      * intros u n (u' & [= <- <-] & _)%in_map_iff. done.
  - intros Hrole. open_chain. cbn [route authorization]. rewrite Hauth.
    unfold requireRole, role_in. simpl.
    destruct (String.eqb (u_role user) "admin") eqn:E; [|done].
    by apply String.eqb_eq in E.
Qed.

Lemma users_listing_is_for_admins_witness :
  (handle (Demo.env_at 0) Demo.server0 (Demo.as_ "tok-alice" GetUsers)).1
  = fail 403 "Insufficient permissions".
Proof.
  destruct (users_listing_is_for_admins (Demo.env_at 0) Demo.server0
              (Some "Bearer tok-alice") Demo.alice eq_refl eq_refl) as [_ H].
  apply H. discriminate.
Defined.

End ReportProperties.

Section ClientProperties.
Import Model Api Sql Spec Handlers Routes Auth Columns Client.

(** X19: the sidebar shows what the role permits.  Logged out it shows
    nothing; an admin sees the four tabs, every other user the three reading
    tabs; the Users tab is shown, and the users tab fetches the accounts,
    exactly when the server's role check for GET /api/users would pass. *)
Theorem sidebar_shows_what_the_role_permits :
  filteredMenuItems None = [] ∧
  ∀ u,
    map id (filteredMenuItems (Some u)) =
      (if String.eqb (u_role u) "admin"
       then ["overview"; "transactions"; "analytics"; "users"]
       else ["overview"; "transactions"; "analytics"]) ∧
    (In "users" (map id (filteredMenuItems (Some u))) ↔
     requireRole ["admin"] (Some u) = Next u) ∧
    fetchUsers (Some u) =
      (if String.eqb (u_role u) "admin" then Some GetUsers else None).
Proof.
  split; [done|]. intros u.
  unfold filteredMenuItems, fetchUsers, requireRole, role_in. simpl.
  destruct (String.eqb (u_role u) "admin"); simpl; repeat split; auto;
    try discriminate; intuition discriminate.
Qed.


(** X21: a session holds a token while a user is logged in.  After the
    provider has mounted and whatever logins, registrations and logouts
    follow, loading is over and a user is set only if a token is stored;
    after a logout no user and no token are left and nothing is permitted. *)
Theorem session_holds_a_token_while_logged_in stored me evs :
  loading (session stored me evs) = false ∧
  (is_Some (user (session stored me evs)) → is_Some (token (session stored me evs))) ∧
  user (session stored me (evs ++ [Logout])) = None ∧
  token (session stored me (evs ++ [Logout])) = None ∧
  ∀ action, hasPermission (user (session stored me (evs ++ [Logout]))) action = false.
Proof.
  assert (∀ st evs, loading st = false → (is_Some (user st) → is_Some (token st)) →
            loading (foldl on st evs) = false ∧
            (is_Some (user (foldl on st evs)) → is_Some (token (foldl on st evs))))
    as Hinv.
  { intros st evs0. revert st. induction evs0 as [|ev evs0 IH]; intros st Hl Hu; [done|].
    simpl. apply IH.
    - destruct ev as [[[u t]|]|[[u t]|]|]; done.
    - destruct ev as [[[u t]|]|[[u t]|]|]; simpl; try done; by eexists. }
  unfold session. rewrite foldl_app. simpl.
  assert (loading (initAuth (mount stored) me) = false ∧
          (is_Some (user (initAuth (mount stored) me)) →
           is_Some (token (initAuth (mount stored) me)))) as [H1 H2].
  { unfold initAuth, mount, falsy. simpl.
    repeat case_match; simpl; split; try done;
      first [by eexists | by intros [? [=]]]. }
  destruct (Hinv _ evs H1 H2) as [? ?]. repeat split; done.
Qed.

(** X22: for a search term without LIKE characters the client filter keeps
    the whole page the server sent. *)
Theorem client_filter_keeps_the_servers_page s user page limit search :
  plain search = true →
  filteredTransactions (Reply.rows (getTransactions s user page limit search)) search
  = Reply.rows (getTransactions s user page limit search).
Proof.
  intros Hp. unfold filteredTransactions. apply filter_all. intros t.
  destruct (list_where_plain (u_id user) search Hp) as (w & Hw & Hext).
  unfold getTransactions, limit_offset. rewrite Hw.
  destruct ((limit <? 0) || ((page - 1) * limit <? 0) || (Sql.bigint_max <? limit)
            || (Sql.bigint_max <? (page - 1) * limit)); simpl; [done|].
  intros Hin%In_take_drop. rewrite <- list_elem_of_In in Hin.
  rewrite order_by_Permutation in Hin. apply list_elem_of_In in Hin.
  apply filter_In in Hin as [_ Ht]. rewrite Hext in Ht. unfold listed in Ht.
  apply andb_true_iff in Ht as [_ Ht]. unfold contains_ci in Ht.
  destruct search as [|c search]; [by rewrite includes_empty|]. exact Ht.
Qed.

Lemma client_filter_keeps_the_servers_page_witness :
  Client.filteredTransactions
    (Reply.rows (getTransactions Demo.server0 Demo.alice 1 10 "rent")) "rent"
  = Reply.rows (getTransactions Demo.server0 Demo.alice 1 10 "rent").
Proof. apply client_filter_keeps_the_servers_page. reflexivity. Defined.

End ClientProperties.

Section AccountProperties.
Import Model Api Auth Accounts Validate Shape.

Lemma demo_emails_unique : Accounts.emails_unique Demo.members.
Proof.
  unfold Accounts.emails_unique. simpl. repeat constructor; simpl; intuition discriminate.
Defined.

(** X23: registration keeps the e-mail addresses unique.  On a table with
    unique addresses a refused registration changes nothing, and a granted
    one answers 201 and appends one row: role user, the next UUID, the
    normalised address, the hash of the password, with a token signed for
    that row. *)
Theorem registration_keeps_emails_unique lib accounts name email password :
  emails_unique accounts →
  emails_unique (register lib accounts name email password).2 ∧
  match (register lib accounts name email password).1 with
  | Refused _ _ => (register lib accounts name email password).2 = accounts
  | Granted st _ u tok =>
      st = 201 ∧ u_role u = "user" ∧ u_id u = gen_random_uuid lib ∧
      normalizeEmail lib email = Some (u_email u) ∧
      tok = jwt_sign lib (u_id u) (u_email u) (u_role u) ∧
      (register lib accounts name email password).2
      = accounts ++ [mkAccount u (bcrypt_hash lib password)]
  end.
Proof.
  intros Hu.
  destruct (register_cases lib accounts name email password)
    as [(st & err & ->) | (e & He & _ & _ & _ & Hnil & ->)]; simpl; [done|].
  split; [|by repeat split].
  unfold emails_unique in *. rewrite map_app. simpl.
  apply NoDup_snoc; [done|]. by apply by_email_nil.
Qed.

Lemma registration_keeps_emails_unique_witness :
  Accounts.emails_unique Demo.carol_registers.2.
Proof.
  destruct (registration_keeps_emails_unique Demo.lib Demo.members
              "Carol" "Carol@Demo.com" "secret1" demo_emails_unique) as [H _].
  exact H.
Defined.

(** X24: a second registration with the same address is refused.  After a
    granted registration, a registration whose address normalises to the
    same and that passes limiter and validation is answered 400, User
    already exists, and changes nothing. *)
Theorem second_registration_is_refused lib accounts name email password
  lib2 name2 email2 password2 st msg u tok :
  (register lib accounts name email password).1 = Granted st msg u tok →
  auth_limit_ok lib2 = true →
  normalizeEmail lib2 email2 = normalizeEmail lib email →
  isLength 2 50 (trim name2) = true →
  isLength 6 128 password2 = true →
  register lib2 (register lib accounts name email password).2 name2 email2 password2
  = (Refused 400 "User already exists",
     (register lib accounts name email password).2).
Proof.
  intros Hreg Hlim He Hn Hp.
  destruct (register_cases lib accounts name email password)
    as [(st' & err & Hr) | (e & Hemail & _ & _ & _ & Hnil & Hr)];
    rewrite Hr in *; simpl in *; [discriminate|].
  unfold register. rewrite Hlim, He, Hemail, Hn, Hp. simpl.
  by rewrite (by_email_snoc e accounts (mkAccount (mkUser _ e _ _ _) _) Hnil eq_refl).
Qed.

Lemma second_registration_is_refused_witness :
  Accounts.register Demo.lib Demo.carol_registers.2 "Caroline" "CAROL@demo.com" "secret2"
  = (Accounts.Refused 400 "User already exists", Demo.carol_registers.2).
Proof.
  apply (second_registration_is_refused Demo.lib Demo.members
           "Carol" "Carol@Demo.com" "secret1" Demo.lib "Caroline" "CAROL@demo.com"
           "secret2" 201 "User created successfully"
           (mkUser "u9" "carol@demo.com" "Carol" "user" 20) "jwt-u9");
    reflexivity.
Defined.

(** X25: login is granted on a matching password only.  A granted login
    answers 200 with an account of the table whose address is the normalised
    one and whose stored hash matches the password; a refusal is the 429 of
    the limiter, the 400 of the validation or the one 401, Invalid
    credentials, whether the address is unknown or the password wrong. *)
Theorem login_is_granted_on_a_matching_password_only lib accounts email password :
  match login lib accounts email password with
  | Granted st _ u tok =>
      st = 200 ∧
      tok = jwt_sign lib (u_id u) (u_email u) (u_role u) ∧
      normalizeEmail lib email = Some (u_email u) ∧
      ∃ a, In a accounts ∧ profile a = u ∧
           bcrypt_compare lib password (Accounts.password a) = true
  | Refused st err =>
      (st = 429 ∧ auth_limit_ok lib = false) ∨
      (st = 400 ∧ err = "Validation failed") ∨
      (st = 401 ∧ err = "Invalid credentials")
  end.
Proof.
  unfold login, limited.
  destruct (auth_limit_ok lib); simpl; [|by left].
  destruct (normalizeEmail lib email) as [e|]; [|right; by left].
  destruct (JsString.truthy password); [|right; by left].
  destruct (by_email e accounts) as [|[u hash] rest] eqn:Hb; [right; by right|].
  destruct (bcrypt_compare lib password hash) eqn:Hc; [|right; by right].
  apply filter_head_In in Hb as [Hin He]. simpl in He. apply String.eqb_eq in He.
  subst e. repeat split. by exists (mkAccount u hash).
Qed.

(** X26: who has registered can log in.  After a granted registration, a
    login with the same address and password, with a library that accepts
    the password against its hash, is granted for the new account, whose
    role is user. *)
Theorem registered_user_can_log_in lib accounts name email password lib2 st msg u tok :
  (register lib accounts name email password).1 = Granted st msg u tok →
  auth_limit_ok lib2 = true →
  normalizeEmail lib2 email = normalizeEmail lib email →
  bcrypt_compare lib2 password (bcrypt_hash lib password) = true →
  login lib2 (register lib accounts name email password).2 email password
  = Granted 200 "Login successful" u (jwt_sign lib2 (u_id u) (u_email u) "user") ∧
  u_role u = "user".
Proof.
  intros Hreg Hlim He Hc.
  destruct (register_cases lib accounts name email password)
    as [(st' & err & Hr) | (e & Hemail & _ & _ & Hp & Hnil & Hr)];
    rewrite Hr in *; simpl in *; [discriminate|].
  injection Hreg as <- <- <- <-. split; [|done].
  unfold login. rewrite Hlim, He, Hemail. simpl.
  rewrite (isLength_truthy 6 128 password) by (done || lia).
  rewrite (by_email_snoc e accounts (mkAccount (mkUser _ e _ _ _) _) Hnil eq_refl).
  by rewrite Hc.
Qed.

Lemma registered_user_can_log_in_witness :
  Accounts.login Demo.lib Demo.carol_registers.2 "Carol@Demo.com" "secret1"
  = Accounts.Granted 200 "Login successful"
      (mkUser "u9" "carol@demo.com" "Carol" "user" 20) "jwt-u9".
Proof.
  destruct (registered_user_can_log_in Demo.lib Demo.members
              "Carol" "Carol@Demo.com" "secret1" Demo.lib 201
              "User created successfully"
              (mkUser "u9" "carol@demo.com" "Carol" "user" 20) "jwt-u9"
              eq_refl eq_refl eq_refl eq_refl) as [H _].
  exact H.
Defined.

(** X27: validated fields are sanitised.  When the validation chain of a
    write passes, the amount is at least one cent, the type is the one of
    the body, and description and category are not empty and free of quotes,
    angle brackets, slash, backslash and backquote. *)
Theorem validated_fields_are_sanitised b f :
  validate b = Some f →
  1 <= f_amount f ∧
  parse_type (b_type b) = Some (f_type f) ∧
  JsString.truthy (f_description f) = true ∧
  JsString.truthy (f_category f) = true ∧
  markup_free (f_description f) = true ∧
  markup_free (f_category f) = true.
Proof.
  intros Hv. split; [by eapply validate_amount|]. revert Hv. unfold validate.
  destruct (parse_type (b_type b)) as [ty|]; [|done].
  destruct (b_amount b) as [a|]; [|done]. destruct (b_date b) as [d|]; [|done].
  destruct (_ && _) eqn:E; [|done]. intros [= <-]. simpl.
  apply andb_true_iff in E as [E Hc]. apply andb_true_iff in E as [_ Hd].
  repeat split.
  - apply escape_truthy. by eapply (isLength_truthy 1 255).
  - apply escape_truthy. by eapply (isLength_truthy 1 100).
  - apply escape_markup_free.
  - apply escape_markup_free.
Qed.

Lemma validated_fields_are_sanitised_witness :
  markup_free "Bills &amp; Utilities" = true.
Proof.
  destruct (validated_fields_are_sanitised Demo.new_rent
              (mkFields expense 95000 "Rent" "Bills &amp; Utilities" (mkDate 2024 1 1))
              eq_refl) as (_ & _ & _ & _ & _ & H).
  exact H.
Defined.

(** X28: the token of a registration authenticates the new account.  If the
    token library gives back the user id signed into a token without spaces,
    and the new id is not in the table, then Bearer with that token passes
    [authenticateToken] as the account just created. *)
Theorem registered_token_authenticates lib accounts name email password env
  st msg u tok :
  (register lib accounts name email password).1 = Granted st msg u tok →
  jwt_verify env tok = Decoded (u_id u) →
  spaceless tok = true → JsString.truthy tok = true →
  ¬ In (u_id u) (map (λ a, u_id (profile a)) accounts) →
  authenticateToken env
    (map profile (register lib accounts name email password).2)
    (Some ("Bearer " +:+ tok))
  = Next u.
Proof.
  intros Hreg Hjwt Hsp Htr Hfresh.
  destruct (register_cases lib accounts name email password)
    as [(st' & err & Hr) | (e & Hemail & _ & _ & Hp & Hnil & Hr)];
    rewrite Hr in *; simpl in *; [discriminate|].
  injection Hreg as <- <- <- <-. simpl in *.
  unfold authenticateToken.
  destruct (bearer_second_word "Bearer" _ eq_refl Hsp) as [Hb _].
  change ("Bearer" +:+ " " +:+ ?t) with ("Bearer " +:+ t) in Hb. rewrite Hb.
  unfold falsy. rewrite Htr. simpl. rewrite Hjwt.
  rewrite map_app, List.filter_app. simpl. rewrite string_eqb_same.
  rewrite filter_none; [done|].
  intros u' (a & <- & Hin)%in_map_iff.
  destruct (String.eqb (u_id (profile a)) (gen_random_uuid lib)) eqn:E; [|done].
  apply String.eqb_eq in E. exfalso. apply Hfresh. rewrite <- E.
  by apply (in_map (λ a, u_id (profile a))).
Qed.

Lemma registered_token_authenticates_witness :
  authenticateToken Demo.env_carol (map Accounts.profile Demo.carol_registers.2)
                    (Some ("Bearer " +:+ "jwt-u9"))
  = Next (mkUser "u9" "carol@demo.com" "Carol" "user" 20).
Proof.
  apply (registered_token_authenticates Demo.lib Demo.members
           "Carol" "Carol@Demo.com" "secret1" Demo.env_carol 201
           "User created successfully"
           (mkUser "u9" "carol@demo.com" "Carol" "user" 20) "jwt-u9");
    try reflexivity.
  simpl. intuition discriminate.
Defined.

End AccountProperties.
